(** * Beads storage engine: rename cascade, federation credentials, ID classifier

    A shallow embedding of the Dolt storage layer of beads
    (package [dolt]: the rename cascade and the federation-credential code)
    and of the database file discovery of the doctor's fix, together with
    the properties its specification states about it (Part II) and further
    properties read off the code (Part III).

    Go strings and [[]byte] values are byte sequences: a Go [string] is a Rocq
    [string] (a list of 8-bit characters), a [[]byte] is a [list byte].
    SQL tables are lists of rows; a transaction works on a private copy of the
    tables which [Commit] installs and [Rollback] discards. *)

From Stdlib Require Import Strings.String Strings.Ascii Strings.Byte.
From Stdlib Require Import List Bool Arith Lia.
From Stdlib Require Import Sorted Permutation.
Import ListNotations.
Open Scope string_scope.
Open Scope list_scope.

(* ================================================================== *)
(** * Part I. Definitions                                              *)
(* ================================================================== *)

(** ** Errors and results

    A Go [error] is its message; [fmt.Errorf("ctx: %w", err)] prepends the
    context to the wrapped message. *)

Inductive result (A : Type) : Type :=
| Ok (a : A)
| Err (e : string).
Arguments Ok {A} a.
Arguments Err {A} e.

Definition Errorf (context e : string) : string := (context ++ ": " ++ e)%string.

Definition is_ok {A} (r : result A) : bool :=
  match r with Ok _ => true | Err _ => false end.

(** ** Rows of the relations touched by the rename cascade

    Only the columns the statements of the source name are kept, plus the
    [status], [priority] and [issue_type] columns the tests fill in. *)

Record IssueRow : Type := mkIssueRow {
  id : string;
  title : string;
  description : string;
  design : string;
  acceptance_criteria : string;
  notes : string;
  status : string;
  priority : nat;
  issue_type : string;
  updated_at : nat
}.

Record DependencyRow : Type := mkDependencyRow {
  dep_issue_id : string;
  dep_depends_on_id : string;
  dep_type : string
}.

Record EventRow : Type := mkEventRow {
  ev_issue_id : string;
  ev_event_type : string;
  ev_actor : string;
  ev_old_value : option string;
  ev_new_value : option string
}.

Record LabelRow : Type := mkLabelRow {
  lbl_issue_id : string;
  lbl_label : string
}.

Record CommentRow : Type := mkCommentRow {
  cmt_issue_id : string;
  cmt_author : string;
  cmt_text : string
}.

Record SnapshotRow : Type := mkSnapshotRow {
  snap_issue_id : string;
  snap_content : string
}.

Record ChildCounterRow : Type := mkChildCounterRow {
  cc_parent_id : string;
  cc_last_child : nat
}.

(** The relations, under their SQL names. *)
Record Database : Type := mkDatabase {
  issues : list IssueRow;
  dependencies : list DependencyRow;
  events : list EventRow;
  labels : list LabelRow;
  comments : list CommentRow;
  issue_snapshots : list SnapshotRow;
  compaction_snapshots : list SnapshotRow;
  child_counters : list ChildCounterRow;
  wisps : list IssueRow;
  wisp_dependencies : list DependencyRow;
  wisp_events : list EventRow;
  wisp_labels : list LabelRow;
  wisp_comments : list CommentRow
}.

Definition empty_database : Database :=
  mkDatabase [] [] [] [] [] [] [] [] [] [] [] [] [].

(** The fields of [types.Issue] that [UpdateIssueID] reads. *)
Record Issue : Type := mkIssue {
  ID : string;
  Title : string;
  Description : string;
  Design : string;
  AcceptanceCriteria : string;
  Notes : string
}.

(** ** SQL statements of the cascade

    [UPDATE t SET ... WHERE c] rewrites the rows that satisfy [c] in place and
    reports how many rows it matched. *)

Definition sql_update {R : Type} (where_ : R -> bool) (set : R -> R)
  (t : list R) : list R :=
  map (fun r => if where_ r then set r else r) t.

Definition rows_matched {R : Type} (where_ : R -> bool) (t : list R) : nat :=
  length (filter where_ t).

(** Modelled from the spec: the schema is not among the sources.  Section
    4.3 says "the [id] column is the primary key of the issues/wisps
    relation": no two rows share an id, and the engine refuses a statement
    that would make two rows share one. *)
Fixpoint pk_unique (ids : list string) : bool :=
  match ids with
  | [] => true
  | x :: rest => negb (existsb (String.eqb x) rest) && pk_unique rest
  end.

Definition set_issue_fields (newID : string) (issue : Issue) (now : nat)
  (r : IssueRow) : IssueRow :=
  mkIssueRow newID (Title issue) (Description issue) (Design issue)
    (AcceptanceCriteria issue) (Notes issue)
    (status r) (priority r) (issue_type r) now.

(** [UPDATE issues SET id = ?, title = ?, ... , updated_at = ? WHERE id = ?]
    (and the same on [wisps]).  [id] is the primary key: the engine refuses
    the statement when the rewritten relation would hold an id twice. *)
Definition update_primary (newID : string) (issue : Issue) (now : nat)
  (oldID : string) (t : list IssueRow) : result (list IssueRow * nat) :=
  let t' := sql_update (fun r => id r =? oldID)
                       (set_issue_fields newID issue now) t in
  if pk_unique (map id t')
  then Ok (t', rows_matched (fun r => id r =? oldID) t)
  else Err ("duplicate entry '" ++ newID ++ "' for key 'PRIMARY'")%string.

Definition set_dep_issue_id (newID : string) (d : DependencyRow) :=
  mkDependencyRow newID (dep_depends_on_id d) (dep_type d).
Definition set_dep_depends_on_id (newID : string) (d : DependencyRow) :=
  mkDependencyRow (dep_issue_id d) newID (dep_type d).
Definition set_ev_issue_id (newID : string) (e : EventRow) :=
  mkEventRow newID (ev_event_type e) (ev_actor e) (ev_old_value e) (ev_new_value e).
Definition set_lbl_issue_id (newID : string) (l : LabelRow) :=
  mkLabelRow newID (lbl_label l).
Definition set_cmt_issue_id (newID : string) (c : CommentRow) :=
  mkCommentRow newID (cmt_author c) (cmt_text c).
Definition set_snap_issue_id (newID : string) (s : SnapshotRow) :=
  mkSnapshotRow newID (snap_content s).
Definition set_cc_parent_id (newID : string) (c : ChildCounterRow) :=
  mkChildCounterRow newID (cc_last_child c).

(** [UPDATE dependencies SET issue_id = ? WHERE issue_id = ?] and its
    siblings, one per referencing column. *)
Definition update_dep_issue_id (newID oldID : string) :=
  sql_update (fun d => dep_issue_id d =? oldID) (set_dep_issue_id newID).
Definition update_dep_depends_on_id (newID oldID : string) :=
  sql_update (fun d => dep_depends_on_id d =? oldID) (set_dep_depends_on_id newID).
Definition update_ev_issue_id (newID oldID : string) :=
  sql_update (fun e => ev_issue_id e =? oldID) (set_ev_issue_id newID).
Definition update_lbl_issue_id (newID oldID : string) :=
  sql_update (fun l => lbl_issue_id l =? oldID) (set_lbl_issue_id newID).
Definition update_cmt_issue_id (newID oldID : string) :=
  sql_update (fun c => cmt_issue_id c =? oldID) (set_cmt_issue_id newID).
Definition update_snap_issue_id (newID oldID : string) :=
  sql_update (fun s => snap_issue_id s =? oldID) (set_snap_issue_id newID).
Definition update_cc_parent_id (newID oldID : string) :=
  sql_update (fun c => cc_parent_id c =? oldID) (set_cc_parent_id newID).

(** [INSERT INTO events (issue_id, event_type, actor, old_value, new_value)
     VALUES (?, 'renamed', ?, ?, ?)] with arguments [newID, actor, oldID, newID]. *)
Definition renamed_event (newID actor oldID : string) : EventRow :=
  mkEventRow newID "renamed" actor (Some oldID) (Some newID).

Definition insert_row {R : Type} (r : R) (t : list R) : list R := t ++ [r].

(** The referencing columns the cascade rewrites, the two primary relations
    and the two event logs. *)
Inductive RefColumn : Type :=
| dependencies_issue_id | dependencies_depends_on_id
| events_issue_id | labels_issue_id | comments_issue_id
| issue_snapshots_issue_id | compaction_snapshots_issue_id
| child_counters_parent_id
| wisp_dependencies_issue_id | wisp_dependencies_depends_on_id
| wisp_events_issue_id | wisp_labels_issue_id | wisp_comments_issue_id.

Inductive PrimaryTable : Type := tbl_issues | tbl_wisps.
Inductive EventsTable : Type := tbl_events | tbl_wisp_events.
Inductive DepColumn : Type := col_issue_id | col_depends_on_id.

Definition with_issues f (db : Database) := mkDatabase
  (f (issues db)) (dependencies db) (events db) (labels db) (comments db)
  (issue_snapshots db) (compaction_snapshots db) (child_counters db)
  (wisps db) (wisp_dependencies db) (wisp_events db) (wisp_labels db) (wisp_comments db).
Definition with_dependencies f (db : Database) := mkDatabase
  (issues db) (f (dependencies db)) (events db) (labels db) (comments db)
  (issue_snapshots db) (compaction_snapshots db) (child_counters db)
  (wisps db) (wisp_dependencies db) (wisp_events db) (wisp_labels db) (wisp_comments db).
Definition with_events f (db : Database) := mkDatabase
  (issues db) (dependencies db) (f (events db)) (labels db) (comments db)
  (issue_snapshots db) (compaction_snapshots db) (child_counters db)
  (wisps db) (wisp_dependencies db) (wisp_events db) (wisp_labels db) (wisp_comments db).
Definition with_labels f (db : Database) := mkDatabase
  (issues db) (dependencies db) (events db) (f (labels db)) (comments db)
  (issue_snapshots db) (compaction_snapshots db) (child_counters db)
  (wisps db) (wisp_dependencies db) (wisp_events db) (wisp_labels db) (wisp_comments db).
Definition with_comments f (db : Database) := mkDatabase
  (issues db) (dependencies db) (events db) (labels db) (f (comments db))
  (issue_snapshots db) (compaction_snapshots db) (child_counters db)
  (wisps db) (wisp_dependencies db) (wisp_events db) (wisp_labels db) (wisp_comments db).
Definition with_issue_snapshots f (db : Database) := mkDatabase
  (issues db) (dependencies db) (events db) (labels db) (comments db)
  (f (issue_snapshots db)) (compaction_snapshots db) (child_counters db)
  (wisps db) (wisp_dependencies db) (wisp_events db) (wisp_labels db) (wisp_comments db).
Definition with_compaction_snapshots f (db : Database) := mkDatabase
  (issues db) (dependencies db) (events db) (labels db) (comments db)
  (issue_snapshots db) (f (compaction_snapshots db)) (child_counters db)
  (wisps db) (wisp_dependencies db) (wisp_events db) (wisp_labels db) (wisp_comments db).
Definition with_child_counters f (db : Database) := mkDatabase
  (issues db) (dependencies db) (events db) (labels db) (comments db)
  (issue_snapshots db) (compaction_snapshots db) (f (child_counters db))
  (wisps db) (wisp_dependencies db) (wisp_events db) (wisp_labels db) (wisp_comments db).
Definition with_wisps f (db : Database) := mkDatabase
  (issues db) (dependencies db) (events db) (labels db) (comments db)
  (issue_snapshots db) (compaction_snapshots db) (child_counters db)
  (f (wisps db)) (wisp_dependencies db) (wisp_events db) (wisp_labels db) (wisp_comments db).
Definition with_wisp_dependencies f (db : Database) := mkDatabase
  (issues db) (dependencies db) (events db) (labels db) (comments db)
  (issue_snapshots db) (compaction_snapshots db) (child_counters db)
  (wisps db) (f (wisp_dependencies db)) (wisp_events db) (wisp_labels db) (wisp_comments db).
Definition with_wisp_events f (db : Database) := mkDatabase
  (issues db) (dependencies db) (events db) (labels db) (comments db)
  (issue_snapshots db) (compaction_snapshots db) (child_counters db)
  (wisps db) (wisp_dependencies db) (f (wisp_events db)) (wisp_labels db) (wisp_comments db).
Definition with_wisp_labels f (db : Database) := mkDatabase
  (issues db) (dependencies db) (events db) (labels db) (comments db)
  (issue_snapshots db) (compaction_snapshots db) (child_counters db)
  (wisps db) (wisp_dependencies db) (wisp_events db) (f (wisp_labels db)) (wisp_comments db).
Definition with_wisp_comments f (db : Database) := mkDatabase
  (issues db) (dependencies db) (events db) (labels db) (comments db)
  (issue_snapshots db) (compaction_snapshots db) (child_counters db)
  (wisps db) (wisp_dependencies db) (wisp_events db) (wisp_labels db) (f (wisp_comments db)).

(** [UPDATE <table> SET <column> = newID WHERE <column> = oldID]. *)
Definition update_ref (c : RefColumn) (newID oldID : string) : Database -> Database :=
  match c with
  | dependencies_issue_id => with_dependencies (update_dep_issue_id newID oldID)
  | dependencies_depends_on_id => with_dependencies (update_dep_depends_on_id newID oldID)
  | events_issue_id => with_events (update_ev_issue_id newID oldID)
  | labels_issue_id => with_labels (update_lbl_issue_id newID oldID)
  | comments_issue_id => with_comments (update_cmt_issue_id newID oldID)
  | issue_snapshots_issue_id => with_issue_snapshots (update_snap_issue_id newID oldID)
  | compaction_snapshots_issue_id => with_compaction_snapshots (update_snap_issue_id newID oldID)
  | child_counters_parent_id => with_child_counters (update_cc_parent_id newID oldID)
  | wisp_dependencies_issue_id => with_wisp_dependencies (update_dep_issue_id newID oldID)
  | wisp_dependencies_depends_on_id => with_wisp_dependencies (update_dep_depends_on_id newID oldID)
  | wisp_events_issue_id => with_wisp_events (update_ev_issue_id newID oldID)
  | wisp_labels_issue_id => with_wisp_labels (update_lbl_issue_id newID oldID)
  | wisp_comments_issue_id => with_wisp_comments (update_cmt_issue_id newID oldID)
  end.

(** ** SQL [LIKE], [SUBSTRING], [CONCAT] and [LENGTH]

    [LIKE] under a binary (case-sensitive) collation, with the default escape
    character: [%] matches any run of characters, [_] any one character, a
    backslash makes the next pattern character literal. *)
Fixpoint sql_like (pattern : string) : string -> bool :=
  match pattern with
  | EmptyString => fun s => match s with EmptyString => true | _ => false end
  | String c rest =>
      if Ascii.eqb c "%" then
        fix any_run (s : string) : bool :=
          sql_like rest s ||
          match s with EmptyString => false | String _ s' => any_run s' end
      else if Ascii.eqb c "_" then
        fun s => match s with EmptyString => false | String _ s' => sql_like rest s' end
      else if Ascii.eqb c "\" then
        match rest with
        | EmptyString => fun s =>
            match s with String d EmptyString => Ascii.eqb d "\" | _ => false end
        | String e rest' => fun s =>
            match s with
            | EmptyString => false
            | String d s' => Ascii.eqb d e && sql_like rest' s'
            end
        end
      else
        fun s => match s with
                 | EmptyString => false
                 | String d s' => Ascii.eqb d c && sql_like rest s'
                 end
  end.

(** [SUBSTRING(s, pos)] with 1-based [pos >= 1]: the text from position [pos]. *)
Fixpoint string_drop (n : nat) (s : string) : string :=
  match n, s with
  | O, _ => s
  | S n', String _ s' => string_drop n' s'
  | S _, EmptyString => EmptyString
  end.

Definition SUBSTRING (s : string) (pos : nat) : string := string_drop (pos - 1) s.
Definition CONCAT (a b : string) : string := (a ++ b)%string.
Definition LENGTH (s : string) : nat := String.length s.

(** [UPDATE dependencies
     SET issue_id = CONCAT(?, SUBSTRING(issue_id, LENGTH(?) + 1))
     WHERE issue_id LIKE CONCAT(?, '%')] with arguments
    [newPrefix, oldPrefix, oldPrefix], and the same on [depends_on_id]. *)
Definition rename_prefix (newPrefix oldPrefix s : string) : string :=
  CONCAT newPrefix (SUBSTRING s (LENGTH oldPrefix + 1)).

Definition update_dep_prefix (c : DepColumn) (newPrefix oldPrefix : string)
  : list DependencyRow -> list DependencyRow :=
  match c with
  | col_issue_id =>
      sql_update (fun d => sql_like (CONCAT oldPrefix "%") (dep_issue_id d))
        (fun d => set_dep_issue_id (rename_prefix newPrefix oldPrefix (dep_issue_id d)) d)
  | col_depends_on_id =>
      sql_update (fun d => sql_like (CONCAT oldPrefix "%") (dep_depends_on_id d))
        (fun d => set_dep_depends_on_id
                    (rename_prefix newPrefix oldPrefix (dep_depends_on_id d)) d)
  end.

(** The statements the rename code sends to the engine. *)
Inductive Stmt : Type :=
| SET_FOREIGN_KEY_CHECKS (on : bool)
| UPDATE_primary (t : PrimaryTable) (newID : string) (issue : Issue) (now : nat)
    (oldID : string)
| UPDATE_ref (c : RefColumn) (newID oldID : string)
| INSERT_renamed (t : EventsTable) (newID actor oldID : string)
| UPDATE_dependencies_prefix (c : DepColumn) (newPrefix oldPrefix : string).

(** Rows matched by the [WHERE] clause of each statement ([RowsAffected]). *)
Definition ref_rows (c : RefColumn) (oldID : string) (db : Database) : nat :=
  match c with
  | dependencies_issue_id => rows_matched (fun d => dep_issue_id d =? oldID) (dependencies db)
  | dependencies_depends_on_id => rows_matched (fun d => dep_depends_on_id d =? oldID) (dependencies db)
  | events_issue_id => rows_matched (fun e => ev_issue_id e =? oldID) (events db)
  | labels_issue_id => rows_matched (fun l => lbl_issue_id l =? oldID) (labels db)
  | comments_issue_id => rows_matched (fun c => cmt_issue_id c =? oldID) (comments db)
  | issue_snapshots_issue_id => rows_matched (fun s => snap_issue_id s =? oldID) (issue_snapshots db)
  | compaction_snapshots_issue_id => rows_matched (fun s => snap_issue_id s =? oldID) (compaction_snapshots db)
  | child_counters_parent_id => rows_matched (fun c => cc_parent_id c =? oldID) (child_counters db)
  | wisp_dependencies_issue_id => rows_matched (fun d => dep_issue_id d =? oldID) (wisp_dependencies db)
  | wisp_dependencies_depends_on_id => rows_matched (fun d => dep_depends_on_id d =? oldID) (wisp_dependencies db)
  | wisp_events_issue_id => rows_matched (fun e => ev_issue_id e =? oldID) (wisp_events db)
  | wisp_labels_issue_id => rows_matched (fun l => lbl_issue_id l =? oldID) (wisp_labels db)
  | wisp_comments_issue_id => rows_matched (fun c => cmt_issue_id c =? oldID) (wisp_comments db)
  end.

Definition prefix_rows (c : DepColumn) (oldPrefix : string) (db : Database) : nat :=
  match c with
  | col_issue_id =>
      rows_matched (fun d => sql_like (CONCAT oldPrefix "%") (dep_issue_id d)) (dependencies db)
  | col_depends_on_id =>
      rows_matched (fun d => sql_like (CONCAT oldPrefix "%") (dep_depends_on_id d)) (dependencies db)
  end.

(** Effect of a statement on the relations, with the rows it reports. *)
Definition run_stmt (q : Stmt) (db : Database) : result (Database * nat) :=
  match q with
  | SET_FOREIGN_KEY_CHECKS _ => Ok (db, 0)
  | UPDATE_primary tbl_issues newID issue now oldID =>
      match update_primary newID issue now oldID (issues db) with
      | Ok (t, n) => Ok (with_issues (fun _ => t) db, n)
      | Err e => Err e
      end
  | UPDATE_primary tbl_wisps newID issue now oldID =>
      match update_primary newID issue now oldID (wisps db) with
      | Ok (t, n) => Ok (with_wisps (fun _ => t) db, n)
      | Err e => Err e
      end
  | UPDATE_ref c newID oldID => Ok (update_ref c newID oldID db, ref_rows c oldID db)
  | INSERT_renamed tbl_events newID actor oldID =>
      Ok (with_events (insert_row (renamed_event newID actor oldID)) db, 1)
  | INSERT_renamed tbl_wisp_events newID actor oldID =>
      Ok (with_wisp_events (insert_row (renamed_event newID actor oldID)) db, 1)
  | UPDATE_dependencies_prefix c newPrefix oldPrefix =>
      Ok (with_dependencies (update_dep_prefix c newPrefix oldPrefix) db,
          prefix_rows c oldPrefix db)
  end.

(** ** The connection and its transaction

    [store] holds the committed relations.  [foreign_key_checks] is the
    connection-scoped setting: [SET FOREIGN_KEY_CHECKS] changes it at once and
    neither [Commit] nor [Rollback] touches it.  [tx] is the working copy of
    the open transaction, if any.  [calls] counts the requests sent to the
    engine, and [sent] records each of them with the engine's answer
    ([true]: carried out). *)
Inductive Request : Type :=
| req_begin
| req_exec (q : Stmt)
| req_commit
| req_rollback.

Record Session : Type := mkSession {
  store : Database;
  foreign_key_checks : bool;
  tx : option Database;
  calls : nat;
  sent : list (Request * bool)
}.

(** The engine may refuse any request (lost connection, cancelled context,
    constraint violation, ...): [engine n] is the driver error of the [n]-th
    request on the connection, if it fails. *)
Definition Engine : Type := nat -> option string.

Definition healthy : Engine := fun _ => None.

Definition ErrTxDone : string :=
  "sql: transaction has already been committed or rolled back".

(** Computations on a state [S] that may return an error. *)
Definition Eff (S A : Type) : Type := S -> result A * S.

(** Computations on the connection. *)
Definition Conn (A : Type) : Type := Eff Session A.

Definition ret {S A} (a : A) : Eff S A := fun s => (Ok a, s).

Definition bind {S A B} (c : Eff S A) (k : A -> Eff S B) : Eff S B :=
  fun s => match c s with
           | (Ok a, s') => k a s'
           | (Err e, s') => (Err e, s')
           end.

Definition fail {S A} (e : string) : Eff S A := fun s => (Err e, s).

Declare Scope conn_scope.
Delimit Scope conn_scope with conn.
Notation "x <- c ;; k" := (bind c (fun x => k))
  (at level 61, c at next level, right associativity) : conn_scope.
Notation "c ;;; k" := (bind c (fun _ => k))
  (at level 61, right associativity) : conn_scope.

(** [if err != nil { return fmt.Errorf("context: %w", err) }]. *)
Definition wrap {S A} (context : string) (c : Eff S A) : Eff S A :=
  fun s => match c s with
           | (Ok a, s') => (Ok a, s')
           | (Err e, s') => (Err (Errorf context e), s')
           end.

(** [defer d]: [d] runs when the enclosing function returns, whatever the
    body returned, and what [d] returns is dropped. *)
Definition defer {S A} (d : Eff S unit) (body : Eff S A) : Eff S A :=
  fun s => let (r, s1) := body s in
           let (_, s2) := d s1 in
           (r, s2).

(** Drops what a call returns ([_, _ = f()]). *)
Definition ignore {S A} (c : Eff S A) : Eff S unit := fun s => (Ok tt, snd (c s)).

Section Connection.

Variable engine : Engine.

(** The session after a request, with the request logged. *)
Definition after (s : Session) (rq : Request) (accepted : bool)
  (fk : bool) (db : Database) (work : option Database) : Session :=
  mkSession db fk work (S (calls s)) (sent s ++ [(rq, accepted)]).

(** [s.db.BeginTx(ctx, nil)]. *)
Definition BeginTx : Conn unit := fun s =>
  match engine (calls s) with
  | Some e => (Err e, after s req_begin false (foreign_key_checks s) (store s) (tx s))
  | None =>
      (Ok tt, after s req_begin true (foreign_key_checks s) (store s) (Some (store s)))
  end.

(** [tx.ExecContext(ctx, q, args...)]: on a finished transaction the call
    fails with [ErrTxDone] and nothing reaches the engine. *)
Definition ExecContext (q : Stmt) : Conn nat := fun s =>
  match tx s with
  | None => (Err ErrTxDone, s)
  | Some work =>
      match engine (calls s) with
      | Some e =>
          (Err e, after s (req_exec q) false (foreign_key_checks s) (store s) (tx s))
      | None =>
          match run_stmt q work with
          | Err e =>
              (Err e, after s (req_exec q) false (foreign_key_checks s) (store s) (tx s))
          | Ok (work', n) =>
              let fk := match q with
                        | SET_FOREIGN_KEY_CHECKS on => on
                        | _ => foreign_key_checks s
                        end in
              (Ok n, after s (req_exec q) true fk (store s) (Some work'))
          end
      end
  end.

(** [tx.Commit()]: the transaction is finished whether or not the engine
    accepts the commit. *)
Definition Commit : Conn unit := fun s =>
  match tx s with
  | None => (Err ErrTxDone, s)
  | Some work =>
      match engine (calls s) with
      | Some e => (Err e, after s req_commit false (foreign_key_checks s) (store s) None)
      | None => (Ok tt, after s req_commit true (foreign_key_checks s) work None)
      end
  end.

(** [tx.Rollback()]: the working copy is dropped. *)
Definition Rollback : Conn unit := fun s =>
  match tx s with
  | None => (Err ErrTxDone, s)
  | Some _ =>
      match engine (calls s) with
      | Some e => (Err e, after s req_rollback false (foreign_key_checks s) (store s) None)
      | None => (Ok tt, after s req_rollback true (foreign_key_checks s) (store s) None)
      end
  end.

End Connection.

(** A connection as the store hands it out: enforcement on, no transaction. *)
Definition connect (db : Database) : Session := mkSession db true None 0 [].

(** Modelled from the spec: [isActiveWisp] is not among the sources, only its
    callers are.  Section 4.3 says the old ID is classified "as wisp or issue
    by probing the wisps relation": the probe succeeds when a row of [wisps]
    carries the id. *)
Definition isActiveWisp (s : Session) (wispID : string) : bool :=
  existsb (fun r => id r =? wispID) (wisps (store s)).

Section Rename.

Variable engine : Engine.

Local Open Scope conn_scope.

Let exec (context : string) (q : Stmt) : Conn nat :=
  wrap context (ExecContext engine q).

(** [updateIssueID] renames a regular issue in [issues] and its auxiliary
    tables.  ([RowsAffected] of the MySQL driver has no failing case.) *)
Definition updateIssueID (oldID newID : string) (issue : Issue)
  (actor : string) (now : nat) : Conn unit :=
  rows <- exec "failed to update issue ID"
            (UPDATE_primary tbl_issues newID issue now oldID) ;;
  if Nat.eqb rows 0 then fail ("issue not found: " ++ oldID)%string else
  exec "failed to update issue_id in dependencies"
    (UPDATE_ref dependencies_issue_id newID oldID) ;;;
  exec "failed to update depends_on_id in dependencies"
    (UPDATE_ref dependencies_depends_on_id newID oldID) ;;;
  exec "failed to update events" (UPDATE_ref events_issue_id newID oldID) ;;;
  exec "failed to update labels" (UPDATE_ref labels_issue_id newID oldID) ;;;
  exec "failed to update comments" (UPDATE_ref comments_issue_id newID oldID) ;;;
  exec "failed to update issue_snapshots"
    (UPDATE_ref issue_snapshots_issue_id newID oldID) ;;;
  exec "failed to update compaction_snapshots"
    (UPDATE_ref compaction_snapshots_issue_id newID oldID) ;;;
  exec "failed to update child_counters"
    (UPDATE_ref child_counters_parent_id newID oldID) ;;;
  exec "failed to update issue_id in wisp_dependencies"
    (UPDATE_ref wisp_dependencies_issue_id newID oldID) ;;;
  exec "failed to update depends_on_id in wisp_dependencies"
    (UPDATE_ref wisp_dependencies_depends_on_id newID oldID) ;;;
  exec "failed to update wisp_events" (UPDATE_ref wisp_events_issue_id newID oldID) ;;;
  exec "failed to update wisp_labels" (UPDATE_ref wisp_labels_issue_id newID oldID) ;;;
  exec "failed to update wisp_comments" (UPDATE_ref wisp_comments_issue_id newID oldID) ;;;
  exec "failed to record rename event" (INSERT_renamed tbl_events newID actor oldID) ;;;
  ret tt.

(** [updateWispID] renames a wisp in [wisps] and its [wisp_*] tables. *)
Definition updateWispID (oldID newID : string) (issue : Issue)
  (actor : string) (now : nat) : Conn unit :=
  rows <- exec "failed to update wisp ID"
            (UPDATE_primary tbl_wisps newID issue now oldID) ;;
  if Nat.eqb rows 0 then fail ("wisp not found: " ++ oldID)%string else
  exec "failed to update issue_id in wisp_dependencies"
    (UPDATE_ref wisp_dependencies_issue_id newID oldID) ;;;
  exec "failed to update depends_on_id in wisp_dependencies"
    (UPDATE_ref wisp_dependencies_depends_on_id newID oldID) ;;;
  exec "failed to update wisp_events" (UPDATE_ref wisp_events_issue_id newID oldID) ;;;
  exec "failed to update wisp_labels" (UPDATE_ref wisp_labels_issue_id newID oldID) ;;;
  exec "failed to update wisp_comments" (UPDATE_ref wisp_comments_issue_id newID oldID) ;;;
  exec "failed to record wisp rename event"
    (INSERT_renamed tbl_wisp_events newID actor oldID) ;;;
  ret tt.

(** [UpdateIssueID] updates an issue ID and all its references.  The two
    [defer]s run in reverse order of registration: first the statement that
    re-enables the checks, then [Rollback]. *)
Definition UpdateIssueID (oldID newID : string) (issue : Issue)
  (actor : string) (now : nat) : Conn unit :=
  fun s =>
    let isWisp := isActiveWisp s oldID in
    (wrap "failed to begin transaction" (BeginTx engine) ;;;
     defer (ignore (Rollback engine))
       (exec "failed to disable foreign key checks" (SET_FOREIGN_KEY_CHECKS false) ;;;
        defer (ignore (ExecContext engine (SET_FOREIGN_KEY_CHECKS true)))
          ((if isWisp
            then updateWispID oldID newID issue actor now
            else updateIssueID oldID newID issue actor now) ;;;
           exec "failed to re-enable foreign key checks" (SET_FOREIGN_KEY_CHECKS true) ;;;
           Commit engine))) s.

(** [RenameDependencyPrefix] updates the prefix in all dependency records. *)
Definition RenameDependencyPrefix (oldPrefix newPrefix : string) : Conn unit :=
  wrap "failed to begin transaction" (BeginTx engine) ;;;
  defer (ignore (Rollback engine))
    (exec "failed to update issue_id in dependencies"
       (UPDATE_dependencies_prefix col_issue_id newPrefix oldPrefix) ;;;
     exec "failed to update depends_on_id in dependencies"
       (UPDATE_dependencies_prefix col_depends_on_id newPrefix oldPrefix) ;;;
     Commit engine).

End Rename.

(** ** What the properties of the rename cascade observe *)

(** The relations after a cascade that went through, written out table by
    table: [t] is the rewritten primary relation. *)
Definition issue_cascade (oldID newID actor : string) (t : list IssueRow)
  (db : Database) : Database :=
  mkDatabase t
    (update_dep_depends_on_id newID oldID (update_dep_issue_id newID oldID (dependencies db)))
    (insert_row (renamed_event newID actor oldID) (update_ev_issue_id newID oldID (events db)))
    (update_lbl_issue_id newID oldID (labels db))
    (update_cmt_issue_id newID oldID (comments db))
    (update_snap_issue_id newID oldID (issue_snapshots db))
    (update_snap_issue_id newID oldID (compaction_snapshots db))
    (update_cc_parent_id newID oldID (child_counters db))
    (wisps db)
    (update_dep_depends_on_id newID oldID
       (update_dep_issue_id newID oldID (wisp_dependencies db)))
    (update_ev_issue_id newID oldID (wisp_events db))
    (update_lbl_issue_id newID oldID (wisp_labels db))
    (update_cmt_issue_id newID oldID (wisp_comments db)).

Definition wisp_cascade (oldID newID actor : string) (t : list IssueRow)
  (db : Database) : Database :=
  mkDatabase (issues db) (dependencies db) (events db) (labels db) (comments db)
    (issue_snapshots db) (compaction_snapshots db) (child_counters db)
    t
    (update_dep_depends_on_id newID oldID
       (update_dep_issue_id newID oldID (wisp_dependencies db)))
    (insert_row (renamed_event newID actor oldID)
       (update_ev_issue_id newID oldID (wisp_events db)))
    (update_lbl_issue_id newID oldID (wisp_labels db))
    (update_cmt_issue_id newID oldID (wisp_comments db)).

(** No row of the issue-side relations refers to [x]: not as [issues.id], nor
    in a referencing column ([issue_id], [depends_on_id], [parent_id]). *)
Definition unreferenced_in_issue_tables (x : string) (db : Database) : Prop :=
  Forall (fun r => id r <> x) (issues db) /\
  Forall (fun d => dep_issue_id d <> x /\ dep_depends_on_id d <> x) (dependencies db) /\
  Forall (fun e => ev_issue_id e <> x) (events db) /\
  Forall (fun l => lbl_issue_id l <> x) (labels db) /\
  Forall (fun c => cmt_issue_id c <> x) (comments db) /\
  Forall (fun s => snap_issue_id s <> x) (issue_snapshots db) /\
  Forall (fun s => snap_issue_id s <> x) (compaction_snapshots db) /\
  Forall (fun c => cc_parent_id c <> x) (child_counters db).

(** No row of the [wisp_*] auxiliary relations refers to [x]. *)
Definition unreferenced_in_wisp_tables (x : string) (db : Database) : Prop :=
  Forall (fun d => dep_issue_id d <> x /\ dep_depends_on_id d <> x) (wisp_dependencies db) /\
  Forall (fun e => ev_issue_id e <> x) (wisp_events db) /\
  Forall (fun l => lbl_issue_id l <> x) (wisp_labels db) /\
  Forall (fun c => cmt_issue_id c <> x) (wisp_comments db).

(** [SELECT COUNT( * ) FROM t WHERE id = x]. *)
Definition rows_with_id (x : string) (t : list IssueRow) : nat :=
  rows_matched (fun r => id r =? x) t.

(** [SELECT COUNT( * ) FROM t WHERE event_type = 'renamed'
     AND old_value = oldID AND new_value = newID]. *)
Definition is_rename_event (oldID newID : string) (e : EventRow) : bool :=
  (ev_event_type e =? "renamed") &&
  match ev_old_value e, ev_new_value e with
  | Some o, Some n => (o =? oldID) && (n =? newID)
  | _, _ => false
  end.

Definition rename_events (oldID newID : string) (t : list EventRow) : nat :=
  rows_matched (is_rename_event oldID newID) t.

(** The issue-side relations of two databases are the same. *)
Definition issue_side_equal (a b : Database) : Prop :=
  issues a = issues b /\ dependencies a = dependencies b /\ events a = events b /\
  labels a = labels b /\ comments a = comments b /\
  issue_snapshots a = issue_snapshots b /\
  compaction_snapshots a = compaction_snapshots b /\
  child_counters a = child_counters b.

Definition is_SET (q : Stmt) : bool :=
  match q with SET_FOREIGN_KEY_CHECKS _ => true | _ => false end.

(** The requests sent between two states of the connection. *)
Definition trace_since (s s' : Session) : list (Request * bool) :=
  skipn (List.length (sent s)) (sent s').

Definition data_request (entry : Request * bool) : Prop :=
  exists q, fst entry = req_exec q /\ is_SET q = false.

(** A computation is quiet when it leaves the committed relations and the
    enforcement setting alone, keeps an open transaction open, and sends
    only data statements. *)
Record quiet (s s1 : Session) : Prop := mk_quiet {
  quiet_store : store s1 = store s;
  quiet_fk : foreign_key_checks s1 = foreign_key_checks s;
  quiet_tx : tx s <> None -> tx s1 <> None;
  quiet_sent : exists trace, sent s1 = sent s ++ trace /\ Forall data_request trace
}.

Definition Quiet {A} (c : Conn A) : Prop :=
  forall s r s1, c s = (r, s1) -> quiet s s1.

(** The characters [LIKE] gives a meaning to. *)
Definition is_like_special (c : ascii) : bool :=
  Ascii.eqb c "%" || Ascii.eqb c "_" || Ascii.eqb c "\".

Definition wildcard_free (s : string) : bool :=
  forallb (fun c => negb (is_like_special c)) (list_ascii_of_string s).

(** Prefix replacement as the operation is meant: ids that start with the
    old prefix get the new one, the rest of the id is kept; other ids stay. *)
Definition replace_prefix (oldPrefix newPrefix s : string) : string :=
  if String.prefix oldPrefix s
  then (newPrefix ++ string_drop (String.length oldPrefix) s)%string
  else s.

Definition rename_dependency (oldPrefix newPrefix : string) (d : DependencyRow) :=
  mkDependencyRow (replace_prefix oldPrefix newPrefix (dep_issue_id d))
    (replace_prefix oldPrefix newPrefix (dep_depends_on_id d)) (dep_type d).

(** ** Regular expressions

    The fragment of Go's [regexp] syntax the package uses: character classes,
    concatenation, alternation and repetition.  A pattern written between [^]
    and [$] has to match the whole text ([$] without the [m] flag is the end
    of the text).  Matching is by derivatives. *)

Inductive regexp : Type :=
| re_none                                  (* matches nothing *)
| re_empty                                 (* matches the empty text *)
| re_class (p : ascii -> bool)             (* [...] *)
| re_seq (r1 r2 : regexp)
| re_alt (r1 r2 : regexp)
| re_star (r : regexp).

Fixpoint nullable (r : regexp) : bool :=
  match r with
  | re_none => false
  | re_empty => true
  | re_class _ => false
  | re_seq r1 r2 => nullable r1 && nullable r2
  | re_alt r1 r2 => nullable r1 || nullable r2
  | re_star _ => true
  end.

Fixpoint deriv (c : ascii) (r : regexp) : regexp :=
  match r with
  | re_none => re_none
  | re_empty => re_none
  | re_class p => if p c then re_empty else re_none
  | re_seq r1 r2 =>
      if nullable r1
      then re_alt (re_seq (deriv c r1) r2) (deriv c r2)
      else re_seq (deriv c r1) r2
  | re_alt r1 r2 => re_alt (deriv c r1) (deriv c r2)
  | re_star r1 => re_seq (deriv c r1) (re_star r1)
  end.

(** [re.MatchString(s)] for an anchored pattern [^r$]. *)
Fixpoint MatchString (r : regexp) (s : string) : bool :=
  match s with
  | EmptyString => nullable r
  | String c s' => MatchString (deriv c r) s'
  end.

Definition in_range (lo hi c : ascii) : bool :=
  Nat.leb (nat_of_ascii lo) (nat_of_ascii c) && Nat.leb (nat_of_ascii c) (nat_of_ascii hi).

Definition is_lower (c : ascii) : bool := in_range "a" "z" c.
Definition is_upper (c : ascii) : bool := in_range "A" "Z" c.
Definition is_digit (c : ascii) : bool := in_range "0" "9" c.
Definition is_letter (c : ascii) : bool := is_lower c || is_upper c.

(** The class [[a-zA-Z0-9_-]]. *)
Definition is_peer_name_char (c : ascii) : bool :=
  is_lower c || is_upper c || is_digit c || Ascii.eqb c "_" || Ascii.eqb c "-".

(** ** Federation credentials ([credentials.go]) *)

(** [validPeerNameRegex = regexp.MustCompile(`^[a-zA-Z][a-zA-Z0-9_-]*$`)]. *)
Definition validPeerNameRegex : regexp :=
  re_seq (re_class is_letter) (re_star (re_class is_peer_name_char)).

(** [validatePeerName] checks that a peer name is safe for use as a Dolt
    remote name; [None] is Go's [nil] error.  [len(name)] counts bytes. *)
Definition validatePeerName (name : string) : option string :=
  if name =? "" then Some "peer name cannot be empty"
  else if Nat.ltb 64 (String.length name) then Some "peer name too long (max 64 characters)"
  else if negb (MatchString validPeerNameRegex name)
  then Some "peer name must start with a letter and contain only alphanumeric characters, hyphens, and underscores"
  else None.

(** What [validPeerNameRegex] accepts, character by character: a letter,
    then letters, digits, [_] and [-]. *)
Definition peer_name_shape (name : string) : bool :=
  match name with
  | EmptyString => false
  | String c rest => is_letter c && forallb is_peer_name_char (list_ascii_of_string rest)
  end.

(** The library primitives the package calls: [crypto/sha256] and the
    [cipher.AEAD] that [cipher.NewGCM(aes.NewCipher(key))] returns.
    [gcm_Seal key nonce plaintext] is the ciphertext followed by the tag;
    [gcm_Open] answers [None] when authentication fails. *)
Class Primitives : Type := {
  sha256_Sum : list byte -> list byte;
  gcm_Seal : list byte -> list byte -> list byte -> list byte;
  gcm_Open : list byte -> list byte -> list byte -> option (list byte)
}.

(** [gcm.NonceSize()] of the standard GCM. *)
Definition NonceSize : nat := 12.

(** [aes.NewCipher] accepts keys of 16, 24 or 32 bytes. *)
Definition aes_key_size_ok (key : list byte) : bool :=
  let n := List.length key in
  Nat.eqb n 16 || Nat.eqb n 24 || Nat.eqb n 32.

Definition KeySizeError : string := "crypto/aes: invalid key size".

(** [io.ReadFull(rand.Reader, buf)] with [len(buf) = n]: [source] is what the
    random source delivers, if anything; the read succeeds only with exactly
    [n] bytes. *)
Definition ReadFull (source : option (list byte)) (n : nat) : result (list byte) :=
  match source with
  | None => Err "crypto/rand: read failed"
  | Some bytes =>
      if Nat.eqb (List.length bytes) n then Ok bytes else Err "unexpected EOF"
  end.

Section Crypto.

Context {P : Primitives}.

(** [legacyEncryptionKey] derives the old predictable key from [dbPath]. *)
Definition legacyEncryptionKey (dbPath : string) : list byte :=
  sha256_Sum (list_byte_of_string (dbPath ++ "beads-federation-key-v1")%string).

(** [encryptWithKey] encrypts plaintext using AES-GCM with the given key.
    [gcm.Seal(nonce, nonce, plaintext, nil)] appends to the nonce. *)
Definition encryptWithKey (source : option (list byte)) (plaintext : string)
  (key : list byte) : result (list byte) :=
  if negb (aes_key_size_ok key) then Err KeySizeError else
  match ReadFull source NonceSize with
  | Err e => Err e
  | Ok nonce => Ok (nonce ++ gcm_Seal key nonce (list_byte_of_string plaintext))
  end.

(** [decryptWithKey] decrypts ciphertext using AES-GCM with the given key. *)
Definition decryptWithKey (encrypted key : list byte) : result string :=
  if negb (aes_key_size_ok key) then Err KeySizeError else
  if Nat.ltb (List.length encrypted) NonceSize then Err "ciphertext too short" else
  let nonce := firstn NonceSize encrypted in
  let ciphertext := skipn NonceSize encrypted in
  match gcm_Open key nonce ciphertext with
  | None => Err "cipher: message authentication failed"
  | Some plaintext => Ok (string_of_list_byte plaintext)
  end.

(** [encryptPassword] encrypts a password with the store's credential key;
    the empty password gives [nil] (here [[]]) and no error. *)
Definition encryptPassword (credentialKey : option (list byte))
  (source : option (list byte)) (password : string) : result (list byte) :=
  if password =? "" then Ok [] else
  match credentialKey with
  | None => Err "credential encryption key not initialized"
  | Some key => encryptWithKey source password key
  end.

(** [decryptPassword] decrypts a password with the store's credential key. *)
Definition decryptPassword (credentialKey : option (list byte))
  (encrypted : list byte) : result string :=
  if Nat.eqb (List.length encrypted) 0 then Ok "" else
  match credentialKey with
  | None => Err "credential encryption key not initialized"
  | Some key => decryptWithKey encrypted key
  end.

End Crypto.

(** What the package relies on from the AEAD: opening what was sealed under
    the same key and nonce gives the plaintext back. *)
Class SealOpen (P : Primitives) : Prop := {
  gcm_Open_Seal : forall key nonce plaintext,
    aes_key_size_ok key = true -> List.length nonce = NonceSize ->
    gcm_Open key nonce (gcm_Seal key nonce plaintext) = Some plaintext
}.

(** [gcm.Overhead()] of the standard GCM: the tag of 16 bytes. *)
Definition TagSize : nat := 16.

(** The sealed text is as long as the plaintext and the tag. *)
Class Tagged (P : Primitives) : Prop := {
  gcm_Seal_length : forall key nonce plaintext,
    aes_key_size_ok key = true -> List.length nonce = NonceSize ->
    List.length (gcm_Seal key nonce plaintext) = List.length plaintext + TagSize
}.



Fixpoint bytes_eqb (a b : list byte) : bool :=
  match a, b with
  | [], [] => true
  | x :: a', y :: b' => Byte.eqb x y && bytes_eqb a' b'
  | _, _ => false
  end.

(** An instance of the interface to run the model on examples: the sealed
    box is the key followed by the plaintext, and opening checks the key.
    Opening what was sealed gives the plaintext back (and the box hides
    nothing). *)
Definition keyed_box : Primitives := {|
  sha256_Sum := fun data => firstn 32 (data ++ repeat x00 32);
  gcm_Seal := fun key nonce plaintext => key ++ plaintext;
  gcm_Open := fun key nonce sealed =>
    if bytes_eqb (firstn (List.length key) sealed) key
    then Some (skipn (List.length key) sealed)
    else None
|}.

(** A second instance, with the lengths of the real cipher: the sealed text
    is the plaintext followed by a tag of 16 bytes, here the first 16 bytes
    of the key, and opening checks the tag. *)
Definition tagged_box : Primitives := {|
  sha256_Sum := fun data => firstn 32 (data ++ repeat x00 32);
  gcm_Seal := fun key nonce plaintext => plaintext ++ firstn TagSize key;
  gcm_Open := fun key nonce sealed =>
    if bytes_eqb (skipn (List.length sealed - TagSize) sealed) (firstn TagSize key)
    then Some (firstn (List.length sealed - TagSize) sealed)
    else None
|}.

(** A row of [federation_peers], with the columns the statements of the
    package name.  [name] is the key of the relation (the
    [ON DUPLICATE KEY UPDATE] of [AddFederationPeer] relies on it).  Nullable
    columns are options. *)
Record PeerRow : Type := mkPeerRow {
  peer_name : string;
  remote_url : string;
  username : option string;
  password_encrypted : option (list byte);
  sovereignty : string;
  last_sync : option nat;
  created_at : nat;
  peer_updated_at : nat
}.

(** The fields of [storage.FederationPeer] the package reads and writes. *)
Record FederationPeer : Type := mkFederationPeer {
  Name : string;
  RemoteURL : string;
  Username : string;
  Password : string;
  Sovereignty : string;
  LastSync : option nat;
  CreatedAt : nat;
  UpdatedAt : nat
}.

(** The remote API of the underlying engine ([AddRemote] and [RemoveRemote]
    are methods of the store declared outside this package file): remotes
    are kept in a state of their own, and each call may return an error. *)
Class RemoteAPI : Type := {
  Remotes : Type;
  AddRemote : string -> string -> Remotes -> option string * Remotes;
  RemoveRemote : string -> Remotes -> option string * Remotes
}.

(** The store and the process around it: the credential key, the peers
    relation, the remotes, the process environment and the federation mutex.
    [requests] and [reads] count the requests sent to the engine and the reads
    from the random source. *)
Record DoltStore {R : RemoteAPI} : Type := mkDoltStore {
  dbPath : string;
  credentialKey : option (list byte);
  db_connected : bool;
  federation_peers : list PeerRow;
  remotes : Remotes;
  environ : list (string * string);
  federationEnvMutex : bool;
  requests : nat;
  reads : nat
}.
Arguments DoltStore : clear implicits.
Arguments mkDoltStore {R}.

(** Modelled from the spec: the constant [storage.ErrNotFound] is declared
    outside the sources; section 7 names the error kind [NotFoundError]. *)
Definition ErrNotFound : string := "not found".

(** [strings.Contains]. *)
Fixpoint Contains (s substr : string) : bool :=
  String.prefix substr s ||
  match s with
  | EmptyString => false
  | String _ s' => Contains s' substr
  end.

(** [os.Setenv], [os.Unsetenv] and [os.Getenv] on the process environment.
    [Setenv] refuses a value that holds a NUL byte. *)
Definition Unsetenv (key : string) (env : list (string * string)) :=
  filter (fun kv => negb (fst kv =? key)) env.

Definition Setenv (key value : string) (env : list (string * string)) :=
  if Contains value (String zero EmptyString) then env
  else (key, value) :: Unsetenv key env.

Definition Getenv (key : string) (env : list (string * string)) : option string :=
  match find (fun kv => fst kv =? key) env with
  | Some kv => Some (snd kv)
  | None => None
  end.

(** What a callback does: return (an error or [nil]) or panic. *)
Inductive outcome : Type :=
| Returned (err : option string)
| Panicked (v : string).

(** Statements on [federation_peers]. *)

(** [INSERT INTO federation_peers (name, remote_url, username,
     password_encrypted, sovereignty) VALUES (?, ?, ?, ?, ?)
     ON DUPLICATE KEY UPDATE remote_url = VALUES(remote_url), ...,
     updated_at = CURRENT_TIMESTAMP]. *)
Definition upsert_peer (name url user : string) (pwd : option (list byte))
  (sov : string) (now : nat) (t : list PeerRow) : list PeerRow :=
  if existsb (fun r => peer_name r =? name) t
  then sql_update (fun r => peer_name r =? name)
         (fun r => mkPeerRow (peer_name r) url (Some user) pwd sov
                     (last_sync r) (created_at r) now) t
  else insert_row (mkPeerRow name url (Some user) pwd sov None now now) t.

(** [UPDATE federation_peers SET password_encrypted = ? WHERE name = ?]. *)
Definition set_password (encrypted : list byte) (r : PeerRow) : PeerRow :=
  mkPeerRow (peer_name r) (remote_url r) (username r) (Some encrypted)
    (sovereignty r) (last_sync r) (created_at r) (peer_updated_at r).

Definition update_password (encrypted : list byte) (name : string) :=
  sql_update (fun r => peer_name r =? name) (set_password encrypted).

(** [UPDATE federation_peers SET last_sync = CURRENT_TIMESTAMP WHERE name = ?]. *)
Definition update_last_sync (name : string) (now : nat) :=
  sql_update (fun r => peer_name r =? name)
    (fun r => mkPeerRow (peer_name r) (remote_url r) (username r)
                (password_encrypted r) (sovereignty r) (Some now)
                (created_at r) (peer_updated_at r)).

(** [DELETE FROM federation_peers WHERE name = ?]. *)
Definition delete_peer (name : string) (t : list PeerRow) : list PeerRow :=
  filter (fun r => negb (peer_name r =? name)) t.

(** [SELECT name, password_encrypted FROM federation_peers
     WHERE password_encrypted IS NOT NULL AND LENGTH(password_encrypted) > 0]. *)
Definition select_encrypted (t : list PeerRow) : list (string * list byte) :=
  flat_map (fun r =>
              match password_encrypted r with
              | Some encrypted =>
                  if Nat.ltb 0 (List.length encrypted)
                  then [(peer_name r, encrypted)] else []
              | None => []
              end) t.

Record migrationEntry : Type := mkMigrationEntry {
  entry_name : string;
  entry_plaintext : string
}.

Section Federation.

Context {P : Primitives} {R : RemoteAPI}.

(** The engine's answers and what the random source delivers, read by read. *)
Variable engine : Engine.
Variable entropy : nat -> option (list byte).

Local Open Scope conn_scope.

Definition Store (A : Type) : Type := Eff (DoltStore R) A.

Definition with_peers (f : list PeerRow -> list PeerRow) (s : DoltStore R) :=
  mkDoltStore (dbPath s) (credentialKey s) (db_connected s)
    (f (federation_peers s)) (remotes s) (environ s) (federationEnvMutex s)
    (requests s) (reads s).
Definition with_remotes (r : Remotes) (s : DoltStore R) :=
  mkDoltStore (dbPath s) (credentialKey s) (db_connected s)
    (federation_peers s) r (environ s) (federationEnvMutex s)
    (requests s) (reads s).
Definition with_environ (f : list (string * string) -> list (string * string))
  (s : DoltStore R) :=
  mkDoltStore (dbPath s) (credentialKey s) (db_connected s)
    (federation_peers s) (remotes s) (f (environ s)) (federationEnvMutex s)
    (requests s) (reads s).
Definition with_mutex (held : bool) (s : DoltStore R) :=
  mkDoltStore (dbPath s) (credentialKey s) (db_connected s)
    (federation_peers s) (remotes s) (environ s) held
    (requests s) (reads s).
Definition next_request (s : DoltStore R) :=
  mkDoltStore (dbPath s) (credentialKey s) (db_connected s)
    (federation_peers s) (remotes s) (environ s) (federationEnvMutex s)
    (S (requests s)) (reads s).
Definition next_read (s : DoltStore R) :=
  mkDoltStore (dbPath s) (credentialKey s) (db_connected s)
    (federation_peers s) (remotes s) (environ s) (federationEnvMutex s)
    (requests s) (S (reads s)).

(** Modelled from the spec: the helpers [execContext] and [queryContext] of
    the store are declared outside the sources.  Section 5 takes every
    database operation as a call on the engine that may fail; a statement
    sent this way runs outside any transaction, so it takes effect as soon
    as the engine carries it out. *)
Definition execContext (stmt : list PeerRow -> list PeerRow) : Store unit :=
  fun s => match engine (requests s) with
           | Some e => (Err e, next_request s)
           | None => (Ok tt, next_request (with_peers stmt s))
           end.

(** [s.queryContext] and [s.db.QueryRowContext]: the rows a query selects
    (modelled as [execContext] is). *)
Definition queryContext {A} (select : list PeerRow -> A) : Store A :=
  fun s => match engine (requests s) with
           | Some e => (Err e, next_request s)
           | None => (Ok (select (federation_peers s)), next_request s)
           end.

(** [rows.Err()] after the iteration. *)
Definition rows_Err : Store unit :=
  fun s => match engine (requests s) with
           | Some e => (Err e, next_request s)
           | None => (Ok tt, next_request s)
           end.

(** The calls that draw a nonce from [rand.Reader]: [entropy n] is what the
    [n]-th read delivers. *)
Definition store_encryptWithKey (plaintext : string) (key : list byte)
  : Store (list byte) :=
  fun s => (encryptWithKey (entropy (reads s)) plaintext key,
            if aes_key_size_ok key then next_read s else s).

Definition store_encryptPassword (password : string) : Store (list byte) :=
  fun s =>
    if password =? "" then (Ok [], s) else
    match credentialKey s with
    | None => (Err "credential encryption key not initialized", s)
    | Some key => store_encryptWithKey password key s
    end.

Definition store_decryptPassword (encrypted : list byte) : Store string :=
  fun s => (decryptPassword (credentialKey s) encrypted, s).

(** First loop of [migrateCredentialKeys]: the entries that decrypt under
    the old key; the others are skipped. *)
Fixpoint decryptable (oldKey : list byte) (rows : list (string * list byte))
  : list migrationEntry :=
  match rows with
  | [] => []
  | (name, encrypted) :: rest =>
      match decryptWithKey encrypted oldKey with
      | Err _ => decryptable oldKey rest
      | Ok plaintext => mkMigrationEntry name plaintext :: decryptable oldKey rest
      end
  end.

(** Second loop: re-encrypt each password with the new key, row by row. *)
Fixpoint reencrypt (newKey : list byte) (toMigrate : list migrationEntry)
  : Store unit :=
  match toMigrate with
  | [] => ret tt
  | entry :: rest =>
      encrypted <- wrap ("failed to re-encrypt password for peer " ++ entry_name entry)%string
                     (store_encryptWithKey (entry_plaintext entry) newKey) ;;
      wrap ("failed to update encrypted password for peer " ++ entry_name entry)%string
        (execContext (update_password encrypted (entry_name entry))) ;;;
      reencrypt newKey rest
  end.

(** [migrateCredentialKeys] re-encrypts all stored federation passwords from
    the old dbPath-derived key to the new random key.  A failing query is
    not an error (the table may not exist yet). *)
Definition migrateCredentialKeys (newKey : list byte) : Store unit :=
  fun s =>
    if negb (db_connected s) then (Ok tt, s) else
    let oldKey := legacyEncryptionKey (dbPath s) in
    match queryContext select_encrypted s with
    | (Err _, s1) => (Ok tt, s1)
    | (Ok rows, s1) =>
        let toMigrate := decryptable oldKey rows in
        (wrap "failed to iterate peers for migration" rows_Err ;;;
         reencrypt newKey toMigrate) s1
    end.

(** [AddFederationPeer] adds or updates a federation peer with credentials. *)
Definition AddFederationPeer (peer : FederationPeer) (now : nat) : Store unit :=
  match validatePeerName (Name peer) with
  | Some e => fail (Errorf "invalid peer name" e)
  | None =>
      encryptedPwd <-
        (if negb (Password peer =? "")
         then pwd <- wrap "failed to encrypt password"
                       (store_encryptPassword (Password peer)) ;;
              ret (Some pwd)
         else ret None) ;;
      wrap "failed to add federation peer"
        (execContext (upsert_peer (Name peer) (RemoteURL peer) (Username peer)
                        encryptedPwd (Sovereignty peer) now)) ;;;
      fun s =>
        match AddRemote (Name peer) (RemoteURL peer) (remotes s) with
        | (Some e, r) =>
            if negb (Contains e "already exists")
            then (Err (Errorf "failed to add dolt remote" e), with_remotes r s)
            else (Ok tt, with_remotes r s)
        | (None, r) => (Ok tt, with_remotes r s)
        end
  end.

(** [GetFederationPeer] retrieves a federation peer by name. *)
Definition GetFederationPeer (name : string) : Store FederationPeer :=
  found <- wrap "failed to get federation peer"
             (queryContext (find (fun r => peer_name r =? name))) ;;
  match found with
  | None => fail (ErrNotFound ++ ": federation peer " ++ name)%string
  | Some row =>
      let encryptedPwd :=
        match password_encrypted row with Some b => b | None => [] end in
      password <-
        (if Nat.ltb 0 (List.length encryptedPwd)
         then wrap "failed to decrypt password" (store_decryptPassword encryptedPwd)
         else ret "") ;;
      ret (mkFederationPeer (peer_name row) (remote_url row)
             (match username row with Some u => u | None => "" end)
             password (sovereignty row) (last_sync row)
             (created_at row) (peer_updated_at row))
  end.

(** [RemoveFederationPeer] removes a federation peer and its credentials;
    removing the remote is best effort. *)
Definition RemoveFederationPeer (name : string) : Store unit :=
  wrap "failed to remove federation peer" (execContext (delete_peer name)) ;;;
  fun s => (Ok tt, with_remotes (snd (RemoveRemote name (remotes s))) s).

(** [updatePeerLastSync] updates the last sync time for a peer.
    ([wrapExecError], declared outside the sources, is taken to prefix the
    error with the operation; the one caller drops the result.) *)
Definition updatePeerLastSync (name : string) (now : nat) : Store unit :=
  wrap "update peer last sync" (execContext (update_last_sync name now)).

(** [setFederationCredentials] sets DOLT_REMOTE_USER and DOLT_REMOTE_PASSWORD
    and returns the cleanup function that unsets them. *)
Definition setFederationCredentials (username password : string)
  (s : DoltStore R) : (DoltStore R -> DoltStore R) * DoltStore R :=
  let s1 := if negb (username =? "")
            then with_environ (Setenv "DOLT_REMOTE_USER" username) s else s in
  let s2 := if negb (password =? "")
            then with_environ (Setenv "DOLT_REMOTE_PASSWORD" password) s1 else s1 in
  (fun s' => with_environ (Unsetenv "DOLT_REMOTE_PASSWORD")
               (with_environ (Unsetenv "DOLT_REMOTE_USER") s'),
   s2).

(** [withPeerCredentials] executes a function with peer credentials set in
    the environment.  The deferred calls run whether [fn] returns or panics:
    first the cleanup (when it was registered), then the unlock. *)
Definition withPeerCredentials (peerName : string)
  (fn : DoltStore R -> outcome * DoltStore R) (now : nat)
  (s : DoltStore R) : outcome * DoltStore R :=
  match GetFederationPeer peerName s with
  | (Err e, s0) => (Returned (Some (Errorf "failed to get peer credentials" e)), s0)
  | (Ok peer, s0) =>
      let locked := with_mutex true s0 in
      let unlock := with_mutex false in
      let (deferred, s1) :=
        if negb (Username peer =? "") || negb (Password peer =? "")
        then setFederationCredentials (Username peer) (Password peer) locked
        else (fun s' => s', locked) in
      match fn s1 with
      | (Panicked v, s2) => (Panicked v, unlock (deferred s2))
      | (Returned err, s2) =>
          let s3 := match err with
                    | None => snd (updatePeerLastSync peerName now s2)
                    | Some _ => s2
                    end in
          (Returned err, unlock (deferred s3))
      end
  end.

End Federation.

(** ** What the properties of the federation code observe *)

Section FederationObservations.

Context {P : Primitives} {R : RemoteAPI}.

Definition has_credentials (peer : FederationPeer) : bool :=
  negb (Username peer =? "") || negb (Password peer =? "").

(** The state [fn] runs in: the mutex held, the credentials of the peer (if
    it has any) in the environment. *)
Definition callback_state (peer : FederationPeer) (s0 : DoltStore R) : DoltStore R :=
  if has_credentials peer
  then snd (setFederationCredentials (Username peer) (Password peer) (with_mutex true s0))
  else with_mutex true s0.

(** The password of a row as the legacy key
    SHA256(path || "beads-federation-key-v1") reads it, if it reads it: the
    row has a stored password, it is not empty, and it decrypts. *)
Definition legacy_plaintext (path : string) (r : PeerRow) : option string :=
  match password_encrypted r with
  | Some encrypted =>
      if Nat.ltb 0 (List.length encrypted)
      then match decryptWithKey encrypted
                   (sha256_Sum
                      (list_byte_of_string (path ++ "beads-federation-key-v1")%string)) with
           | Ok plaintext => Some plaintext
           | Err _ => None
           end
      else None
  | None => None
  end.

(** [r'] is [r] with its password sealed afresh under [newKey]: the stored
    password of [r'] is a nonce followed by the plaintext sealed under
    [newKey] and that nonce, it decrypts under [newKey] to the plaintext,
    and every other column of [r'] is that of [r]. *)
Definition reencrypted (newKey : list byte) (plaintext : string)
  (r r' : PeerRow) : Prop :=
  exists nonce,
    List.length nonce = NonceSize /\
    password_encrypted r' =
      Some (nonce ++ gcm_Seal newKey nonce (list_byte_of_string plaintext)) /\
    decryptWithKey (nonce ++ gcm_Seal newKey nonce (list_byte_of_string plaintext))
      newKey = Ok plaintext /\
    peer_name r' = peer_name r /\ remote_url r' = remote_url r /\
    username r' = username r /\ sovereignty r' = sovereignty r /\
    last_sync r' = last_sync r /\ created_at r' = created_at r /\
    peer_updated_at r' = peer_updated_at r.

(** What the migration does to a row: rows the legacy key reads are sealed
    afresh, the others stay as they are, byte for byte. *)
Definition migrated_row (newKey : list byte) (path : string)
  (r r' : PeerRow) : Prop :=
  match legacy_plaintext path r with
  | Some plaintext => reencrypted newKey plaintext r r'
  | None => r' = r
  end.

(** What a successful sync does to a row: the row of the peer takes the
    time of the call as its [last_sync] and keeps its other columns; the
    other rows stay as they are. *)
Definition synced_row (peerName : string) (now : nat) (r r' : PeerRow) : Prop :=
  if peer_name r =? peerName
  then last_sync r' = Some now /\
       peer_name r' = peer_name r /\ remote_url r' = remote_url r /\
       username r' = username r /\ password_encrypted r' = password_encrypted r /\
       sovereignty r' = sovereignty r /\ created_at r' = created_at r /\
       peer_updated_at r' = peer_updated_at r
  else r' = r.

Definition entry_for (toMigrate : list migrationEntry) (r : PeerRow) :=
  find (fun e => entry_name e =? peer_name r) toMigrate.

(** The entry the first loop keeps for a row, if any. *)
Definition entry_of (path : string) (r : PeerRow) : list migrationEntry :=
  match legacy_plaintext path r with
  | Some plaintext => [mkMigrationEntry (peer_name r) plaintext]
  | None => []
  end.

End FederationObservations.

(** ** Identifier classifier ([isHashID]) *)

(** The text after the last [-] of an identifier, if there is one. *)
Fixpoint after_last_hyphen (s : string) : option string :=
  match s with
  | EmptyString => None
  | String c s' =>
      match after_last_hyphen s' with
      | Some t => Some t
      | None => if Ascii.eqb c "-" then Some s' else None
      end
  end.

(** The text before the first [.]: the hierarchical tail [.N.M...] is cut. *)
Fixpoint before_first_dot (s : string) : string :=
  match s with
  | EmptyString => EmptyString
  | String c s' => if Ascii.eqb c "." then EmptyString else String c (before_first_dot s')
  end.

Definition leaf_of (ident : string) : option string :=
  option_map before_first_dot (after_last_hyphen ident).

Definition all_lower_alnum (s : string) : bool :=
  forallb (fun c => is_lower c || is_digit c) (list_ascii_of_string s).

Definition has_lower_letter (s : string) : bool :=
  existsb is_lower (list_ascii_of_string s).

(** The table of [TestIsHashID]: identifier and expected answer, row by row. *)
Definition TestIsHashID : list (string * string * bool) :=
  [ ("hash with letters", "bd-0jkc", true);
    ("hash with only digits short", "bd-88", false);
    ("hash 5+ chars all digits", "bd-12345", true);
    ("all digits 4 chars", "bd-0088", false);
    ("sequential numeric", "bd-1", false);
    ("sequential two digit", "bd-42", false);
    ("no separator", "abc", false);
    ("empty suffix", "bd-", false);
    ("hierarchical hash", "bd-0jkc.1", true);
    ("hierarchical sequential", "bd-1.2", false);
    ("uppercase rejected", "bd-ABCD", false);
    ("special chars rejected", "bd-ab!c", false) ].

(** Modelled from the spec: the body of [isHashID] is not among the sources,
    only its test table is.  Section 4.1 classifies an identifier by its leaf
    "after removing the shared prefix and a dot-separated hierarchical tail";
    uppercase letters, special characters and empty suffixes are rejected, a
    leaf under five characters needs a lowercase letter.  The shared prefix is
    taken to end at the last [-].  For a leaf of five characters or more the
    test table (row "hash 5+ chars all digits", with the comment "isHashID
    needs letters for < 5 chars") asks for no letter, and the model follows
    the table. *)
Definition isHashID (ident : string) : bool :=
  match leaf_of ident with
  | None => false
  | Some leaf =>
      negb (leaf =? "") && all_lower_alnum leaf &&
      (Nat.leb 5 (String.length leaf) || has_lower_letter leaf)
  end.

(** The classifier as section 4.1 words it: (a) at least five characters, all
    lowercase alphanumeric, with at least one letter, or (b) fewer than five
    characters with at least one lowercase letter; uppercase letters, special
    characters and empty leaves are rejected. *)
Definition isHashID_as_specified (ident : string) : bool :=
  match leaf_of ident with
  | None => false
  | Some leaf =>
      negb (leaf =? "") && all_lower_alnum leaf &&
      ((Nat.leb 5 (String.length leaf) && has_lower_letter leaf) ||
       (Nat.ltb (String.length leaf) 5 && has_lower_letter leaf))
  end.

(** ** Sample data

    The database of [TestUpdateIssueIDUpdatesWispTables]: a permanent issue
    that two wisps, a wisp label, two wisp events and a wisp comment refer to. *)
Definition test_issue : Issue := mkIssue "test-old1" "Test issue" "" "" "" "".

Definition test_wisp : Issue := mkIssue "test-wisp-abc" "Test wisp" "" "" "" "".

Definition test_database : Database := mkDatabase
  [mkIssueRow "test-old1" "Test issue" "" "" "" "" "open" 2 "task" 0]
  []
  [mkEventRow "test-old1" "created" "test" None None]
  [] [] [] [] []
  [mkIssueRow "test-wisp-abc" "Test wisp" "" "" "" "" "open" 2 "task" 0;
   mkIssueRow "test-wisp-def" "Another wisp" "" "" "" "" "open" 2 "task" 0]
  [mkDependencyRow "test-wisp-abc" "test-old1" "blocks";
   mkDependencyRow "test-old1" "test-wisp-def" "blocks"]
  [mkEventRow "test-wisp-abc" "created" "test" None None;
   mkEventRow "test-wisp-def" "created" "test" None None;
   mkEventRow "test-old1" "label_added" "test" None (Some "bug");
   mkEventRow "test-old1" "test_event" "test" None None]
  [mkLabelRow "test-old1" "bug"]
  [mkCommentRow "test-old1" "test" "test comment"].

(** An engine that refuses the requests whose numbers are listed. *)
Definition refuses (numbers : list nat) : Engine :=
  fun n => if existsb (Nat.eqb n) numbers then Some "driver: bad connection" else None.

(** An engine whose context is cancelled before the request [k]: that
    request and every later one fail. *)
Definition cancelled_from (k : nat) : Engine :=
  fun n => if Nat.leb k n then Some "context canceled" else None.

Definition renamed_issue_session : Session :=
  snd (UpdateIssueID healthy "test-old1" "test-new1" test_issue "test" 1
         (connect test_database)).

Definition renamed_wisp_session : Session :=
  snd (UpdateIssueID healthy "test-wisp-abc" "test-renamed-wisp" test_wisp "tester" 1
         (connect test_database)).

(** Renaming back and forth: [bd-a1] to [bd-b2], back, and to [bd-b2] again. *)
Definition single_issue : Database :=
  with_issues (fun _ => [mkIssueRow "bd-a1" "Task" "" "" "" "" "open" 2 "task" 0])
    empty_database.

Definition there : Session :=
  snd (UpdateIssueID healthy "bd-a1" "bd-b2" (mkIssue "bd-b2" "Task" "" "" "" "") "me" 1
         (connect single_issue)).
Definition back : Session :=
  snd (UpdateIssueID healthy "bd-b2" "bd-a1" (mkIssue "bd-a1" "Task" "" "" "" "") "me" 2 there).
Definition there_again : Session :=
  snd (UpdateIssueID healthy "bd-a1" "bd-b2" (mkIssue "bd-b2" "Task" "" "" "" "") "me" 3 back).

(** An instance of the remote API to run examples: the remotes are a list of
    names and URLs; adding a remote that exists and removing one that does
    not are errors. *)
Definition listed_remotes : RemoteAPI := {|
  Remotes := list (string * string);
  AddRemote := fun name url rs =>
    if existsb (fun r => fst r =? name) rs
    then (Some "remote already exists", rs)
    else (None, rs ++ [(name, url)]);
  RemoveRemote := fun name rs =>
    if existsb (fun r => fst r =? name) rs
    then (None, filter (fun r => negb (fst r =? name)) rs)
    else (Some "remote not found", rs)
|}.

Definition no_remotes : @Remotes listed_remotes := @nil (string * string).

Definition sample_key : list byte := repeat x2a 32.
Definition sample_nonce : list byte := repeat x07 12.
Definition steady_entropy : nat -> option (list byte) := fun _ => Some sample_nonce.

(** A store whose credential key was never initialised (empty [dbPath]). *)
Definition keyless_store : DoltStore listed_remotes :=
  mkDoltStore "" None true [] no_remotes [] false 0 0.

Definition alice : FederationPeer :=
  mkFederationPeer "alice" "https://example.com/alice" "alice" "s3cret" "T2" None 0 0.

(** A store at [/srv/beads] before migration: [legacy] was sealed under the
    key derived from the path, [modern] under another key, [open] has no
    password. *)
Definition legacy_key : list byte :=
  legacyEncryptionKey (P := keyed_box) "/srv/beads".

Definition unmigrated_store : DoltStore listed_remotes :=
  mkDoltStore "/srv/beads" None true
    [mkPeerRow "legacy" "https://example.com/a" (Some "u")
       (Some (sample_nonce ++ legacy_key ++ list_byte_of_string "old-pw")) "T1" None 0 0;
     mkPeerRow "modern" "https://example.com/b" (Some "v")
       (Some (sample_nonce ++ sample_key ++ list_byte_of_string "new-pw")) "T1" None 0 0;
     mkPeerRow "open" "https://example.com/c" None None "T1" None 0 0]
    no_remotes [] false 0 0.

Definition fresh_key : list byte := repeat x11 32.

(** A store with its credential key and one peer that has credentials, and
    three callbacks: one that fails, one that panics, one that succeeds. *)
Definition keyed_store : DoltStore listed_remotes :=
  mkDoltStore "/srv/beads" (Some sample_key) true
    [mkPeerRow "alice" "https://example.com/alice" (Some "alice")
       (Some (sample_nonce ++ sample_key ++ list_byte_of_string "s3cret")) "T2" None 0 0]
    no_remotes [("HOME", "/root")] false 0 0.

Definition failing_sync (s : DoltStore listed_remotes) : outcome * DoltStore listed_remotes :=
  (Returned (Some "push rejected"), s).

Definition panicking_sync (s : DoltStore listed_remotes) : outcome * DoltStore listed_remotes :=
  (Panicked "nil pointer dereference", s).

Definition clean_sync (s : DoltStore listed_remotes) : outcome * DoltStore listed_remotes :=
  (Returned None, s).

(** A dependency of another project, [my-app], next to the prefix [my_app]. *)
Definition sample_dependency : DependencyRow :=
  mkDependencyRow "my-app-7" "other-3" "blocks".

Definition sample_dependencies : Database :=
  with_dependencies (fun _ => [sample_dependency]) empty_database.

(** ** Renaming, row by row

    What a rename does to a row, as a substitution on the referencing
    columns: [oldID] becomes [newID], every other id and every other column
    stays. *)
Definition rename_id (oldID newID x : string) : string :=
  if x =? oldID then newID else x.

Definition rename_in_dependency (oldID newID : string) (d : DependencyRow) :=
  mkDependencyRow (rename_id oldID newID (dep_issue_id d))
    (rename_id oldID newID (dep_depends_on_id d)) (dep_type d).

Definition rename_in_event (oldID newID : string) (e : EventRow) :=
  mkEventRow (rename_id oldID newID (ev_issue_id e)) (ev_event_type e) (ev_actor e)
    (ev_old_value e) (ev_new_value e).

Definition rename_in_label (oldID newID : string) (l : LabelRow) :=
  mkLabelRow (rename_id oldID newID (lbl_issue_id l)) (lbl_label l).

Definition rename_in_comment (oldID newID : string) (c : CommentRow) :=
  mkCommentRow (rename_id oldID newID (cmt_issue_id c)) (cmt_author c) (cmt_text c).

Definition rename_in_snapshot (oldID newID : string) (s : SnapshotRow) :=
  mkSnapshotRow (rename_id oldID newID (snap_issue_id s)) (snap_content s).

Definition rename_in_child_counter (oldID newID : string) (c : ChildCounterRow) :=
  mkChildCounterRow (rename_id oldID newID (cc_parent_id c)) (cc_last_child c).

(** The row of the primary relation: the renamed row takes the id and the
    text fields of the [issue] argument and the time of the call, and keeps
    its [status], [priority] and [issue_type]. *)
Definition rename_primary (oldID newID : string) (issue : Issue) (now : nat)
  (r : IssueRow) : IssueRow :=
  if id r =? oldID then set_issue_fields newID issue now r else r.

(** No row of the database carries [x], in any relation. *)
Definition fresh_id (x : string) (db : Database) : Prop :=
  unreferenced_in_issue_tables x db /\ unreferenced_in_wisp_tables x db /\
  Forall (fun r => id r <> x) (wisps db).

(** A text of 7-bit characters: for such a text the bytes [LENGTH] counts
    and the characters [SUBSTRING] skips are the same in number. *)
Definition ascii_only (s : string) : bool :=
  forallb (fun c => Nat.ltb (nat_of_ascii c) 128) (list_ascii_of_string s).

(** A dependency with [prefix] put in front of both ids. *)
Definition prefixed_dependency (prefix : string) (d : DependencyRow) :=
  mkDependencyRow (prefix ++ dep_issue_id d)%string (prefix ++ dep_depends_on_id d)%string
    (dep_type d).

(** ** The credential key file ([initCredentialKey]) *)

Definition credentialKeyFile : string := ".beads-credential-key".

(** The permission bits [0700] and [0600]. *)
Definition perm_0700 : nat := 7 * 64.
Definition perm_0600 : nat := 6 * 64.

(** The calls [initCredentialKey] makes on the operating system
    ([filepath.Join], [os.ReadFile], [os.MkdirAll], [os.WriteFile]): the files
    are kept in a state of their own and each call may fail. *)
Class FileAPI : Type := {
  Files : Type;
  Join : string -> string -> string;
  ReadFile : string -> Files -> result (list byte);
  MkdirAll : string -> nat -> Files -> option string * Files;
  WriteFile : string -> list byte -> nat -> Files -> option string * Files
}.

(** What the package relies on when it reloads the key: a file that was
    written reads back as written. *)
Class WriteThenRead (F : FileAPI) : Prop := {
  ReadFile_WriteFile : forall path data perm files files',
    WriteFile path data perm files = (None, files') ->
    ReadFile path files' = Ok data
}.

(** The store together with the files beside it. *)
Record Host {R : RemoteAPI} {F : FileAPI} : Type := mkHost {
  host_store : DoltStore R;
  host_files : Files
}.
Arguments Host : clear implicits.
Arguments mkHost {R F}.

Section CredentialKey.

Context {P : Primitives} {R : RemoteAPI} {F : FileAPI}.

Variable engine : Engine.
Variable entropy : nat -> option (list byte).

Definition with_credentialKey (key : list byte) (s : DoltStore R) : DoltStore R :=
  mkDoltStore (dbPath s) (Some key) (db_connected s)
    (federation_peers s) (remotes s) (environ s) (federationEnvMutex s)
    (requests s) (reads s).

(** The key found in the key file, when the file reads and holds 32 bytes
    ([err == nil && len(key) == 32]). *)
Definition stored_key (keyPath : string) (files : Files) : option (list byte) :=
  match ReadFile keyPath files with
  | Ok key => if Nat.eqb (List.length key) 32 then Some key else None
  | Err _ => None
  end.

(** [initCredentialKey] loads or generates the credential encryption key.
    Without a [dbPath] nothing is done.  A key file of 32 bytes is loaded.
    Otherwise 32 random bytes are drawn, the stored credentials are migrated
    to them, the directory is made and the key file written, in this order;
    the store takes the key last. *)
Definition initCredentialKey : Eff (Host R F) unit := fun h =>
  let s := host_store h in
  if dbPath s =? "" then (Ok tt, h) else
  let keyPath := Join (dbPath s) credentialKeyFile in
  match stored_key keyPath (host_files h) with
  | Some key => (Ok tt, mkHost (with_credentialKey key s) (host_files h))
  | None =>
      match ReadFull (entropy (reads s)) 32 with
      | Err e =>
          (Err (Errorf "failed to generate credential encryption key" e),
           mkHost (next_read s) (host_files h))
      | Ok key =>
          match migrateCredentialKeys engine entropy key (next_read s) with
          | (Err e, s1) =>
              (Err (Errorf "failed to migrate credential keys" e), mkHost s1 (host_files h))
          | (Ok _, s1) =>
              match MkdirAll (dbPath s) perm_0700 (host_files h) with
              | (Some e, files1) =>
                  (Err (Errorf "failed to create directory for credential key" e),
                   mkHost s1 files1)
              | (None, files1) =>
                  match WriteFile keyPath key perm_0600 files1 with
                  | (Some e, files2) =>
                      (Err (Errorf "failed to write credential key file" e),
                       mkHost s1 files2)
                  | (None, files2) =>
                      (Ok tt, mkHost (with_credentialKey key s1) files2)
                  end
              end
          end
      end
  end.

End CredentialKey.

(** ** Listing the peers ([ListFederationPeers]) *)

(** [ORDER BY name] under the binary collation: the rows sorted by the bytes
    of their name, rows of equal name in the order of the relation. *)
Fixpoint insert_by_name (r : PeerRow) (t : list PeerRow) : list PeerRow :=
  match t with
  | [] => [r]
  | x :: rest =>
      if String.ltb (peer_name x) (peer_name r)
      then x :: insert_by_name r rest
      else r :: t
  end.

Definition order_by_name (t : list PeerRow) : list PeerRow :=
  fold_right insert_by_name [] t.

(** Two rows in the order of their names. *)
Definition by_name (a b : PeerRow) : Prop :=
  String.leb (peer_name a) (peer_name b) = true.

Section Listing.

Context {P : Primitives} {R : RemoteAPI}.

Variable engine : Engine.

Local Open Scope conn_scope.

(** One turn of the loop: the row is scanned into a fresh [peer], the
    nullable columns are read, the password is decrypted when there is one. *)
Definition scan_peer (row : PeerRow) : Store FederationPeer :=
  let encryptedPwd :=
    match password_encrypted row with Some b => b | None => [] end in
  password <-
    (if Nat.ltb 0 (List.length encryptedPwd)
     then wrap "failed to decrypt password" (store_decryptPassword encryptedPwd)
     else ret "") ;;
  ret (mkFederationPeer (peer_name row) (remote_url row)
         (match username row with Some u => u | None => "" end)
         password (sovereignty row) (last_sync row)
         (created_at row) (peer_updated_at row)).

Fixpoint scan_peers (rows : list PeerRow) : Store (list FederationPeer) :=
  match rows with
  | [] => ret []
  | row :: rest =>
      peer <- scan_peer row ;;
      peers <- scan_peers rest ;;
      ret (peer :: peers)
  end.

(** [ListFederationPeers] returns all configured federation peers.  The
    first password that does not decrypt ends the listing with its error;
    the error of [rows.Err()] is returned as it is. *)
Definition ListFederationPeers : Store (list FederationPeer) :=
  rows <- wrap "failed to list federation peers" (queryContext engine order_by_name) ;;
  peers <- scan_peers rows ;;
  rows_Err engine ;;;
  ret peers.

End Listing.

(** The peer a row is read as under a credential key: name, URL and
    sovereignty as stored, a [NULL] user name as the empty string, no
    password when the column is [NULL] or empty, the decrypted password
    otherwise. *)
Definition peer_of_row {P : Primitives} (credentialKey : option (list byte))
  (row : PeerRow) : result FederationPeer :=
  match password_encrypted row with
  | Some (b :: encrypted) =>
      match decryptPassword credentialKey (b :: encrypted) with
      | Ok password =>
          Ok (mkFederationPeer (peer_name row) (remote_url row)
                (match username row with Some u => u | None => "" end)
                password (sovereignty row) (last_sync row)
                (created_at row) (peer_updated_at row))
      | Err e => Err (Errorf "failed to decrypt password" e)
      end
  | _ =>
      Ok (mkFederationPeer (peer_name row) (remote_url row)
            (match username row with Some u => u | None => "" end)
            "" (sovereignty row) (last_sync row)
            (created_at row) (peer_updated_at row))
  end.

(** The rows read one after the other, up to the first that does not read. *)
Fixpoint peers_of_rows {P : Primitives} (credentialKey : option (list byte))
  (rows : list PeerRow) : result (list FederationPeer) :=
  match rows with
  | [] => Ok []
  | row :: rest =>
      match peer_of_row credentialKey row with
      | Err e => Err e
      | Ok peer =>
          match peers_of_rows credentialKey rest with
          | Err e => Err e
          | Ok peers => Ok (peer :: peers)
          end
      end
  end.

(** ** Database file discovery ([doctor/fix/database_config.go]) *)

(** What [os.ReadDir] tells of an entry. *)
Record DirEntry : Type := mkDirEntry {
  de_Name : string;
  de_IsDir : bool
}.

(** [strings.HasSuffix]. *)
Definition HasSuffix (s suffix : string) : bool :=
  Nat.leb (String.length suffix) (String.length s) &&
  (string_drop (String.length s - String.length suffix) s =? suffix).

(** The test of the loop: a file, ending in [.db], no backup and not [vc.db]. *)
Definition is_candidate (entry : DirEntry) : bool :=
  if de_IsDir entry then false
  else if negb (HasSuffix (de_Name entry) ".db") then false
  else if Contains (de_Name entry) "backup" || (de_Name entry =? "vc.db") then false
  else true.

(** [findActualDBFile] scans [.beads/] for the SQLite database file in use;
    [entries] is what [os.ReadDir(beadsDir)] returned. *)
Definition findActualDBFile (entries : result (list DirEntry)) : string :=
  match entries with
  | Err _ => ""
  | Ok entries =>
      let candidates := map de_Name (filter is_candidate entries) in
      match candidates with
      | [] => ""
      | first :: _ =>
          match find (fun name => name =? "beads.db") candidates with
          | Some name => name
          | None => first
          end
      end
  end.

(** ** Further sample data *)

(** Files as a list of paths with their content and permission bits; paths
    are joined with a slash. *)
Definition listed_files : FileAPI := {|
  Files := list (string * (list byte * nat));
  Join := fun dir name => (dir ++ "/" ++ name)%string;
  ReadFile := fun path files =>
    match find (fun f => fst f =? path) files with
    | Some f => Ok (fst (snd f))
    | None => Err "no such file or directory"
    end;
  MkdirAll := fun path perm files => (None, files);
  WriteFile := fun path data perm files =>
    (None, (path, (data, perm)) :: filter (fun f => negb (fst f =? path)) files)
|}.

Definition no_files : @Files listed_files := @nil (string * (list byte * nat)).

(** A store at [/srv/beads] before its first start, with the legacy rows of
    [unmigrated_store], and the random source of that start: 32 bytes for
    the key, then nonces. *)
Definition first_start : Host listed_remotes listed_files :=
  mkHost unmigrated_store no_files.

Definition start_entropy : nat -> option (list byte) :=
  fun n => match n with O => Some fresh_key | _ => Some sample_nonce end.

Definition started : Host listed_remotes listed_files :=
  snd (initCredentialKey (P := keyed_box) healthy start_entropy first_start).

(** A second store opened on the same path and files. *)
Definition second_start : Host listed_remotes listed_files :=
  mkHost unmigrated_store (host_files started).

(** A directory with a backup, the version-control database, a directory
    and two databases. *)
Definition sample_directory : list DirEntry :=
  [ mkDirEntry "beads-backup.db" false;
    mkDirEntry "archive.db" false;
    mkDirEntry "vc.db" false;
    mkDirEntry "beads.db" false;
    mkDirEntry "dolt.db" true ].

(** Dependencies among the issues of the project [bd] and one from
    another project. *)
Definition bd_dependencies : Database :=
  with_dependencies
    (fun _ => [mkDependencyRow "bd-1" "bd-2" "blocks";
               mkDependencyRow "other-1" "bd-1" "related"])
    empty_database.

(** A store with two peers, stored out of order; the remote of [alice]
    exists already, and a password of an earlier run is left in the
    environment. *)
Definition alice_row : PeerRow :=
  mkPeerRow "alice" "https://example.com/alice" (Some "alice")
    (Some (sample_nonce ++ sample_key ++ list_byte_of_string "s3cret")) "T2" (Some 3) 1 2.

Definition bob_row : PeerRow :=
  mkPeerRow "bob" "https://example.com/bob" None None "T1" None 4 4.

Definition alice_remote : @Remotes listed_remotes :=
  ("alice", "https://example.com/alice") :: @nil (string * string).

Definition two_peers_store : DoltStore listed_remotes :=
  mkDoltStore "/srv/beads" (Some sample_key) true
    [bob_row; alice_row]
    alice_remote
    [("DOLT_REMOTE_PASSWORD", "stale")] false 0 0.

Definition alice_stored : FederationPeer :=
  mkFederationPeer "alice" "https://example.com/alice" "alice" "s3cret" "T2" (Some 3) 1 2.

Definition bob_stored : FederationPeer :=
  mkFederationPeer "bob" "https://example.com/bob" "" "" "T1" None 4 4.

(** Files that cannot be written. *)
Definition read_only_files : FileAPI := {|
  Files := list (string * (list byte * nat));
  Join := fun dir name => (dir ++ "/" ++ name)%string;
  ReadFile := fun path files =>
    match find (fun f => fst f =? path) files with
    | Some f => Ok (fst (snd f))
    | None => Err "no such file or directory"
    end;
  MkdirAll := fun path perm files => (None, files);
  WriteFile := fun path data perm files => (Some "read-only file system", files)
|}.

Definition no_writable_files : @Files read_only_files :=
  @nil (string * (list byte * nat)).

Definition read_only_start : Host listed_remotes read_only_files :=
  mkHost unmigrated_store no_writable_files.

(* ================================================================== *)
(** * Part II. Properties                                              *)
(* ================================================================== *)

(** ** Reasoning about computations: what a successful run went through *)

Lemma bind_Ok {S A B} (c : Eff S A) (k : A -> Eff S B) s b s' :
  bind c k s = (Ok b, s') ->
  exists a s1, c s = (Ok a, s1) /\ k a s1 = (Ok b, s').
Proof.
  unfold bind. destruct (c s) as [[a|e] s1]; intros H.
  - exists a, s1. split; [reflexivity | exact H].
  - discriminate H.
Qed.

Lemma wrap_Ok {S A} context (c : Eff S A) s a s' :
  wrap context c s = (Ok a, s') -> c s = (Ok a, s').
Proof.
  unfold wrap. destruct (c s) as [[a0|e] s1]; intros H; [exact H | discriminate H].
Qed.

Lemma defer_Ok {S A} (d : Eff S unit) (body : Eff S A) s a s' :
  defer d body s = (Ok a, s') ->
  exists s1, body s = (Ok a, s1) /\ s' = snd (d s1).
Proof.
  unfold defer. destruct (body s) as [r s1]. destruct (d s1) as [u s2] eqn:Hd.
  intros H. injection H as -> ->. exists s1. rewrite Hd. split; reflexivity.
Qed.

Lemma ExecContext_Ok engine q s n s' :
  ExecContext engine q s = (Ok n, s') ->
  exists work work',
    tx s = Some work /\ engine (calls s) = None /\
    run_stmt q work = Ok (work', n) /\
    s' = after s (req_exec q) true
           (match q with SET_FOREIGN_KEY_CHECKS on => on | _ => foreign_key_checks s end)
           (store s) (Some work').
Proof.
  unfold ExecContext. destruct (tx s) as [work|] eqn:Htx; [|discriminate].
  destruct (engine (calls s)) eqn:Heng; [discriminate|].
  destruct (run_stmt q work) as [[work' m]|e] eqn:Hrun; [|discriminate].
  intros H. injection H as <- <-. exists work, work'.
  rewrite Hrun. repeat split; try reflexivity.
Qed.

Lemma BeginTx_Ok engine s u s' :
  BeginTx engine s = (Ok u, s') ->
  engine (calls s) = None /\
  s' = after s req_begin true (foreign_key_checks s) (store s) (Some (store s)).
Proof.
  unfold BeginTx. destruct (engine (calls s)) eqn:Heng; [discriminate|].
  intros H. inversion H; subst. split; reflexivity.
Qed.

Lemma Commit_Ok engine s u s' :
  Commit engine s = (Ok u, s') ->
  exists work, tx s = Some work /\ engine (calls s) = None /\
    s' = after s req_commit true (foreign_key_checks s) work None.
Proof.
  unfold Commit. destruct (tx s) as [work|] eqn:Htx; [|discriminate].
  destruct (engine (calls s)) eqn:Heng; [discriminate|].
  intros H. inversion H; subst. exists work. repeat split; reflexivity.
Qed.

(** One step of a successful run: peel the first statement off [H]. *)
Ltac step_exec H :=
  let n := fresh "n" in
  let s1 := fresh "s" in
  let H1 := fresh "Hstep" in
  let work := fresh "w" in
  let work' := fresh "w" in
  let Htx := fresh "Htx" in
  let Heng := fresh "Heng" in
  let Hrun := fresh "Hrun" in
  apply bind_Ok in H; destruct H as (n & s1 & H1 & H);
  apply wrap_Ok in H1; apply ExecContext_Ok in H1;
  destruct H1 as (work & work' & Htx & Heng & Hrun & ->);
  unfold after in *; cbn [tx store foreign_key_checks calls sent] in *;
  try (injection Htx as <-).

Lemma updateIssueID_Ok engine oldID newID issue actor now s u s' work :
  tx s = Some work ->
  updateIssueID engine oldID newID issue actor now s = (Ok u, s') ->
  exists t n,
    update_primary newID issue now oldID (issues work) = Ok (t, n) /\ n <> 0 /\
    tx s' = Some (issue_cascade oldID newID actor t work) /\
    store s' = store s /\ foreign_key_checks s' = foreign_key_checks s.
Proof.
  intros Hwork H. unfold updateIssueID in H.
  step_exec H. rewrite Hwork in Htx. injection Htx as <-.
  cbn [run_stmt] in Hrun.
  destruct (update_primary newID issue now oldID (issues work)) as [[t m]|e] eqn:Hup;
    [|discriminate]. injection Hrun as <- <-.
  destruct (Nat.eqb m 0) eqn:Hm; [discriminate H|].
  apply Nat.eqb_neq in Hm.
  do 14 (step_exec H; cbn [run_stmt] in Hrun; injection Hrun as <- <-).
  injection H as _ <-. exists t, m.
  repeat split; try assumption.
Qed.

Lemma updateWispID_Ok engine oldID newID issue actor now s u s' work :
  tx s = Some work ->
  updateWispID engine oldID newID issue actor now s = (Ok u, s') ->
  exists t n,
    update_primary newID issue now oldID (wisps work) = Ok (t, n) /\ n <> 0 /\
    tx s' = Some (wisp_cascade oldID newID actor t work) /\
    store s' = store s /\ foreign_key_checks s' = foreign_key_checks s.
Proof.
  intros Hwork H. unfold updateWispID in H.
  step_exec H. rewrite Hwork in Htx. injection Htx as <-.
  cbn [run_stmt] in Hrun.
  destruct (update_primary newID issue now oldID (wisps work)) as [[t m]|e] eqn:Hup;
    [|discriminate]. injection Hrun as <- <-.
  destruct (Nat.eqb m 0) eqn:Hm; [discriminate H|].
  apply Nat.eqb_neq in Hm.
  do 6 (step_exec H; cbn [run_stmt] in Hrun; injection Hrun as <- <-).
  injection H as _ <-. exists t, m.
  repeat split; try assumption.
Qed.

Lemma UpdateIssueID_Ok engine oldID newID issue actor now s u s' :
  UpdateIssueID engine oldID newID issue actor now s = (Ok u, s') ->
  exists t n,
    n <> 0 /\ foreign_key_checks s' = true /\ tx s' = None /\
    if isActiveWisp s oldID
    then update_primary newID issue now oldID (wisps (store s)) = Ok (t, n) /\
         store s' = wisp_cascade oldID newID actor t (store s)
    else update_primary newID issue now oldID (issues (store s)) = Ok (t, n) /\
         store s' = issue_cascade oldID newID actor t (store s).
Proof.
  intros H. unfold UpdateIssueID in H.
  apply bind_Ok in H. destruct H as (u0 & s0 & Hb & H).
  apply wrap_Ok in Hb. apply BeginTx_Ok in Hb. destruct Hb as [_ ->]. unfold after in H.
  apply defer_Ok in H. destruct H as (s1 & H & ->).
  step_exec H. cbn [run_stmt] in Hrun. injection Hrun as <- <-.
  apply defer_Ok in H. destruct H as (s2 & H & ->).
  apply bind_Ok in H. destruct H as (u1 & s3 & Hbody & H).
  step_exec H. cbn [run_stmt] in Hrun. injection Hrun as <- <-.
  apply Commit_Ok in H. destruct H as (work2 & Htx2 & _ & ->).
  cbn [tx] in Htx2. injection Htx2 as <-.
  unfold ignore, ExecContext, Rollback, after; cbn [tx snd store foreign_key_checks].
  destruct (isActiveWisp s oldID).
  - eapply updateWispID_Ok in Hbody; [|reflexivity].
    destruct Hbody as (t & n & Hup & Hn & Htx3 & Hst3 & _).
    cbn [store] in Hst3. rewrite Htx in Htx3. injection Htx3 as ->.
    exists t, n. repeat split; assumption.
  - eapply updateIssueID_Ok in Hbody; [|reflexivity].
    destruct Hbody as (t & n & Hup & Hn & Htx3 & Hst3 & _).
    cbn [store] in Hst3. rewrite Htx in Htx3. injection Htx3 as ->.
    exists t, n. repeat split; assumption.
Qed.

(** ** Facts about [UPDATE] on a relation *)

Lemma Forall_sql_update {R} (Q P : R -> Prop) where_ set (t : list R) :
  Forall Q t ->
  (forall r, Q r -> where_ r = true -> P (set r)) ->
  (forall r, Q r -> where_ r = false -> P r) ->
  Forall P (sql_update where_ set t).
Proof.
  intros HQ Hset Hkeep. unfold sql_update.
  induction HQ as [|r t Hr _ IH]; simpl; constructor; [|exact IH].
  destruct (where_ r) eqn:Hw; auto.
Qed.

Lemma Forall_True {R} (t : list R) : Forall (fun _ => True) t.
Proof. induction t; constructor; auto. Qed.

Lemma rows_matched_app {R} (p : R -> bool) (a b : list R) :
  rows_matched p (a ++ b) = rows_matched p a + rows_matched p b.
Proof. unfold rows_matched. rewrite filter_app, length_app. reflexivity. Qed.

Lemma rows_matched_sql_update_same {R} (p where_ : R -> bool) set (t : list R) :
  (forall r, p (set r) = p r) ->
  rows_matched p (sql_update where_ set t) = rows_matched p t.
Proof.
  intros Hp. unfold rows_matched, sql_update.
  induction t as [|r t IH]; simpl; [reflexivity|].
  assert (E : p (if where_ r then set r else r) = p r)
    by (destruct (where_ r); [apply Hp | reflexivity]).
  rewrite E. destruct (p r); simpl; rewrite IH; reflexivity.
Qed.

Lemma pk_unique_at_most_one (x : string) (ids : list string) :
  pk_unique ids = true -> List.length (filter (String.eqb x) ids) <= 1.
Proof.
  induction ids as [|y ids IH]; simpl; intros H; [lia|].
  apply andb_true_iff in H. destruct H as [Hy Hrest].
  specialize (IH Hrest).
  destruct (String.eqb_spec x y) as [->|Hxy]; simpl; [|exact IH].
  apply negb_true_iff in Hy.
  assert (E : filter (String.eqb y) ids = []).
  { clear -Hy. induction ids as [|z ids IH]; simpl in *; [reflexivity|].
    apply orb_false_iff in Hy. destruct Hy as [-> Hy]. auto. }
  rewrite E. simpl. lia.
Qed.

Lemma rows_with_id_map (x : string) (t : list IssueRow) :
  rows_with_id x t = List.length (filter (String.eqb x) (map id t)).
Proof.
  unfold rows_with_id, rows_matched. induction t as [|r t IH]; simpl; [reflexivity|].
  rewrite (String.eqb_sym x (id r)). destruct (id r =? x); simpl; rewrite IH; reflexivity.
Qed.


Lemma update_primary_Ok newID issue now oldID t t' n :
  oldID <> newID ->
  update_primary newID issue now oldID t = Ok (t', n) -> n <> 0 ->
  Forall (fun r => id r <> oldID) t' /\ rows_with_id newID t' = 1 /\
  rows_with_id oldID t = n.
Proof.
  intros Hne H Hn. unfold update_primary in H.
  destruct (pk_unique _) eqn:Hpk; [|discriminate]. injection H as <- <-.
  split; [|split].
  - apply Forall_sql_update with (Q := fun _ => True).
    + apply Forall_True.
    + intros r _ _. simpl. congruence.
    + intros r _ Hw. apply String.eqb_neq in Hw. exact Hw.
  - assert (Hle := pk_unique_at_most_one newID _ Hpk).
    rewrite <- rows_with_id_map in Hle.
    assert (Hge : rows_with_id newID
                    (sql_update (fun r => id r =? oldID)
                       (set_issue_fields newID issue now) t) <> 0).
    { clear Hle Hpk. unfold rows_with_id, rows_matched, sql_update in *.
      induction t as [|r t IH]; simpl in *; [congruence|].
      destruct (id r =? oldID) eqn:Hr; simpl.
      - rewrite String.eqb_refl. simpl. lia.
      - destruct (id r =? newID); simpl; [lia|]. apply IH. exact Hn. }
    lia.
  - reflexivity.
Qed.

Lemma unreferenced_dependencies newID oldID (t : list DependencyRow) :
  oldID <> newID ->
  Forall (fun d => dep_issue_id d <> oldID /\ dep_depends_on_id d <> oldID)
    (update_dep_depends_on_id newID oldID (update_dep_issue_id newID oldID t)).
Proof.
  intros Hne. unfold update_dep_depends_on_id, update_dep_issue_id.
  apply Forall_sql_update with (Q := fun d => dep_issue_id d <> oldID).
  - apply Forall_sql_update with (Q := fun _ => True).
    + apply Forall_True.
    + intros r _ _. simpl. congruence.
    + intros r _ Hw. apply String.eqb_neq in Hw. exact Hw.
  - intros r Hr _. simpl. split; congruence.
  - intros r Hr Hw. apply String.eqb_neq in Hw. split; assumption.
Qed.

Ltac unreferenced_column Hne :=
  let Hmiss := fresh "Hmiss" in
  apply Forall_sql_update with (Q := fun _ => True);
  [ apply Forall_True
  | intros ? _ _; simpl; congruence
  | intros ? _ Hmiss; apply String.eqb_neq in Hmiss; exact Hmiss ].

Lemma rename_events_cascade oldID newID actor (t : list EventRow) :
  rename_events oldID newID
    (insert_row (renamed_event newID actor oldID) (update_ev_issue_id newID oldID t)) =
  S (rename_events oldID newID t).
Proof.
  unfold rename_events, insert_row, update_ev_issue_id.
  rewrite rows_matched_app, rows_matched_sql_update_same by reflexivity.
  unfold rows_matched. simpl. unfold is_rename_event. simpl.
  rewrite !String.eqb_refl. simpl. lia.
Qed.

Lemma unreferenced_events oldID newID actor (t : list EventRow) :
  oldID <> newID ->
  Forall (fun e => ev_issue_id e <> oldID)
    (insert_row (renamed_event newID actor oldID) (update_ev_issue_id newID oldID t)).
Proof.
  intros Hne. unfold insert_row. apply Forall_app. split.
  - unfold update_ev_issue_id. unreferenced_column Hne.
  - constructor; [simpl; congruence | constructor].
Qed.

(** C1 (as amended).  After a successful [UpdateIssueID oldID newID] with
    [oldID <> newID]:
    - when [oldID] is a regular issue, no row of [issues], [dependencies]
      (either column), [events], [labels], [comments], [issue_snapshots],
      [compaction_snapshots], [child_counters], [wisp_dependencies] (either
      column), [wisp_events], [wisp_labels] or [wisp_comments] refers to
      [oldID] in its id or referencing column; exactly one row of [issues]
      has the new id; [events] holds exactly one more 'renamed' event with
      [old_value = oldID] and [new_value = newID] than before (exactly one
      when there was none); [wisps] is as it was;
    - when [oldID] is a wisp, the same holds of [wisps] and the [wisp_*]
      relations, with the event in [wisp_events], and the issue-side
      relations are as they were. *)
Theorem C1_rename_cascade_amended :
  forall engine oldID newID issue actor now s s',
    oldID <> newID ->
    UpdateIssueID engine oldID newID issue actor now s = (Ok tt, s') ->
    (isActiveWisp s oldID = false ->
       rows_with_id oldID (issues (store s)) <> 0 /\
       unreferenced_in_issue_tables oldID (store s') /\
       unreferenced_in_wisp_tables oldID (store s') /\
       rows_with_id newID (issues (store s')) = 1 /\
       rename_events oldID newID (events (store s')) =
         S (rename_events oldID newID (events (store s))) /\
       wisps (store s') = wisps (store s)) /\
    (isActiveWisp s oldID = true ->
       Forall (fun r => id r <> oldID) (wisps (store s')) /\
       unreferenced_in_wisp_tables oldID (store s') /\
       rows_with_id newID (wisps (store s')) = 1 /\
       rename_events oldID newID (wisp_events (store s')) =
         S (rename_events oldID newID (wisp_events (store s))) /\
       issue_side_equal (store s') (store s)).
Proof.
  intros engine oldID newID issue actor now s s' Hne H.
  apply UpdateIssueID_Ok in H. destruct H as (t & n & Hn & _ & _ & H).
  split; intros Hw; rewrite Hw in H; destruct H as [Hup ->];
    destruct (update_primary_Ok _ _ _ _ _ _ _ Hne Hup Hn) as (Hold & Hnew & Hcnt).
  - split; [rewrite Hcnt; exact Hn|].
    split; [|split; [|split; [exact Hnew|split]]].
    + unfold unreferenced_in_issue_tables, issue_cascade; cbn.
      repeat split; try exact Hold;
        try (apply unreferenced_dependencies; exact Hne);
        try (apply unreferenced_events; exact Hne).
      * unfold update_lbl_issue_id. unreferenced_column Hne.
      * unfold update_cmt_issue_id. unreferenced_column Hne.
      * unfold update_snap_issue_id. unreferenced_column Hne.
      * unfold update_snap_issue_id. unreferenced_column Hne.
      * unfold update_cc_parent_id. unreferenced_column Hne.
    + unfold unreferenced_in_wisp_tables, issue_cascade; cbn.
      repeat split; try (apply unreferenced_dependencies; exact Hne).
      * unfold update_ev_issue_id. unreferenced_column Hne.
      * unfold update_lbl_issue_id. unreferenced_column Hne.
      * unfold update_cmt_issue_id. unreferenced_column Hne.
    + cbn. apply rename_events_cascade.
    + reflexivity.
  - split; [exact Hold|]. split; [|split; [exact Hnew|split]].
    + unfold unreferenced_in_wisp_tables, wisp_cascade; cbn.
      repeat split; try (apply unreferenced_dependencies; exact Hne);
        try (apply unreferenced_events; exact Hne).
      * unfold update_lbl_issue_id. unreferenced_column Hne.
      * unfold update_cmt_issue_id. unreferenced_column Hne.
    + cbn. apply rename_events_cascade.
    + unfold issue_side_equal. cbn. repeat split.
Qed.

(** ** The statements of the cascade leave the connection settings alone *)

Lemma quiet_refl s : quiet s s.
Proof.
  constructor; auto. exists []. rewrite app_nil_r. split; [reflexivity | constructor].
Qed.

Lemma quiet_trans s1 s2 s3 : quiet s1 s2 -> quiet s2 s3 -> quiet s1 s3.
Proof.
  intros [A1 B1 C1 (t1 & D1 & E1)] [A2 B2 C2 (t2 & D2 & E2)].
  constructor; try congruence; auto.
  exists (t1 ++ t2). split.
  - rewrite D2, D1, app_assoc. reflexivity.
  - apply Forall_app. split; assumption.
Qed.

Lemma Quiet_ret {A} (a : A) : Quiet (ret a).
Proof. intros s r s1 H. inversion H; subst. apply quiet_refl. Qed.

Lemma Quiet_fail {A} e : Quiet (@fail Session A e).
Proof. intros s r s1 H. inversion H; subst. apply quiet_refl. Qed.

Lemma Quiet_bind {A B} (c : Conn A) (k : A -> Conn B) :
  Quiet c -> (forall a, Quiet (k a)) -> Quiet (bind c k).
Proof.
  intros Hc Hk s r s1. unfold bind. destruct (c s) as [[a|e] s0] eqn:Hcs; intros H.
  - eapply quiet_trans; [eapply Hc; exact Hcs | eapply Hk; exact H].
  - inversion H; subst. eapply Hc; exact Hcs.
Qed.

Lemma Quiet_wrap {A} context (c : Conn A) : Quiet c -> Quiet (wrap context c).
Proof.
  intros Hc s r s1. unfold wrap. destruct (c s) as [[a|e] s0] eqn:Hcs; intros H;
    inversion H; subst; eapply Hc; exact Hcs.
Qed.

Lemma quiet_after s rq b fk db work :
  data_request (rq, b) -> fk = foreign_key_checks s -> db = store s ->
  work <> None -> quiet s (after s rq b fk db work).
Proof.
  intros Hrq -> -> Hwork. constructor; cbn; auto.
  exists [(rq, b)]. split; [reflexivity|]. constructor; [exact Hrq | constructor].
Qed.

Lemma Quiet_ExecContext engine q : is_SET q = false -> Quiet (ExecContext engine q).
Proof.
  intros Hq s r s1. unfold ExecContext.
  assert (Hlog : forall b, data_request (req_exec q, b)).
  { intros b. exists q. split; [reflexivity | exact Hq]. }
  destruct (tx s) as [work|] eqn:Htx.
  - destruct (engine (calls s)).
    + intros H; inversion H; subst. apply quiet_after; auto. congruence.
    + destruct (run_stmt q work) as [[work' n]|e]; intros H; inversion H; subst.
      * apply quiet_after; auto; [|discriminate].
        destruct q; try reflexivity; discriminate Hq.
      * apply quiet_after; auto. congruence.
  - intros H; inversion H; subst. apply quiet_refl.
Qed.

Ltac quiet_chain :=
  repeat first
    [ apply Quiet_ret | apply Quiet_fail
    | apply Quiet_wrap | apply Quiet_ExecContext; reflexivity
    | apply Quiet_bind; [| intros ?] ].

Lemma Quiet_updateIssueID engine oldID newID issue actor now :
  Quiet (updateIssueID engine oldID newID issue actor now).
Proof.
  unfold updateIssueID. apply Quiet_bind; [quiet_chain|].
  intros rows. destruct (Nat.eqb rows 0); quiet_chain.
Qed.

Lemma Quiet_updateWispID engine oldID newID issue actor now :
  Quiet (updateWispID engine oldID newID issue actor now).
Proof.
  unfold updateWispID. apply Quiet_bind; [quiet_chain|].
  intros rows. destruct (Nat.eqb rows 0); quiet_chain.
Qed.

Lemma data_request_not_SET (trace : list (Request * bool)) on b :
  Forall data_request trace -> ~ In (req_exec (SET_FOREIGN_KEY_CHECKS on), b) trace.
Proof.
  intros HF Hin. rewrite Forall_forall in HF. destruct (HF _ Hin) as (q & Hq & Hset).
  cbn in Hq. injection Hq as <-. discriminate Hset.
Qed.

Lemma data_request_not_commit (trace : list (Request * bool)) b :
  Forall data_request trace -> ~ In (req_commit, b) trace.
Proof.
  intros HF Hin. rewrite Forall_forall in HF. destruct (HF _ Hin) as (q & Hq & _).
  cbn in Hq. discriminate Hq.
Qed.

(** Closes a goal [~ In entry (tb ++ l)] for a trace [tb] of data statements
    and an explicit list [l] that does not hold [entry]. *)
Ltac not_in_trace Hno :=
  let H := fresh "H" in
  intros H; apply in_app_iff in H; destruct H as [H|H];
  [ exact (Hno _ H) || exact (Hno _ _ H)
  | cbn in H; repeat (destruct H as [H|H]; [discriminate H|]); exact H ].

Ltac exit_after_disable Hno1 Hnoc :=
  split; [reflexivity|]; try (split; [reflexivity|]);
  eexists; split; [cbn; reflexivity|];
  repeat split;
  [ rewrite ?in_app_iff; cbn; auto 10
  | try not_in_trace Hno1 .. ];
  try (intros ?; not_in_trace Hnoc).

(** The exits of [UpdateIssueID]: enforcement was never disabled (and
    nothing was committed); or it was disabled and a re-enabling statement
    was carried out afterwards; or it was disabled, the engine refused the
    re-enabling statement of the deferred call, no re-enabling statement was
    carried out and no commit was sent. *)
Lemma UpdateIssueID_exits engine oldID newID issue actor now s r s' :
  UpdateIssueID engine oldID newID issue actor now s = (r, s') ->
  exists trace,
    sent s' = sent s ++ trace /\
    (is_ok r = false -> store s' = store s) /\
    ( (foreign_key_checks s' = foreign_key_checks s /\ is_ok r = false /\
       ~ In (req_exec (SET_FOREIGN_KEY_CHECKS false), true) trace /\
       (forall b, ~ In (req_commit, b) trace))
    \/ (foreign_key_checks s' = true /\
        exists later,
          trace = (req_begin, true)
                  :: (req_exec (SET_FOREIGN_KEY_CHECKS false), true) :: later /\
          In (req_exec (SET_FOREIGN_KEY_CHECKS true), true) later)
    \/ (foreign_key_checks s' = false /\ is_ok r = false /\
        exists later,
          trace = (req_begin, true)
                  :: (req_exec (SET_FOREIGN_KEY_CHECKS false), true) :: later /\
          In (req_exec (SET_FOREIGN_KEY_CHECKS true), false) later /\
          ~ In (req_exec (SET_FOREIGN_KEY_CHECKS true), true) later /\
          (forall b, ~ In (req_commit, b) later)) ).
Proof.
  unfold UpdateIssueID, bind, wrap, defer, ignore, BeginTx, ExecContext, Commit,
    Rollback, after.
  cbn [tx calls store foreign_key_checks sent snd run_stmt].
  destruct (engine (calls s)) eqn:E0.
  { intros H; inversion H; subst; clear H. eexists. split; [reflexivity|].
    split; [reflexivity|]. left. repeat split.
    - cbn. intros [H|[]]. discriminate H.
    - intros b. cbn. intros [H|[]]. discriminate H. }
  cbn [tx calls store foreign_key_checks sent snd run_stmt].
  destruct (engine (S (calls s))) eqn:E1.
  { cbn [tx calls store foreign_key_checks sent snd run_stmt].
    destruct (engine (S (S (calls s)))); intros H; inversion H; subst; clear H;
      (eexists; split; [cbn; rewrite <- !app_assoc; reflexivity|];
       split; [reflexivity|]; left; repeat split;
       [ cbn; intros [H|[H|[H|[]]]]; discriminate H
       | intros b; cbn; intros [H|[H|[H|[]]]]; discriminate H ]). }
  cbn [tx calls store foreign_key_checks sent snd run_stmt].
  set (body := if isActiveWisp s oldID then _ else _).
  assert (Hbody : Quiet body).
  { subst body. destruct (isActiveWisp s oldID);
      [apply Quiet_updateWispID | apply Quiet_updateIssueID]. }
  match goal with |- context [body ?x] => set (s1 := x) end.
  destruct (body s1) as [rb s2] eqn:Hb.
  destruct (Hbody _ _ _ Hb) as [Hst Hfk Htx (tb & Hsent & Htb)].
  cbn in Hst, Hfk, Hsent.
  assert (Hopen : tx s2 <> None) by (apply Htx; discriminate).
  destruct (tx s2) as [w2|] eqn:Htx2; [clear Hopen|congruence].
  assert (Hno1 : forall b, ~ In (req_exec (SET_FOREIGN_KEY_CHECKS true), b) tb)
    by (intros b; apply data_request_not_SET; exact Htb).
  assert (Hnoc : forall b, ~ In (req_commit, b) tb)
    by (intros b; apply data_request_not_commit; exact Htb).
  destruct rb as [ub|eb].
  - (* the cascade went through: explicit re-enable, then commit *)
    destruct (engine (calls s2)) eqn:E2;
      cbn [tx calls store foreign_key_checks sent snd run_stmt]; rewrite ?Htx2;
      destruct (engine (S (calls s2)));
      cbn [tx calls store foreign_key_checks sent snd run_stmt];
      try destruct (engine (S (S (calls s2))));
      cbn [tx calls store foreign_key_checks sent snd run_stmt];
      intros H; inversion H; subst; clear H;
      (eexists; split; [cbn; rewrite Hsent; cbn; rewrite <- !app_assoc; reflexivity|];
       split; [try (intros _; cbn; exact Hst); try (cbn; discriminate)|]);
      cbn; rewrite ?Hfk;
      solve [ right; right; exit_after_disable Hno1 Hnoc
            | right; left; exit_after_disable Hno1 Hnoc ].
  - (* the cascade failed: the deferred call re-enables, then Rollback *)
    rewrite ?Htx2.
    destruct (engine (calls s2)); cbn [tx calls snd store foreign_key_checks sent];
      destruct (engine (S (calls s2))); intros H; inversion H; subst; clear H;
      (eexists; split; [cbn; rewrite Hsent; cbn; rewrite <- !app_assoc; reflexivity|];
       split; [intros _; cbn; exact Hst|]);
      cbn; rewrite ?Hfk;
      solve [ right; right; exit_after_disable Hno1 Hnoc
            | right; left; exit_after_disable Hno1 Hnoc ].
Qed.

Lemma trace_since_app s s' trace :
  sent s' = sent s ++ trace -> trace_since s s' = trace.
Proof.
  intros H. unfold trace_since. rewrite H, skipn_app, skipn_all, Nat.sub_diag.
  reflexivity.
Qed.

(** C2 (the code where it fails).  The comment in [UpdateIssueID] says the
    deferred statement is there to "ensure FK checks are re-enabled on the
    connection even if we return early on error", but its error is dropped
    and nothing follows it.  On the database of the rename tests, with
    enforcement on before the call: when the context is cancelled before the
    [UPDATE] of [labels], that statement fails, the deferred
    [SET FOREIGN_KEY_CHECKS = 1] fails as well, and the call returns the
    error of the [UPDATE] with enforcement off; and when the cascade goes
    through and the engine refuses the re-enabling statement and refuses it
    again when the deferred call sends it, the call returns that error, and
    again enforcement is off on the connection. *)
Theorem C2_enforcement_left_disabled :
  foreign_key_checks (connect test_database) = true /\
  fst (UpdateIssueID (cancelled_from 6) "test-old1" "test-new1" test_issue "test" 1
         (connect test_database)) = Err "failed to update labels: context canceled" /\
  skipn 6
    (sent (snd (UpdateIssueID (cancelled_from 6) "test-old1" "test-new1" test_issue
                  "test" 1 (connect test_database)))) =
    [(req_exec (UPDATE_ref labels_issue_id "test-new1" "test-old1"), false);
     (req_exec (SET_FOREIGN_KEY_CHECKS true), false);
     (req_rollback, false)] /\
  foreign_key_checks
    (snd (UpdateIssueID (cancelled_from 6) "test-old1" "test-new1" test_issue "test" 1
            (connect test_database))) = false /\
  fst (UpdateIssueID (refuses [17; 18]) "test-old1" "test-new1" test_issue "test" 1
         (connect test_database)) =
    Err "failed to re-enable foreign key checks: driver: bad connection" /\
  skipn 16
    (sent (snd (UpdateIssueID (refuses [17; 18]) "test-old1" "test-new1" test_issue
                  "test" 1 (connect test_database)))) =
    [(req_exec (INSERT_renamed tbl_events "test-new1" "test" "test-old1"), true);
     (req_exec (SET_FOREIGN_KEY_CHECKS true), false);
     (req_exec (SET_FOREIGN_KEY_CHECKS true), false);
     (req_rollback, true)] /\
  tx (snd (UpdateIssueID (refuses [17; 18]) "test-old1" "test-new1" test_issue "test" 1
             (connect test_database))) = None /\
  foreign_key_checks
    (snd (UpdateIssueID (refuses [17; 18]) "test-old1" "test-new1" test_issue "test" 1
            (connect test_database))) = false.
Proof.
  split; [reflexivity|].
  repeat (split; [vm_compute; reflexivity|]). vm_compute. reflexivity.
Qed.

Lemma sql_update_no_match {R} (where_ : R -> bool) set (t : list R) :
  rows_matched where_ t = 0 -> sql_update where_ set t = t.
Proof.
  unfold rows_matched, sql_update. induction t as [|r t IH]; simpl; [reflexivity|].
  destruct (where_ r); simpl; [discriminate|]. intros H. rewrite IH by exact H.
  reflexivity.
Qed.


(** ** Prefix renaming *)

Lemma sql_like_percent s : sql_like "%" s = true.
Proof.
  induction s as [|c s IH]; [reflexivity|].
  cbn in *. exact IH.
Qed.

Lemma sql_like_literal_prefix oldPrefix s :
  wildcard_free oldPrefix = true ->
  sql_like (CONCAT oldPrefix "%") s = String.prefix oldPrefix s.
Proof.
  unfold CONCAT, wildcard_free. revert s.
  induction oldPrefix as [|c p IH]; intros s Hfree.
  - rewrite sql_like_percent. destruct s; reflexivity.
  - cbn [list_ascii_of_string forallb] in Hfree.
    apply andb_true_iff in Hfree. destruct Hfree as [Hc Hp].
    unfold is_like_special in Hc. apply negb_true_iff in Hc.
    apply orb_false_iff in Hc. destruct Hc as [Hc Hbs].
    apply orb_false_iff in Hc. destruct Hc as [Hpc Hus].
    cbn [String.append sql_like]. rewrite Hpc, Hus, Hbs.
    destruct s as [|d s]; [reflexivity|].
    cbn [String.prefix]. rewrite IH by exact Hp.
    destruct (ascii_dec c d) as [->|Hne].
    + rewrite Ascii.eqb_refl. reflexivity.
    + destruct (Ascii.eqb_spec d c) as [->|_]; [congruence | reflexivity].
Qed.

Lemma rename_prefix_literal newPrefix oldPrefix rest :
  rename_prefix newPrefix oldPrefix (oldPrefix ++ rest)%string = (newPrefix ++ rest)%string.
Proof.
  unfold rename_prefix, CONCAT, SUBSTRING, LENGTH.
  rewrite Nat.add_sub. f_equal.
  induction oldPrefix as [|c p IH]; [reflexivity | exact IH].
Qed.

Lemma prefix_split p s :
  String.prefix p s = true -> exists rest, s = (p ++ rest)%string.
Proof.
  revert s. induction p as [|c p IH]; intros s H.
  - exists s. reflexivity.
  - destruct s as [|d s]; [discriminate|]. cbn in H.
    destruct (ascii_dec c d) as [->|]; [|discriminate].
    destruct (IH _ H) as [rest ->]. exists rest. reflexivity.
Qed.

(** With a prefix free of [%], [_] and backslash the two statements replace
    the prefix, and only the prefix, in both columns. *)
Lemma RenameDependencyPrefix_healthy oldPrefix newPrefix db :
  RenameDependencyPrefix healthy oldPrefix newPrefix (connect db) =
    (Ok tt,
     mkSession
       (with_dependencies
          (fun t => update_dep_prefix col_depends_on_id newPrefix oldPrefix
                      (update_dep_prefix col_issue_id newPrefix oldPrefix t)) db)
       true None 4
       [(req_begin, true);
        (req_exec (UPDATE_dependencies_prefix col_issue_id newPrefix oldPrefix), true);
        (req_exec (UPDATE_dependencies_prefix col_depends_on_id newPrefix oldPrefix), true);
        (req_commit, true)]).
Proof. reflexivity. Qed.

Lemma RenameDependencyPrefix_literal oldPrefix newPrefix db :
  wildcard_free oldPrefix = true ->
  fst (RenameDependencyPrefix healthy oldPrefix newPrefix (connect db)) = Ok tt /\
  dependencies (store (snd (RenameDependencyPrefix healthy oldPrefix newPrefix (connect db)))) =
    map (rename_dependency oldPrefix newPrefix) (dependencies db).
Proof.
  intros Hfree. rewrite RenameDependencyPrefix_healthy. split; [reflexivity|].
  cbn [snd store dependencies with_dependencies].
  unfold update_dep_prefix, sql_update. rewrite map_map. apply map_ext. intros d.
  rewrite (sql_like_literal_prefix _ (dep_issue_id d) Hfree).
  unfold rename_dependency, replace_prefix, rename_prefix, CONCAT, SUBSTRING, LENGTH.
  rewrite Nat.add_sub.
  destruct (String.prefix oldPrefix (dep_issue_id d));
    cbn [dep_depends_on_id dep_issue_id dep_type set_dep_issue_id set_dep_depends_on_id];
    fold (CONCAT oldPrefix "%");
    rewrite (sql_like_literal_prefix _ (dep_depends_on_id d) Hfree);
    destruct (String.prefix oldPrefix (dep_depends_on_id d)); destruct d; reflexivity.
Qed.

(** C9 (the code at the failing input).  Renaming the prefix [my_app-] to
    [app-] rewrites the dependency of [my-app-7], an id that does not start
    with [my_app-]: the [_] of the old prefix is read as a [LIKE] wildcard.
    Replacing the literal prefix would leave the row as it is. *)
Theorem C9_like_wildcard_rewrites_unrelated_row :
  String.prefix "my_app-" (dep_issue_id sample_dependency) = false /\
  fst (RenameDependencyPrefix healthy "my_app-" "app-" (connect sample_dependencies)) = Ok tt /\
  dependencies
    (store (snd (RenameDependencyPrefix healthy "my_app-" "app-"
                   (connect sample_dependencies)))) =
    [mkDependencyRow "app-7" "other-3" "blocks"] /\
  map (rename_dependency "my_app-" "app-") (dependencies sample_dependencies) =
    [sample_dependency].
Proof. repeat split. Qed.

(** ** Credential encryption *)

Lemma bytes_eqb_eq a b : bytes_eqb a b = true <-> a = b.
Proof.
  revert b. induction a as [|x a IH]; destruct b as [|y b]; cbn; split;
    try congruence; try reflexivity.
  - intros H. apply andb_true_iff in H. destruct H as [Hxy Hab].
    apply Byte.byte_dec_bl in Hxy. apply IH in Hab. congruence.
  - intros H. injection H as -> ->. apply andb_true_iff. split.
    + apply Byte.byte_dec_lb. reflexivity.
    + apply IH. reflexivity.
Qed.

(** The example instance obeys the law of the interface. *)
Lemma keyed_box_seal_open : SealOpen keyed_box.
Proof.
  constructor. intros key nonce plaintext _ _. cbn.
  rewrite firstn_app, Nat.sub_diag, firstn_all, firstn_O, app_nil_r.
  rewrite (proj2 (bytes_eqb_eq key key) eq_refl).
  rewrite skipn_app, skipn_all, Nat.sub_diag. reflexivity.
Qed.

(** *** Counting keys and sealed texts *)











Lemma aes_key_size_ok_length key :
  aes_key_size_ok key = true -> 16 <= List.length key.
Proof.
  unfold aes_key_size_ok. intros H.
  apply orb_true_iff in H. destruct H as [H|H];
    [apply orb_true_iff in H; destruct H as [H|H]|]; apply Nat.eqb_eq in H; lia.
Qed.

(** The second instance obeys both laws of the interface. *)
Lemma tagged_box_seal_open : SealOpen tagged_box.
Proof.
  constructor. intros key nonce plaintext Hk _. cbn [gcm_Open gcm_Seal tagged_box].
  apply aes_key_size_ok_length in Hk.
  assert (Hlen : List.length (plaintext ++ firstn TagSize key) - TagSize =
                 List.length plaintext).
  { rewrite length_app, length_firstn. unfold TagSize. lia. }
  rewrite Hlen, skipn_app, skipn_all, Nat.sub_diag, firstn_app, firstn_all,
    Nat.sub_diag, firstn_O, app_nil_r.
  cbn [skipn app].
  rewrite (proj2 (bytes_eqb_eq (firstn TagSize key) (firstn TagSize key)) eq_refl).
  reflexivity.
Qed.

Lemma tagged_box_tagged : Tagged tagged_box.
Proof.
  constructor. intros key nonce plaintext Hk _. cbn [gcm_Seal tagged_box].
  apply aes_key_size_ok_length in Hk.
  rewrite length_app, length_firstn. unfold TagSize. lia.
Qed.

Section CryptoFacts.

Context {P : Primitives} {L : SealOpen P}.

Lemma encryptWithKey_Ok source plaintext key encrypted :
  encryptWithKey source plaintext key = Ok encrypted ->
  aes_key_size_ok key = true /\
  exists nonce, source = Some nonce /\ List.length nonce = NonceSize /\
    encrypted = nonce ++ gcm_Seal key nonce (list_byte_of_string plaintext).
Proof.
  unfold encryptWithKey, ReadFull.
  destruct (aes_key_size_ok key); cbn [negb]; [|discriminate].
  destruct source as [nonce|]; [|discriminate].
  destruct (Nat.eqb (List.length nonce) NonceSize) eqn:E; [|discriminate].
  intros H. injection H as <-. apply Nat.eqb_eq in E.
  split; [reflexivity|]. exists nonce. repeat split. exact E.
Qed.

Lemma decryptWithKey_sealed key key' nonce plaintext :
  aes_key_size_ok key' = true -> List.length nonce = NonceSize ->
  decryptWithKey (nonce ++ gcm_Seal key nonce plaintext) key' =
    match gcm_Open key' nonce (gcm_Seal key nonce plaintext) with
    | None => Err "cipher: message authentication failed"
    | Some p => Ok (string_of_list_byte p)
    end.
Proof.
  intros Hk Hn. unfold decryptWithKey. rewrite Hk. cbn [negb].
  rewrite length_app, Hn.
  assert (E : Nat.ltb (NonceSize + List.length (gcm_Seal key nonce plaintext)) NonceSize = false)
    by (apply Nat.ltb_ge; lia).
  rewrite E, <- Hn, firstn_app, Nat.sub_diag, firstn_all, firstn_O, app_nil_r.
  rewrite skipn_app, skipn_all, Nat.sub_diag. reflexivity.
Qed.

Lemma decrypt_encrypt_roundtrip source plaintext key encrypted :
  encryptWithKey source plaintext key = Ok encrypted ->
  decryptWithKey encrypted key = Ok plaintext.
Proof.
  intros H. apply encryptWithKey_Ok in H.
  destruct H as (Hk & nonce & _ & Hn & ->).
  rewrite decryptWithKey_sealed, gcm_Open_Seal by assumption.
  rewrite string_of_list_byte_of_string. reflexivity.
Qed.

Lemma key_32_ok key : List.length key = 32 -> aes_key_size_ok key = true.
Proof. intros H. unfold aes_key_size_ok. rewrite H. reflexivity. Qed.



End CryptoFacts.



(** The same at the second example cipher, with the keys at hand: a key that
    differs from [sample_key] in its last 16 bytes opens what [sample_key]
    sealed. *)
Example tagged_box_another_key_opens :
  repeat x2a 16 ++ repeat x00 16 <> sample_key /\
  decryptWithKey (P := tagged_box)
    (sample_nonce ++ gcm_Seal (Primitives := tagged_box) sample_key sample_nonce
                       (list_byte_of_string "s3cret"))
    (repeat x2a 16 ++ repeat x00 16) = Ok "s3cret".
Proof. split; [discriminate | reflexivity]. Qed.

(** ** Matching by derivatives *)

Lemma MatchString_none s : MatchString re_none s = false.
Proof. induction s as [|c s IH]; [reflexivity | exact IH]. Qed.

Lemma MatchString_alt r1 r2 s :
  MatchString (re_alt r1 r2) s = MatchString r1 s || MatchString r2 s.
Proof.
  revert r1 r2. induction s as [|c s IH]; intros r1 r2; [reflexivity|].
  cbn [MatchString deriv]. apply IH.
Qed.

Lemma MatchString_seq_none r s : MatchString (re_seq re_none r) s = false.
Proof. induction s as [|c s IH]; [reflexivity | exact IH]. Qed.

Lemma MatchString_seq_empty r s : MatchString (re_seq re_empty r) s = MatchString r s.
Proof.
  destruct s as [|c s]; [reflexivity|].
  cbn [MatchString deriv nullable]. rewrite MatchString_alt, MatchString_seq_none.
  reflexivity.
Qed.

Lemma MatchString_star_class p s :
  MatchString (re_star (re_class p)) s = forallb p (list_ascii_of_string s).
Proof.
  induction s as [|c s IH]; [reflexivity|].
  cbn [MatchString deriv list_ascii_of_string forallb].
  destruct (p c); cbn [andb].
  - rewrite MatchString_seq_empty. exact IH.
  - apply MatchString_seq_none.
Qed.

Lemma validPeerNameRegex_shape name :
  MatchString validPeerNameRegex name = peer_name_shape name.
Proof.
  destruct name as [|c rest]; [reflexivity|].
  unfold validPeerNameRegex. cbn [MatchString deriv nullable peer_name_shape].
  destruct (is_letter c); cbn [andb].
  - rewrite MatchString_seq_empty. apply MatchString_star_class.
  - apply MatchString_seq_none.
Qed.

Lemma validatePeerName_None name :
  validatePeerName name = None <->
  name <> "" /\ String.length name <= 64 /\ peer_name_shape name = true.
Proof.
  unfold validatePeerName. rewrite validPeerNameRegex_shape.
  destruct (String.eqb_spec name "") as [->|Hne].
  - split; [discriminate | intros [H _]; congruence].
  - destruct (Nat.ltb_spec 64 (String.length name)) as [Hlong|Hshort].
    + split; [discriminate | intros (_ & H & _); lia].
    + destruct (peer_name_shape name); cbn [negb].
      * split; [intros _; repeat split; assumption | reflexivity].
      * split; [discriminate | intros (_ & _ & H); discriminate].
Qed.

(** ** Federation peers *)

Lemma find_upsert_peer name url user pwd sov now t :
  exists row,
    find (fun r => peer_name r =? name) (upsert_peer name url user pwd sov now t) = Some row /\
    peer_name row = name /\ remote_url row = url /\ username row = Some user /\
    password_encrypted row = pwd /\ sovereignty row = sov /\ peer_updated_at row = now.
Proof.
  unfold upsert_peer.
  destruct (existsb (fun r => peer_name r =? name) t) eqn:Hex.
  - induction t as [|r t IH]; [discriminate|].
    cbn [existsb] in Hex. unfold sql_update. cbn [map find].
    destruct (peer_name r =? name) eqn:Hr.
    + cbn [peer_name]. rewrite Hr. eexists. split; [reflexivity|].
      cbn. apply String.eqb_eq in Hr. repeat split; auto.
    + rewrite Hr. cbn [orb] in Hex. apply IH. exact Hex.
  - unfold insert_row. induction t as [|r t IH].
    + cbn. rewrite String.eqb_refl. eexists. split; [reflexivity|]. cbn. repeat split.
    + cbn [existsb] in Hex. apply orb_false_iff in Hex. destruct Hex as [Hr Hex].
      cbn [app find]. rewrite Hr. apply IH. exact Hex.
Qed.

Section FederationFacts.

Context {P : Primitives} {R : RemoteAPI}.
Variable engine : Engine.
Variable entropy : nat -> option (list byte).

(** Encrypting at the store gives what [encryptPassword] gives and touches
    nothing but the count of reads. *)
Lemma store_encryptPassword_run password (s : DoltStore R) :
  exists s1,
    store_encryptPassword entropy password s =
      (encryptPassword (credentialKey s) (entropy (reads s)) password, s1) /\
    (s1 = s \/ s1 = next_read s).
Proof.
  unfold store_encryptPassword, store_encryptWithKey, encryptPassword.
  destruct (password =? ""); [eauto|].
  destruct (credentialKey s) as [key|]; [|eauto].
  destruct (aes_key_size_ok key); eauto.
Qed.

(** C7 (as amended).  [validatePeerName] rejects a name exactly when it is
    empty, longer than 64 bytes or not of the shape letter, then letters,
    digits, [_] and [-]; [AddFederationPeer] then returns the error
    "invalid peer name: ..." and leaves the store as it was (no row, no
    remote); for a well-formed name no error it returns is a validation
    error; and for a well-formed name the row is upserted provided the
    password encrypts (it is empty, or the credential key is there and the
    nonce is drawn) and the engine carries out the statement. *)
Theorem C7_peer_name_validation :
  forall (peer : FederationPeer) (now : nat) (s : DoltStore R),
    (validatePeerName (Name peer) <> None <->
       Name peer = "" \/ 64 < String.length (Name peer) \/
       peer_name_shape (Name peer) = false) /\
    (forall e, validatePeerName (Name peer) = Some e ->
       AddFederationPeer engine entropy peer now s =
         (Err (Errorf "invalid peer name" e), s)) /\
    (validatePeerName (Name peer) = None ->
       forall e, fst (AddFederationPeer engine entropy peer now s) = Err e ->
         String.prefix "invalid peer name" e = false) /\
    (validatePeerName (Name peer) = None ->
       forall encryptedPwd,
         (if Password peer =? ""
          then encryptedPwd = None /\ engine (requests s) = None
          else exists pwd,
            encryptPassword (credentialKey s) (entropy (reads s)) (Password peer) = Ok pwd /\
            encryptedPwd = Some pwd /\ engine (requests s) = None) ->
         federation_peers (snd (AddFederationPeer engine entropy peer now s)) =
           upsert_peer (Name peer) (RemoteURL peer) (Username peer) encryptedPwd
             (Sovereignty peer) now (federation_peers s) /\
         exists row,
           find (fun r => peer_name r =? Name peer)
             (federation_peers (snd (AddFederationPeer engine entropy peer now s))) = Some row /\
           remote_url row = RemoteURL peer /\ username row = Some (Username peer) /\
           password_encrypted row = encryptedPwd /\ sovereignty row = Sovereignty peer).
Proof.
  intros peer now s. split; [|split; [|split]].
  - split.
    + intros Hbad. destruct (String.eqb_spec (Name peer) "") as [|Hne]; [auto|].
      destruct (Nat.ltb_spec 64 (String.length (Name peer))) as [|Hlen]; [auto|].
      destruct (peer_name_shape (Name peer)) eqn:Hshape; [|auto].
      exfalso. apply Hbad. apply validatePeerName_None. auto.
    + intros Hbad Hnone. apply validatePeerName_None in Hnone.
      destruct Hnone as (Hne & Hlen & Hshape).
      destruct Hbad as [H|[H|H]]; [congruence | lia | congruence].
  - intros e He. unfold AddFederationPeer. rewrite He. reflexivity.
  - intros Hvalid e. unfold AddFederationPeer. rewrite Hvalid.
    unfold bind, wrap, ret, execContext.
    destruct (Password peer =? ""); cbn [negb].
    + destruct (engine (requests s)); cbn [fst].
      * intros H; injection H as <-. reflexivity.
      * cbn [remotes with_peers next_request].
        destruct (AddRemote _ _ _) as [[err|] r]; [|discriminate].
        destruct (Contains err "already exists"); cbn [negb fst]; [discriminate|].
        intros H; injection H as <-. reflexivity.
    + destruct (store_encryptPassword_run (Password peer) s) as (s1 & -> & Hs1).
      destruct (encryptPassword _ _ _) as [pwd|err]; cbn [fst].
      * assert (Hreq : requests s1 = requests s) by (destruct Hs1; subst; reflexivity).
        rewrite Hreq. destruct (engine (requests s)); cbn [fst].
        -- intros H; injection H as <-. reflexivity.
        -- cbn [remotes with_peers next_request].
           destruct (AddRemote _ _ _) as [[err|] r]; [|discriminate].
           destruct (Contains err "already exists"); cbn [negb fst]; [discriminate|].
           intros H; injection H as <-. reflexivity.
      * intros H; injection H as <-. reflexivity.
  - intros Hvalid encryptedPwd Hrun.
    assert (Hpeers :
      federation_peers (snd (AddFederationPeer engine entropy peer now s)) =
      upsert_peer (Name peer) (RemoteURL peer) (Username peer) encryptedPwd
        (Sovereignty peer) now (federation_peers s)).
    { unfold AddFederationPeer. rewrite Hvalid.
      unfold bind, wrap, ret, execContext.
      destruct (Password peer =? ""); cbn [negb].
      - destruct Hrun as [-> Heng]. rewrite Heng.
        cbn [remotes with_peers next_request].
        destruct (AddRemote _ _ _) as [[err|] r];
          [destruct (Contains err "already exists")|]; reflexivity.
      - destruct Hrun as (pwd & Henc & -> & Heng).
        destruct (store_encryptPassword_run (Password peer) s) as (s1 & -> & Hs1).
        rewrite Henc.
        assert (Hreq : requests s1 = requests s) by (destruct Hs1; subst; reflexivity).
        assert (Hpeers1 : federation_peers s1 = federation_peers s)
          by (destruct Hs1; subst; reflexivity).
        rewrite Hreq, Heng. cbn [remotes with_peers next_request].
        destruct (AddRemote _ _ _) as [[err|] r];
          [destruct (Contains err "already exists")|]; cbn; rewrite Hpeers1; reflexivity. }
    split; [exact Hpeers|]. rewrite Hpeers.
    destruct (find_upsert_peer (Name peer) (RemoteURL peer) (Username peer)
                encryptedPwd (Sovereignty peer) now (federation_peers s))
      as (row & Hfind & _ & Hurl & Huser & Hpwd & Hsov & _).
    exists row. repeat split; assumption.
Qed.




Lemma Getenv_Unsetenv key env : Getenv key (Unsetenv key env) = None.
Proof.
  unfold Getenv, Unsetenv. induction env as [|[k v] env IH]; [reflexivity|].
  cbn [filter fst]. destruct (k =? key) eqn:Hk; cbn [negb]; [exact IH|].
  cbn [find fst]. rewrite Hk. exact IH.
Qed.

Lemma Getenv_Unsetenv_other key key' env :
  key' <> key -> Getenv key (Unsetenv key' env) = Getenv key env.
Proof.
  intros Hne. unfold Getenv, Unsetenv. induction env as [|[k v] env IH]; [reflexivity|].
  cbn [filter fst find]. destruct (String.eqb_spec k key') as [->|Hk]; cbn [negb].
  - apply String.eqb_neq in Hne. rewrite Hne. exact IH.
  - cbn [find fst]. destruct (k =? key); [reflexivity | exact IH].
Qed.

Lemma cleanup_unsets (env : list (string * string)) :
  Getenv "DOLT_REMOTE_USER"
    (Unsetenv "DOLT_REMOTE_PASSWORD" (Unsetenv "DOLT_REMOTE_USER" env)) = None /\
  Getenv "DOLT_REMOTE_PASSWORD"
    (Unsetenv "DOLT_REMOTE_PASSWORD" (Unsetenv "DOLT_REMOTE_USER" env)) = None.
Proof.
  split.
  - rewrite Getenv_Unsetenv_other by discriminate. apply Getenv_Unsetenv.
  - apply Getenv_Unsetenv.
Qed.

(** When the peer lookup fails, [withPeerCredentials] returns that error
    without calling [fn]. *)
Lemma withPeerCredentials_lookup_fails peerName
  (fn : DoltStore R -> outcome * DoltStore R) now (s : DoltStore R) e s0 :
  GetFederationPeer engine peerName s = (Err e, s0) ->
  withPeerCredentials engine peerName fn now s =
    (Returned (Some (Errorf "failed to get peer credentials" e)), s0).
Proof. intros Hget. unfold withPeerCredentials. rewrite Hget. reflexivity. Qed.

Lemma sql_update_Forall2 {A} (where_ : A -> bool) (set : A -> A) (t : list A) :
  Forall2 (fun r r' => r' = if where_ r then set r else r) t (sql_update where_ set t).
Proof.
  unfold sql_update. induction t as [|r t IH]; cbn [map]; constructor; auto.
Qed.

Lemma update_last_sync_rows peerName now (t : list PeerRow) :
  Forall2 (synced_row peerName now) t (update_last_sync peerName now t).
Proof.
  unfold update_last_sync.
  eapply Forall2_impl; [|apply sql_update_Forall2]. cbn beta.
  intros r r' ->. unfold synced_row.
  destruct (peer_name r =? peerName); [|reflexivity]. cbn. repeat split.
Qed.

(** C6 (as amended).  For a stored peer, whether [fn] returns [nil], returns
    an error or panics: the caller gets what [fn] gave; the mutex is
    released; if credentials were set, DOLT_REMOTE_USER and
    DOLT_REMOTE_PASSWORD are unset afterwards; the [last_sync] statement is
    sent exactly when [fn] returned [nil]; when the engine carries it out,
    the row of the peer holds the time of the call as its [last_sync], its
    other columns and the other rows as [fn] left them; when the engine
    refuses it, the error is dropped and [last_sync] stays as it was; and
    when [fn] returns an error or panics the peers relation is as [fn] left
    it. *)
Theorem C6_withPeerCredentials_amended :
  forall (peerName : string) (fn : DoltStore R -> outcome * DoltStore R)
         (now : nat) (s : DoltStore R) (peer : FederationPeer) (s0 : DoltStore R),
    GetFederationPeer engine peerName s = (Ok peer, s0) ->
    let out := fst (fn (callback_state peer s0)) in
    let s2 := snd (fn (callback_state peer s0)) in
    let s3 := snd (withPeerCredentials engine peerName fn now s) in
    fst (withPeerCredentials engine peerName fn now s) = out /\
    federationEnvMutex s3 = false /\
    (has_credentials peer = true ->
       Getenv "DOLT_REMOTE_USER" (environ s3) = None /\
       Getenv "DOLT_REMOTE_PASSWORD" (environ s3) = None) /\
    (has_credentials peer = false -> environ s3 = environ s2) /\
    (out = Returned None ->
       requests s3 = S (requests s2) /\
       (engine (requests s2) = None ->
          Forall2 (synced_row peerName now) (federation_peers s2) (federation_peers s3)) /\
       (engine (requests s2) <> None -> federation_peers s3 = federation_peers s2)) /\
    (out <> Returned None ->
       requests s3 = requests s2 /\ federation_peers s3 = federation_peers s2).
Proof.
  intros peerName fn now s peer s0 Hget. cbv zeta.
  unfold withPeerCredentials, callback_state. rewrite Hget.
  fold (has_credentials peer).
  destruct (has_credentials peer) eqn:Hc.
  + destruct (setFederationCredentials (Username peer) (Password peer)
                (with_mutex true s0)) as [deferred s1] eqn:Hset.
    assert (Hdef : deferred = fun s' =>
              with_environ (Unsetenv "DOLT_REMOTE_PASSWORD")
                (with_environ (Unsetenv "DOLT_REMOTE_USER") s')).
    { unfold setFederationCredentials in Hset. injection Hset as <- _. reflexivity. }
    cbn [snd]. subst deferred.
    destruct (fn s1) as [[[e|]|v] s2] eqn:Hfn; cbn [fst snd].
    * repeat split; try reflexivity; try discriminate;
        try (cbn; apply cleanup_unsets); intros H; discriminate H.
    * unfold updatePeerLastSync, wrap, execContext.
      destruct (engine (requests s2)) eqn:Heng; cbn [snd];
        repeat split; try reflexivity; try discriminate; try congruence;
        try (cbn; apply cleanup_unsets);
        try (intros _; cbn; apply update_last_sync_rows);
        intros H; contradiction.
    * repeat split; try reflexivity; try discriminate;
        try (cbn; apply cleanup_unsets); intros H; discriminate H.
  + destruct (fn (with_mutex true s0)) as [[[e|]|v] s2] eqn:Hfn; cbn [fst snd].
    * repeat split; try reflexivity; try discriminate; intros H; discriminate H.
    * unfold updatePeerLastSync, wrap, execContext.
      destruct (engine (requests s2)) eqn:Heng; cbn [snd];
        repeat split; try reflexivity; try discriminate; try congruence;
        try (intros _; cbn; apply update_last_sync_rows);
        intros H; contradiction.
    * repeat split; try reflexivity; try discriminate; intros H; discriminate H.
Qed.

End FederationFacts.

(** ** Credential migration *)

Lemma Forall2_same {A} (Rel : A -> A -> Prop) (l : list A) :
  (forall a, Rel a a) -> Forall2 Rel l l.
Proof. intros H. induction l; constructor; auto. Qed.

Lemma Forall2_map_left {A B C} (f : A -> B) (Rel : B -> C -> Prop) l l' :
  Forall2 Rel (map f l) l' -> Forall2 (fun a c => Rel (f a) c) l l'.
Proof.
  revert l'. induction l as [|a l IH]; intros l' H; inversion H; subst; constructor; auto.
Qed.

Lemma Forall2_impl_In {A B} (Rel Rel' : A -> B -> Prop) l l' :
  Forall2 Rel l l' ->
  (forall a b, In a l -> Rel a b -> Rel' a b) ->
  Forall2 Rel' l l'.
Proof.
  intros H. induction H as [|a b l l' Hab _ IH]; intros Himp; constructor.
  - apply Himp; [left; reflexivity | exact Hab].
  - apply IH. intros a' b' Hin. apply Himp. right. exact Hin.
Qed.

Lemma pk_unique_cons x ids :
  pk_unique (x :: ids) = true <-> ~ In x ids /\ pk_unique ids = true.
Proof.
  cbn [pk_unique]. rewrite andb_true_iff, negb_true_iff. split.
  - intros [Hx Hids]. split; [|exact Hids]. intros Hin.
    assert (E : existsb (String.eqb x) ids = true).
    { apply existsb_exists. exists x. split; [exact Hin | apply String.eqb_refl]. }
    congruence.
  - intros [Hx Hids]. split; [|exact Hids].
    destruct (existsb (String.eqb x) ids) eqn:E; [|reflexivity].
    apply existsb_exists in E. destruct E as (y & Hy & Hxy).
    apply String.eqb_eq in Hxy. subst y. contradiction.
Qed.

Section MigrationFacts.

Context {P : Primitives} {L : SealOpen P} {R : RemoteAPI}.
Variable engine : Engine.
Variable entropy : nat -> option (list byte).

Lemma reencrypt_Ok newKey toMigrate :
  forall s u s',
    reencrypt engine entropy newKey toMigrate s = (Ok u, s') ->
    pk_unique (map entry_name toMigrate) = true ->
    Forall2 (fun r r' =>
               match entry_for toMigrate r with
               | Some e => reencrypted newKey (entry_plaintext e) r r'
               | None => r' = r
               end)
      (federation_peers s) (federation_peers s').
Proof.
  induction toMigrate as [|e rest IH]; intros s u s' Hrun Hpk.
  - inversion Hrun; subst. apply Forall2_same. reflexivity.
  - cbn [reencrypt] in Hrun.
    apply bind_Ok in Hrun. destruct Hrun as (encrypted & s1 & Henc & Hrun).
    apply wrap_Ok in Henc. unfold store_encryptWithKey in Henc.
    injection Henc as Henc <-.
    rewrite (proj1 (encryptWithKey_Ok _ _ _ _ Henc)) in Hrun.
    apply bind_Ok in Hrun. destruct Hrun as (u1 & s2 & Hupd & Hrun).
    apply wrap_Ok in Hupd. unfold execContext in Hupd.
    cbn [requests next_read] in Hupd.
    destruct (engine (requests s)); [discriminate|]. injection Hupd as _ <-.
    cbn [map] in Hpk. apply pk_unique_cons in Hpk. destruct Hpk as [Hfresh Hpk].
    specialize (IH _ _ _ Hrun Hpk). cbn in IH.
    unfold update_password, sql_update in IH. apply Forall2_map_left in IH.
    assert (Hround := decrypt_encrypt_roundtrip _ _ _ _ Henc).
    apply encryptWithKey_Ok in Henc. destruct Henc as (_ & nonce & _ & Hn & ->).
    eapply Forall2_impl; [|exact IH]. cbn beta.
    intros r r' Hrr'. unfold entry_for in *. cbn [find].
    rewrite (String.eqb_sym (entry_name e) (peer_name r)).
    destruct (peer_name r =? entry_name e) eqn:Hname.
    + apply String.eqb_eq in Hname.
      assert (Hnone : find (fun e0 => entry_name e0 =? peer_name r) rest = None).
      { destruct (find (fun e0 => entry_name e0 =? peer_name r) rest)
          as [e0|] eqn:Hf; [|reflexivity]. exfalso.
        apply find_some in Hf. destruct Hf as [Hin He0].
        apply String.eqb_eq in He0. apply Hfresh.
        rewrite <- Hname, <- He0. apply in_map. exact Hin. }
      change (find (fun e0 => entry_name e0 =? peer_name r) rest)
        with (find (fun e0 => entry_name e0 =?
                      peer_name (set_password
                        (nonce ++ gcm_Seal newKey nonce
                           (list_byte_of_string (entry_plaintext e))) r)) rest)
        in Hnone.
      rewrite Hnone in Hrr'. subst r'.
      exists nonce. cbn [password_encrypted set_password peer_name remote_url username
                           sovereignty last_sync created_at peer_updated_at].
      repeat split; assumption.
    + exact Hrr'.
Qed.

(** A row sealed afresh is the row with its password replaced. *)
Lemma reencrypted_set_password newKey plaintext r r' :
  reencrypted newKey plaintext r r' ->
  exists nonce,
    List.length nonce = NonceSize /\
    r' = set_password
           (nonce ++ gcm_Seal newKey nonce (list_byte_of_string plaintext)) r /\
    decryptWithKey (nonce ++ gcm_Seal newKey nonce (list_byte_of_string plaintext))
      newKey = Ok plaintext.
Proof.
  intros (nonce & Hn & Hpwd & Hdec & Hname & Hurl & Huser & Hsov & Hsync & Hc & Hu).
  exists nonce. split; [exact Hn|]. split; [|exact Hdec].
  destruct r'. cbn in *. unfold set_password. congruence.
Qed.

Lemma decryptable_app oldKey rows rows' :
  decryptable oldKey (rows ++ rows') =
  decryptable oldKey rows ++ decryptable oldKey rows'.
Proof.
  induction rows as [|[name encrypted] rows IH]; [reflexivity|].
  cbn [app decryptable]. destruct (decryptWithKey encrypted oldKey); rewrite IH; reflexivity.
Qed.

Lemma decryptable_select path t :
  decryptable (legacyEncryptionKey path) (select_encrypted t) =
  flat_map (entry_of path) t.
Proof.
  induction t as [|r t IH]; [reflexivity|].
  cbn [select_encrypted flat_map]. rewrite decryptable_app.
  fold (select_encrypted t). rewrite IH. f_equal.
  unfold entry_of, legacy_plaintext, legacyEncryptionKey.
  destruct (password_encrypted r) as [encrypted|]; [|reflexivity].
  destruct (Nat.ltb 0 (List.length encrypted)); [|reflexivity].
  cbn [decryptable]. destruct (decryptWithKey encrypted _); reflexivity.
Qed.

Lemma entry_names_are_peer_names path t x :
  In x (map entry_name (flat_map (entry_of path) t)) -> In x (map peer_name t).
Proof.
  induction t as [|r t IH]; [auto|].
  cbn [flat_map map]. rewrite map_app, in_app_iff. intros [H|H].
  - left. unfold entry_of in H. destruct (legacy_plaintext path r); cbn in H.
    + destruct H as [H|[]]. exact H.
    + contradiction.
  - right. apply IH. exact H.
Qed.

Lemma entries_unique path t :
  pk_unique (map peer_name t) = true ->
  pk_unique (map entry_name (flat_map (entry_of path) t)) = true.
Proof.
  induction t as [|r t IH]; [reflexivity|].
  cbn [map flat_map]. intros Hpk. apply pk_unique_cons in Hpk.
  destruct Hpk as [Hfresh Hpk]. specialize (IH Hpk).
  unfold entry_of at 1. destruct (legacy_plaintext path r); cbn [app map]; [|exact IH].
  apply pk_unique_cons. split; [|exact IH].
  cbn [entry_name]. intros Hin. apply Hfresh.
  eapply entry_names_are_peer_names. exact Hin.
Qed.

Lemma entry_for_absent path t r :
  ~ In (peer_name r) (map peer_name t) ->
  entry_for (flat_map (entry_of path) t) r = None.
Proof.
  intros Hfresh. unfold entry_for.
  destruct (find _ _) as [e|] eqn:Hf; [|reflexivity]. exfalso.
  apply find_some in Hf. destruct Hf as [Hin He]. apply String.eqb_eq in He.
  apply Hfresh. rewrite <- He. eapply entry_names_are_peer_names.
  apply in_map. exact Hin.
Qed.

Lemma entry_for_row path t r :
  pk_unique (map peer_name t) = true -> In r t ->
  match entry_for (flat_map (entry_of path) t) r with
  | Some e => legacy_plaintext path r = Some (entry_plaintext e)
  | None => legacy_plaintext path r = None
  end.
Proof.
  induction t as [|r0 t IH]; [contradiction|].
  cbn [map flat_map]. intros Hpk Hin. apply pk_unique_cons in Hpk.
  destruct Hpk as [Hfresh Hpk]. destruct Hin as [->|Hin].
  - unfold entry_of at 1. destruct (legacy_plaintext path r) as [plaintext|] eqn:Hleg.
    + unfold entry_for. cbn [app find entry_name]. rewrite String.eqb_refl. reflexivity.
    + cbn [app]. rewrite (entry_for_absent path t r Hfresh). reflexivity.
  - assert (Hne : peer_name r0 <> peer_name r).
    { intros E. apply Hfresh. rewrite E. apply in_map. exact Hin. }
    unfold entry_of at 1. destruct (legacy_plaintext path r0); cbn [app].
    + unfold entry_for. cbn [find entry_name].
      apply String.eqb_neq in Hne. rewrite Hne. apply IH; assumption.
    + apply IH; assumption.
Qed.




End MigrationFacts.

(** ** Identifier classifier *)

Lemma has_lower_letter_nonempty leaf : has_lower_letter leaf = true -> leaf <> "".
Proof. intros H ->. discriminate H. Qed.

(** C8 (as amended).  The classifier agrees with every row of the table of
    [TestIsHashID], and it reports hash-based exactly when the identifier has
    a leaf that is all lowercase alphanumeric and either has five characters
    or more (digits alone will do), or has fewer and holds a lowercase
    letter. *)
Theorem C8_isHashID_classification :
  Forall (fun row => isHashID (snd (fst row)) = snd row) TestIsHashID /\
  (forall ident,
     isHashID ident = true <->
     exists leaf,
       leaf_of ident = Some leaf /\ all_lower_alnum leaf = true /\
       (5 <= String.length leaf \/
        (String.length leaf < 5 /\ has_lower_letter leaf = true))).
Proof.
  split.
  - unfold TestIsHashID. repeat constructor.
  - intros ident. unfold isHashID. destruct (leaf_of ident) as [leaf|].
    + split.
      * intros H. apply andb_true_iff in H. destruct H as [H Hkind].
        apply andb_true_iff in H. destruct H as [Hne Hall].
        exists leaf. repeat split; [exact Hall|].
        apply orb_true_iff in Hkind. destruct Hkind as [Hlong|Hletter].
        -- left. apply Nat.leb_le. exact Hlong.
        -- destruct (Nat.le_gt_cases 5 (String.length leaf)); [left; assumption|].
           right. split; assumption.
      * intros (leaf' & Hleaf & Hall & Hkind). injection Hleaf as <-.
        rewrite Hall. rewrite andb_true_r.
        destruct Hkind as [Hlong|[_ Hletter]].
        -- apply Nat.leb_le in Hlong. rewrite Hlong.
           destruct leaf; [cbn in Hlong; discriminate | reflexivity].
        -- rewrite Hletter, orb_true_r, andb_true_r.
           destruct leaf; [discriminate Hletter | reflexivity].
    + split; [discriminate|]. intros (leaf & Hleaf & _). discriminate Hleaf.
Qed.

(** C8 (counterexample).  The table of [TestIsHashID] expects [bd-12345] to be
    hash-based; its leaf has five characters and no letter, so the classifier
    as section 4.1 words it says no. *)
Lemma C8_counterexample_five_digits :
  In ("hash 5+ chars all digits", "bd-12345", true) TestIsHashID /\
  leaf_of "bd-12345" = Some "12345" /\
  has_lower_letter "12345" = false /\
  isHashID_as_specified "bd-12345" = false /\
  isHashID "bd-12345" = true.
Proof. repeat split. cbn. auto. Qed.

(** C1 at the database of the rename tests: the issue [test-old1] and the
    wisp [test-wisp-abc] are renamed. *)
Lemma C1_rename_cascade_witness :
  "test-old1" <> "test-new1" /\
  UpdateIssueID healthy "test-old1" "test-new1" test_issue "test" 1
    (connect test_database) = (Ok tt, renamed_issue_session) /\
  unreferenced_in_issue_tables "test-old1" (store renamed_issue_session) /\
  unreferenced_in_wisp_tables "test-old1" (store renamed_issue_session) /\
  rows_with_id "test-new1" (issues (store renamed_issue_session)) = 1 /\
  rename_events "test-old1" "test-new1" (events (store renamed_issue_session)) = 1 /\
  Forall (fun r => id r <> "test-wisp-abc") (wisps (store renamed_wisp_session)) /\
  rows_with_id "test-renamed-wisp" (wisps (store renamed_wisp_session)) = 1 /\
  issue_side_equal (store renamed_wisp_session) test_database.
Proof.
  assert (Hne : "test-old1" <> "test-new1") by discriminate.
  assert (Hrun : UpdateIssueID healthy "test-old1" "test-new1" test_issue "test" 1
                   (connect test_database) = (Ok tt, renamed_issue_session))
    by (vm_compute; reflexivity).
  destruct (C1_rename_cascade_amended healthy "test-old1" "test-new1" test_issue
              "test" 1 (connect test_database) renamed_issue_session Hne Hrun)
    as [Hissue _].
  destruct (Hissue eq_refl) as (_ & Hi & Hw & Hone & Hev & _).
  assert (Hne' : "test-wisp-abc" <> "test-renamed-wisp") by discriminate.
  assert (Hrun' : UpdateIssueID healthy "test-wisp-abc" "test-renamed-wisp" test_wisp
                    "tester" 1 (connect test_database) = (Ok tt, renamed_wisp_session))
    by (vm_compute; reflexivity).
  destruct (C1_rename_cascade_amended healthy "test-wisp-abc" "test-renamed-wisp"
              test_wisp "tester" 1 (connect test_database) renamed_wisp_session
              Hne' Hrun')
    as [_ Hwisp].
  destruct (Hwisp eq_refl) as (Hgone & _ & Hone' & _ & Hsame).
  exact (conj Hne (conj Hrun (conj Hi (conj Hw (conj Hone (conj Hev
           (conj Hgone (conj Hone' Hsame)))))))).
Defined.

(** C1 (counterexample).  An issue renamed from [bd-a1] to [bd-b2], back, and
    to [bd-b2] again: the third rename succeeds on a regular issue and leaves
    two 'renamed' events with [old_value = bd-a1] and [new_value = bd-b2]. *)
Lemma C1_counterexample_rename_events_accumulate :
  fst (UpdateIssueID healthy "bd-a1" "bd-b2" (mkIssue "bd-b2" "Task" "" "" "" "") "me" 1
         (connect single_issue)) = Ok tt /\
  fst (UpdateIssueID healthy "bd-b2" "bd-a1" (mkIssue "bd-a1" "Task" "" "" "" "") "me" 2
         there) = Ok tt /\
  "bd-a1" <> "bd-b2" /\
  isActiveWisp back "bd-a1" = false /\
  rows_with_id "bd-a1" (issues (store back)) = 1 /\
  UpdateIssueID healthy "bd-a1" "bd-b2" (mkIssue "bd-b2" "Task" "" "" "" "") "me" 3 back =
    (Ok tt, there_again) /\
  rename_events "bd-a1" "bd-b2" (events (store there_again)) = 2.
Proof.
  split; [vm_compute; reflexivity|]. split; [vm_compute; reflexivity|].
  split; [discriminate|]. split; [vm_compute; reflexivity|].
  split; [vm_compute; reflexivity|]. split; vm_compute; reflexivity.
Qed.




(** What the migration leaves in the sample store: only [legacy] is resealed. *)
Example migration_run :
  map password_encrypted
    (federation_peers
       (snd (migrateCredentialKeys (P := keyed_box) healthy steady_entropy fresh_key
               unmigrated_store))) =
  [Some (sample_nonce ++ fresh_key ++ list_byte_of_string "old-pw");
   Some (sample_nonce ++ sample_key ++ list_byte_of_string "new-pw");
   None].
Proof. vm_compute. reflexivity. Qed.

(** C7 (counterexample).  A well-formed name, a password, and a store whose
    credential key was never initialised: [AddFederationPeer] fails at the
    encryption and leaves the store as it was, without the row. *)
Lemma C7_counterexample_key_not_initialised :
  validatePeerName (Name alice) = None /\
  AddFederationPeer (P := keyed_box) healthy steady_entropy alice 5 keyless_store =
    (Err "failed to encrypt password: credential encryption key not initialized",
     keyless_store).
Proof.
  split; vm_compute; reflexivity.
Qed.


(** C6 at the store with the peer [alice], a sync that succeeds and an
    engine that carries out every statement: the environment is clean
    again, the mutex released, and the row of [alice] holds the time of the
    call. *)
Lemma C6_withPeerCredentials_witness :
  GetFederationPeer (P := keyed_box) healthy "alice" keyed_store =
    (Ok alice, next_request keyed_store) /\
  fst (withPeerCredentials (P := keyed_box) healthy "alice" clean_sync 9 keyed_store) =
    Returned None /\
  federationEnvMutex
    (snd (withPeerCredentials (P := keyed_box) healthy "alice" clean_sync 9 keyed_store)) =
    false /\
  Getenv "DOLT_REMOTE_USER"
    (environ (snd (withPeerCredentials (P := keyed_box) healthy "alice" clean_sync 9
                     keyed_store))) = None /\
  Getenv "DOLT_REMOTE_PASSWORD"
    (environ (snd (withPeerCredentials (P := keyed_box) healthy "alice" clean_sync 9
                     keyed_store))) = None /\
  Forall2 (synced_row "alice" 9)
    (federation_peers keyed_store)
    (federation_peers
       (snd (withPeerCredentials (P := keyed_box) healthy "alice" clean_sync 9
               keyed_store))).
Proof.
  assert (Hget : GetFederationPeer (P := keyed_box) healthy "alice" keyed_store =
                   (Ok alice, next_request keyed_store)) by (vm_compute; reflexivity).
  destruct (C6_withPeerCredentials_amended (P := keyed_box) healthy "alice" clean_sync 9
              keyed_store alice (next_request keyed_store) Hget)
    as (Hout & Hmutex & Henv & _ & Hnil & _).
  destruct (Henv eq_refl) as [Huser Hpwd].
  destruct (Hnil eq_refl) as (_ & Hsync & _).
  exact (conj Hget (conj Hout (conj Hmutex (conj Huser (conj Hpwd (Hsync eq_refl)))))).
Defined.

(** C6 (counterexample).  The sync succeeds and the engine refuses the
    [last_sync] statement (the second request, after the lookup): the caller
    gets [nil], and the [last_sync] of [alice] is not updated. *)
Lemma C6_counterexample_update_refused :
  fst (GetFederationPeer (P := keyed_box) (refuses [1]) "alice" keyed_store) = Ok alice /\
  fst (clean_sync (callback_state alice (next_request keyed_store))) = Returned None /\
  fst (withPeerCredentials (P := keyed_box) (refuses [1]) "alice" clean_sync 9
         keyed_store) = Returned None /\
  requests (snd (withPeerCredentials (P := keyed_box) (refuses [1]) "alice" clean_sync 9
                   keyed_store)) = 2 /\
  map last_sync (federation_peers keyed_store) = [None] /\
  map last_sync
    (federation_peers
       (snd (withPeerCredentials (P := keyed_box) (refuses [1]) "alice" clean_sync 9
               keyed_store))) = [None].
Proof.
  split; [vm_compute; reflexivity|]. split; [reflexivity|].
  split; [vm_compute; reflexivity|]. split; [vm_compute; reflexivity|].
  split; vm_compute; reflexivity.
Qed.

Example withPeerCredentials_runs :
  callback_state (R := listed_remotes) alice (next_request keyed_store) =
    with_mutex true
      (with_environ (fun _ => [("DOLT_REMOTE_PASSWORD", "s3cret");
                               ("DOLT_REMOTE_USER", "alice"); ("HOME", "/root")])
         (next_request keyed_store)) /\
  withPeerCredentials (P := keyed_box) healthy "alice" failing_sync 9 keyed_store =
    (Returned (Some "push rejected"), next_request keyed_store) /\
  withPeerCredentials (P := keyed_box) healthy "alice" panicking_sync 9 keyed_store =
    (Panicked "nil pointer dereference", next_request keyed_store) /\
  map last_sync
    (federation_peers
       (snd (withPeerCredentials (P := keyed_box) healthy "alice" clean_sync 9 keyed_store))) =
    [Some 9] /\
  environ (snd (withPeerCredentials (P := keyed_box) healthy "alice" clean_sync 9 keyed_store)) =
    [("HOME", "/root")].
Proof.
  split; [vm_compute; reflexivity|]. split; [vm_compute; reflexivity|].
  split; [vm_compute; reflexivity|]. split; vm_compute; reflexivity.
Qed.

Example AddFederationPeer_upserts :
  federation_peers
    (snd (AddFederationPeer (P := keyed_box) healthy steady_entropy alice 5 keyed_store)) =
  [mkPeerRow "alice" "https://example.com/alice" (Some "alice")
     (Some (sample_nonce ++ sample_key ++ list_byte_of_string "s3cret")) "T2" None 0 5] /\
  remotes
    (snd (AddFederationPeer (P := keyed_box) healthy steady_entropy alice 5 keyed_store)) =
  [("alice", "https://example.com/alice")].
Proof. split; vm_compute; reflexivity. Qed.

Example validatePeerName_examples :
  validatePeerName "peer-1_a" = None /\
  validatePeerName "" = Some "peer name cannot be empty" /\
  validatePeerName "1peer" <> None /\
  validatePeerName "peer name" <> None /\
  validatePeerName
    "a1234567890123456789012345678901234567890123456789012345678901234" =
    Some "peer name too long (max 64 characters)".
Proof. repeat split; try discriminate; vm_compute; reflexivity. Qed.


(* ================================================================== *)
(** * Part III. Further properties of the code                         *)
(* ================================================================== *)

(** ** The rename transaction *)

Lemma bind_run {S A B} (c : Eff S A) (k : A -> Eff S B) s :
  bind c k s = match c s with
               | (Ok a, s1) => k a s1
               | (Err e, s1) => (Err e, s1)
               end.
Proof. reflexivity. Qed.

Lemma Rollback_store engine s : store (snd (Rollback engine s)) = store s.
Proof.
  unfold Rollback. destruct (tx s); [|reflexivity].
  destruct (engine (calls s)); reflexivity.
Qed.

Lemma Rollback_closes engine s : tx (snd (Rollback engine s)) = None.
Proof.
  unfold Rollback. destruct (tx s) eqn:Htx; [|exact Htx].
  destruct (engine (calls s)); reflexivity.
Qed.

Lemma Rollback_setting engine s :
  foreign_key_checks (snd (Rollback engine s)) = foreign_key_checks s.
Proof.
  unfold Rollback. destruct (tx s); [|reflexivity].
  destruct (engine (calls s)); reflexivity.
Qed.

Lemma defer_Rollback {A} engine (body : Conn A) s r s' :
  defer (ignore (Rollback engine)) body s = (r, s') ->
  tx s' = None /\
  exists s1, body s = (r, s1) /\ store s' = store s1 /\
             foreign_key_checks s' = foreign_key_checks s1.
Proof.
  unfold defer, ignore. destruct (body s) as [r1 s1]. intros H. inversion H; subst.
  split; [apply Rollback_closes|]. exists s1.
  split; [reflexivity|]. split; [apply Rollback_store | apply Rollback_setting].
Qed.

Lemma BeginTx_run engine s r s' :
  BeginTx engine s = (r, s') ->
  store s' = store s /\ foreign_key_checks s' = foreign_key_checks s /\
  (is_ok r = false -> tx s' = tx s) /\
  (is_ok r = true -> tx s' = Some (store s)).
Proof.
  unfold BeginTx. destruct (engine (calls s)); intros H; inversion H; subst; cbn;
    repeat split; auto; discriminate.
Qed.

(** X1.  Whatever the engine answers, [UpdateIssueID] is all or nothing: it
    returns with the transaction finished, and when it returns an error the
    committed relations are exactly what they were. *)
Theorem UpdateIssueID_all_or_nothing :
  forall engine oldID newID issue actor now s r s',
    tx s = None ->
    UpdateIssueID engine oldID newID issue actor now s = (r, s') ->
    tx s' = None /\ (is_ok r = false -> store s' = store s).
Proof.
  intros engine oldID newID issue actor now s r s' Hidle H. split.
  - unfold UpdateIssueID in H. rewrite bind_run in H. unfold wrap at 1 in H.
    destruct (BeginTx engine s) as [[u|e] s0] eqn:Hb.
    + apply defer_Rollback in H. apply H.
    + inversion H; subst. apply BeginTx_run in Hb.
      destruct Hb as (_ & _ & Htx & _). rewrite (Htx eq_refl). exact Hidle.
  - destruct (UpdateIssueID_exits _ _ _ _ _ _ _ _ _ H) as (trace & _ & Hst & _).
    exact Hst.
Qed.

(** X26.  Enforcement at return.  On a connection with enforcement on,
    whatever the engine answers: [UpdateIssueID] returns with enforcement
    off exactly when [SET FOREIGN_KEY_CHECKS = 0] was carried out and no
    [SET FOREIGN_KEY_CHECKS = 1] was carried out after it.  So enforcement
    is on after a successful call, whenever a commit was sent (accepted or
    not), and whenever the engine carried out the re-enabling statement, the
    explicit one or the deferred one; and once enforcement was disabled a
    re-enabling statement is sent before the call returns. *)
Theorem UpdateIssueID_enforcement_at_return :
  forall engine oldID newID issue actor now s r s',
    foreign_key_checks s = true ->
    UpdateIssueID engine oldID newID issue actor now s = (r, s') ->
    (foreign_key_checks s' = false <->
       In (req_exec (SET_FOREIGN_KEY_CHECKS false), true) (trace_since s s') /\
       ~ In (req_exec (SET_FOREIGN_KEY_CHECKS true), true) (trace_since s s')) /\
    (r = Ok tt -> foreign_key_checks s' = true) /\
    (forall accepted,
       In (req_commit, accepted) (trace_since s s') -> foreign_key_checks s' = true) /\
    (In (req_exec (SET_FOREIGN_KEY_CHECKS false), true) (trace_since s s') ->
       exists later accepted,
         trace_since s s' =
           (req_begin, true)
           :: (req_exec (SET_FOREIGN_KEY_CHECKS false), true) :: later /\
         In (req_exec (SET_FOREIGN_KEY_CHECKS true), accepted) later).
Proof.
  intros engine oldID newID issue actor now s r s' Hfk H.
  apply UpdateIssueID_exits in H.
  destruct H as (trace & Hsent & _ & Hcases).
  rewrite (trace_since_app _ _ _ Hsent).
  destruct Hcases as [(Hsame & Hr & Hno & Hnoc)
                     | [(Hon & later & Htrace & Hin)
                       | (Hoff & Hr & later & Htrace & Hin & Hnone & Hnoc)]].
  - assert (Hon : foreign_key_checks s' = true) by congruence.
    split; [|split; [|split]].
    + split; [congruence|]. intros [Hin _]. contradiction.
    + intros _. exact Hon.
    + intros _ _. exact Hon.
    + intros Hin. contradiction.
  - split; [|split; [|split]].
    + split; [congruence|]. intros [_ Hnone]. exfalso. apply Hnone.
      rewrite Htrace. right. right. exact Hin.
    + intros _. exact Hon.
    + intros _ _. exact Hon.
    + intros _. exists later, true. split; assumption.
  - split; [|split; [|split]].
    + split; [|intros _; exact Hoff]. intros _. rewrite Htrace. split.
      * right. left. reflexivity.
      * intros [Hb|[Hb|Hb]]; [discriminate Hb | discriminate Hb | exact (Hnone Hb)].
    + intros ->. discriminate Hr.
    + intros accepted Hc. exfalso. rewrite Htrace in Hc.
      destruct Hc as [Hc|[Hc|Hc]]; [discriminate Hc | discriminate Hc | exact (Hnoc _ Hc)].
    + intros _. exists later, false. split; assumption.
Qed.

(** ** The cascade as a substitution *)

Lemma update_dep_both oldID newID (t : list DependencyRow) :
  update_dep_depends_on_id newID oldID (update_dep_issue_id newID oldID t) =
  map (rename_in_dependency oldID newID) t.
Proof.
  unfold update_dep_depends_on_id, update_dep_issue_id, sql_update.
  rewrite map_map. apply map_ext. intros [a b c].
  unfold rename_in_dependency, rename_id. cbn.
  destruct (a =? oldID); cbn; destruct (b =? oldID); reflexivity.
Qed.

Lemma update_ev_map oldID newID (t : list EventRow) :
  update_ev_issue_id newID oldID t = map (rename_in_event oldID newID) t.
Proof.
  unfold update_ev_issue_id, sql_update. apply map_ext. intros [a b c d e].
  unfold rename_in_event, rename_id. cbn. destruct (a =? oldID); reflexivity.
Qed.

Lemma update_lbl_map oldID newID (t : list LabelRow) :
  update_lbl_issue_id newID oldID t = map (rename_in_label oldID newID) t.
Proof.
  unfold update_lbl_issue_id, sql_update. apply map_ext. intros [a b].
  unfold rename_in_label, rename_id. cbn. destruct (a =? oldID); reflexivity.
Qed.

Lemma update_cmt_map oldID newID (t : list CommentRow) :
  update_cmt_issue_id newID oldID t = map (rename_in_comment oldID newID) t.
Proof.
  unfold update_cmt_issue_id, sql_update. apply map_ext. intros [a b c].
  unfold rename_in_comment, rename_id. cbn. destruct (a =? oldID); reflexivity.
Qed.

Lemma update_snap_map oldID newID (t : list SnapshotRow) :
  update_snap_issue_id newID oldID t = map (rename_in_snapshot oldID newID) t.
Proof.
  unfold update_snap_issue_id, sql_update. apply map_ext. intros [a b].
  unfold rename_in_snapshot, rename_id. cbn. destruct (a =? oldID); reflexivity.
Qed.

Lemma update_cc_map oldID newID (t : list ChildCounterRow) :
  update_cc_parent_id newID oldID t = map (rename_in_child_counter oldID newID) t.
Proof.
  unfold update_cc_parent_id, sql_update. apply map_ext. intros [a b].
  unfold rename_in_child_counter, rename_id. cbn. destruct (a =? oldID); reflexivity.
Qed.

Lemma update_primary_map newID issue now oldID t t' n :
  update_primary newID issue now oldID t = Ok (t', n) ->
  t' = map (rename_primary oldID newID issue now) t.
Proof.
  unfold update_primary. destruct (pk_unique _); [|discriminate].
  intros H. inversion H. reflexivity.
Qed.

(** X2.  A successful rename of a regular issue rewrites references and nothing
    else: every relation keeps its rows in number and order; in each
    referencing column [oldID] has become [newID] and every other value is
    as it was; the renamed row of [issues] carries the text fields of the
    [issue] argument and keeps [status], [priority] and [issue_type]; the
    'renamed' event is appended to [events]; [wisps] is untouched. *)
Theorem UpdateIssueID_rewrites_only_references :
  forall engine oldID newID issue actor now s s',
    isActiveWisp s oldID = false ->
    UpdateIssueID engine oldID newID issue actor now s = (Ok tt, s') ->
    issues (store s') = map (rename_primary oldID newID issue now) (issues (store s)) /\
    dependencies (store s') =
      map (rename_in_dependency oldID newID) (dependencies (store s)) /\
    events (store s') =
      map (rename_in_event oldID newID) (events (store s)) ++
      [renamed_event newID actor oldID] /\
    labels (store s') = map (rename_in_label oldID newID) (labels (store s)) /\
    comments (store s') = map (rename_in_comment oldID newID) (comments (store s)) /\
    issue_snapshots (store s') =
      map (rename_in_snapshot oldID newID) (issue_snapshots (store s)) /\
    compaction_snapshots (store s') =
      map (rename_in_snapshot oldID newID) (compaction_snapshots (store s)) /\
    child_counters (store s') =
      map (rename_in_child_counter oldID newID) (child_counters (store s)) /\
    wisps (store s') = wisps (store s) /\
    wisp_dependencies (store s') =
      map (rename_in_dependency oldID newID) (wisp_dependencies (store s)) /\
    wisp_events (store s') = map (rename_in_event oldID newID) (wisp_events (store s)) /\
    wisp_labels (store s') = map (rename_in_label oldID newID) (wisp_labels (store s)) /\
    wisp_comments (store s') =
      map (rename_in_comment oldID newID) (wisp_comments (store s)).
Proof.
  intros engine oldID newID issue actor now s s' Hw H.
  apply UpdateIssueID_Ok in H. destruct H as (t & n & _ & _ & _ & H).
  rewrite Hw in H. destruct H as [Hup ->]. apply update_primary_map in Hup. subst t.
  unfold issue_cascade, insert_row. cbn [issues dependencies events labels comments
    issue_snapshots compaction_snapshots child_counters wisps wisp_dependencies
    wisp_events wisp_labels wisp_comments].
  rewrite !update_dep_both, !update_ev_map, !update_lbl_map, !update_cmt_map,
    !update_snap_map, !update_cc_map.
  repeat split.
Qed.

(** X3.  A successful rename of a wisp rewrites the references of the [wisp_*]
    relations and nothing else: the issue-side relations are untouched; the
    renamed row of [wisps] carries the text fields of the [issue] argument;
    in each referencing column of the [wisp_*] relations [oldID] has become
    [newID]; the 'renamed' event is appended to [wisp_events]. *)
Theorem UpdateIssueID_wisp_rewrites_only_wisp_references :
  forall engine oldID newID issue actor now s s',
    isActiveWisp s oldID = true ->
    UpdateIssueID engine oldID newID issue actor now s = (Ok tt, s') ->
    issue_side_equal (store s') (store s) /\
    wisps (store s') = map (rename_primary oldID newID issue now) (wisps (store s)) /\
    wisp_dependencies (store s') =
      map (rename_in_dependency oldID newID) (wisp_dependencies (store s)) /\
    wisp_events (store s') =
      map (rename_in_event oldID newID) (wisp_events (store s)) ++
      [renamed_event newID actor oldID] /\
    wisp_labels (store s') = map (rename_in_label oldID newID) (wisp_labels (store s)) /\
    wisp_comments (store s') =
      map (rename_in_comment oldID newID) (wisp_comments (store s)).
Proof.
  intros engine oldID newID issue actor now s s' Hw H.
  apply UpdateIssueID_Ok in H. destruct H as (t & n & _ & _ & _ & H).
  rewrite Hw in H. destruct H as [Hup ->]. apply update_primary_map in Hup. subst t.
  unfold wisp_cascade, insert_row, issue_side_equal.
  cbn [issues dependencies events labels comments
    issue_snapshots compaction_snapshots child_counters wisps wisp_dependencies
    wisp_events wisp_labels wisp_comments].
  rewrite !update_dep_both, !update_ev_map, !update_lbl_map, !update_cmt_map.
  repeat split.
Qed.

(** ** Renaming there and back *)

Lemma rename_id_back A B x : x <> B -> rename_id B A (rename_id A B x) = x.
Proof.
  intros Hx. unfold rename_id. destruct (String.eqb_spec x A) as [->|Hne].
  - rewrite String.eqb_refl. reflexivity.
  - apply String.eqb_neq in Hx. rewrite Hx. reflexivity.
Qed.

Lemma map_back {X} (f g : X -> X) (Q : X -> Prop) (t : list X) :
  Forall Q t -> (forall x, Q x -> g (f x) = x) -> map g (map f t) = t.
Proof.
  intros HQ Hgf. induction HQ as [|x t Hx _ IH]; [reflexivity|].
  cbn. rewrite Hgf by exact Hx. rewrite IH. reflexivity.
Qed.

Lemma isActiveWisp_fresh s x :
  Forall (fun r => id r <> x) (wisps (store s)) -> isActiveWisp s x = false.
Proof.
  unfold isActiveWisp. induction 1 as [|r t Hr _ IH]; [reflexivity|].
  cbn. apply String.eqb_neq in Hr. rewrite Hr. exact IH.
Qed.

(** X4.  Renaming a regular issue from [A] to an id [B] that nothing carries, and
    back from [B] to [A], restores every auxiliary relation; what remains
    of the two renames is the pair of 'renamed' events at the end of
    [events], and in [issues] the text fields and time of the second call
    on the row of [A]. *)
Theorem UpdateIssueID_there_and_back :
  forall engine engine' A B issue issue' actor actor' now now' s s1 s2,
    isActiveWisp s A = false ->
    fresh_id B (store s) ->
    UpdateIssueID engine A B issue actor now s = (Ok tt, s1) ->
    UpdateIssueID engine' B A issue' actor' now' s1 = (Ok tt, s2) ->
    issues (store s2) = map (rename_primary A A issue' now') (issues (store s)) /\
    events (store s2) =
      events (store s) ++
      [mkEventRow A "renamed" actor (Some A) (Some B);
       mkEventRow A "renamed" actor' (Some B) (Some A)] /\
    dependencies (store s2) = dependencies (store s) /\
    labels (store s2) = labels (store s) /\
    comments (store s2) = comments (store s) /\
    issue_snapshots (store s2) = issue_snapshots (store s) /\
    compaction_snapshots (store s2) = compaction_snapshots (store s) /\
    child_counters (store s2) = child_counters (store s) /\
    wisps (store s2) = wisps (store s) /\
    wisp_dependencies (store s2) = wisp_dependencies (store s) /\
    wisp_events (store s2) = wisp_events (store s) /\
    wisp_labels (store s2) = wisp_labels (store s) /\
    wisp_comments (store s2) = wisp_comments (store s).
Proof.
  intros engine engine' A B issue issue' actor actor' now now' s s1 s2
    Hw (Hi & Hws & Hwisp) H1 H2.
  destruct Hi as (Fi & Fd & Fe & Fl & Fc & Fs & Fcs & Fcc).
  destruct Hws as (Fwd & Fwe & Fwl & Fwc).
  pose proof (UpdateIssueID_Ok _ _ _ _ _ _ _ _ _ H1) as (t & n & _ & _ & _ & E1).
  rewrite Hw in E1. destruct E1 as [Hup1 E1]. apply update_primary_map in Hup1. subst t.
  assert (Hw1 : isActiveWisp s1 B = false).
  { apply isActiveWisp_fresh. rewrite E1. exact Hwisp. }
  pose proof (UpdateIssueID_Ok _ _ _ _ _ _ _ _ _ H2) as (t & n' & _ & _ & _ & E2).
  rewrite Hw1 in E2. destruct E2 as [Hup2 E2]. apply update_primary_map in Hup2. subst t.
  rewrite E2, E1. unfold issue_cascade, insert_row.
  cbn [issues dependencies events labels comments
    issue_snapshots compaction_snapshots child_counters wisps wisp_dependencies
    wisp_events wisp_labels wisp_comments].
  rewrite !update_dep_both, !update_ev_map, !update_lbl_map, !update_cmt_map,
    !update_snap_map, !update_cc_map.
  repeat split.
  - rewrite map_map. apply map_ext_Forall.
    eapply Forall_impl; [|exact Fi]. cbn beta. intros r Hr.
    unfold rename_primary. destruct (id r =? A) eqn:HA.
    + cbn [set_issue_fields id]. rewrite String.eqb_refl.
      unfold set_issue_fields. cbn. reflexivity.
    + apply String.eqb_neq in Hr. rewrite Hr. reflexivity.
  - rewrite map_app, <- app_assoc. f_equal.
    + apply map_back with (Q := fun e => ev_issue_id e <> B); [exact Fe|].
      intros [a b c d e] Hx. unfold rename_in_event. cbn in *.
      rewrite rename_id_back by exact Hx. reflexivity.
    + cbn. unfold rename_in_event, renamed_event, rename_id. cbn.
      rewrite String.eqb_refl. reflexivity.
  - apply map_back with (Q := fun d => dep_issue_id d <> B /\ dep_depends_on_id d <> B);
      [exact Fd|].
    intros [a b c] [Ha Hb]. unfold rename_in_dependency. cbn in *.
    rewrite !rename_id_back by assumption. reflexivity.
  - apply map_back with (Q := fun l => lbl_issue_id l <> B); [exact Fl|].
    intros [a b] Hx. unfold rename_in_label. cbn in *.
    rewrite rename_id_back by exact Hx. reflexivity.
  - apply map_back with (Q := fun c => cmt_issue_id c <> B); [exact Fc|].
    intros [a b c] Hx. unfold rename_in_comment. cbn in *.
    rewrite rename_id_back by exact Hx. reflexivity.
  - apply map_back with (Q := fun c => snap_issue_id c <> B); [exact Fs|].
    intros [a b] Hx. unfold rename_in_snapshot. cbn in *.
    rewrite rename_id_back by exact Hx. reflexivity.
  - apply map_back with (Q := fun c => snap_issue_id c <> B); [exact Fcs|].
    intros [a b] Hx. unfold rename_in_snapshot. cbn in *.
    rewrite rename_id_back by exact Hx. reflexivity.
  - apply map_back with (Q := fun c => cc_parent_id c <> B); [exact Fcc|].
    intros [a b] Hx. unfold rename_in_child_counter. cbn in *.
    rewrite rename_id_back by exact Hx. reflexivity.
  - apply map_back with (Q := fun d => dep_issue_id d <> B /\ dep_depends_on_id d <> B);
      [exact Fwd|].
    intros [a b c] [Ha Hb]. unfold rename_in_dependency. cbn in *.
    rewrite !rename_id_back by assumption. reflexivity.
  - apply map_back with (Q := fun e => ev_issue_id e <> B); [exact Fwe|].
    intros [a b c d e] Hx. unfold rename_in_event. cbn in *.
    rewrite rename_id_back by exact Hx. reflexivity.
  - apply map_back with (Q := fun l => lbl_issue_id l <> B); [exact Fwl|].
    intros [a b] Hx. unfold rename_in_label. cbn in *.
    rewrite rename_id_back by exact Hx. reflexivity.
  - apply map_back with (Q := fun c => cmt_issue_id c <> B); [exact Fwc|].
    intros [a b c] Hx. unfold rename_in_comment. cbn in *.
    rewrite rename_id_back by exact Hx. reflexivity.
Qed.

(** ** Prefix renaming, whatever the engine answers *)

Lemma Commit_run engine s r s' :
  Commit engine s = (r, s') ->
  foreign_key_checks s' = foreign_key_checks s /\
  (is_ok r = false -> store s' = store s).
Proof.
  unfold Commit. destruct (tx s); [destruct (engine (calls s))|];
    intros H; inversion H; subst; cbn; split; congruence.
Qed.

Lemma Quiet_exec_prefix engine context c newPrefix oldPrefix :
  Quiet (wrap context
           (ExecContext engine (UPDATE_dependencies_prefix c newPrefix oldPrefix))).
Proof. apply Quiet_wrap, Quiet_ExecContext. reflexivity. Qed.

Lemma RenameDependencyPrefix_Ok engine oldPrefix newPrefix s u s' :
  RenameDependencyPrefix engine oldPrefix newPrefix s = (Ok u, s') ->
  store s' =
    with_dependencies
      (fun t => update_dep_prefix col_depends_on_id newPrefix oldPrefix
                  (update_dep_prefix col_issue_id newPrefix oldPrefix t)) (store s).
Proof.
  intros H. unfold RenameDependencyPrefix in H.
  apply bind_Ok in H. destruct H as (u0 & s0 & Hb & H).
  apply wrap_Ok in Hb. apply BeginTx_Ok in Hb. destruct Hb as [_ ->]. unfold after in H.
  apply defer_Ok in H. destruct H as (s1 & H & ->).
  step_exec H. cbn [run_stmt] in Hrun. injection Hrun as <- <-.
  step_exec H. cbn [run_stmt] in Hrun. injection Hrun as <- <-.
  apply Commit_Ok in H. destruct H as (work & Htx & _ & ->).
  cbn [tx] in Htx. injection Htx as <-.
  unfold ignore. cbn [snd]. rewrite Rollback_store. reflexivity.
Qed.

Lemma prefix_statements_run engine c1 c2 newPrefix oldPrefix s0 r s1 :
  bind (wrap c1 (ExecContext engine
                   (UPDATE_dependencies_prefix col_issue_id newPrefix oldPrefix)))
    (fun _ =>
       bind (wrap c2 (ExecContext engine
                        (UPDATE_dependencies_prefix col_depends_on_id newPrefix oldPrefix)))
         (fun _ => Commit engine)) s0 = (r, s1) ->
  foreign_key_checks s1 = foreign_key_checks s0 /\
  (is_ok r = false -> store s1 = store s0).
Proof.
  intros H. rewrite bind_run in H.
  destruct (wrap c1 (ExecContext engine _) s0) as [[n1|e1] sa] eqn:H1;
    pose proof (Quiet_exec_prefix _ _ _ _ _ _ _ _ H1) as Qa.
  - rewrite bind_run in H.
    destruct (wrap c2 (ExecContext engine _) sa) as [[n2|e2] sb] eqn:H2;
      pose proof (Quiet_exec_prefix _ _ _ _ _ _ _ _ H2) as Qb.
    + apply Commit_run in H. destruct H as [Hfk Hst]. split.
      * rewrite Hfk, (quiet_fk _ _ Qb), (quiet_fk _ _ Qa). reflexivity.
      * intros Hfail. rewrite (Hst Hfail), (quiet_store _ _ Qb), (quiet_store _ _ Qa).
        reflexivity.
    + inversion H; subst. split.
      * rewrite (quiet_fk _ _ Qb), (quiet_fk _ _ Qa). reflexivity.
      * intros _. rewrite (quiet_store _ _ Qb), (quiet_store _ _ Qa). reflexivity.
  - inversion H; subst. split; [apply (quiet_fk _ _ Qa) | intros _; apply (quiet_store _ _ Qa)].
Qed.

(** X5.  Whatever the engine answers, [RenameDependencyPrefix] is all or
    nothing: it returns with the transaction finished and the enforcement
    setting as it found it; when it returns an error the committed relations
    are exactly what they were; and when it returns [nil] only
    [dependencies] has changed, keeping the number of its rows and their
    [type] column. *)
Theorem RenameDependencyPrefix_all_or_nothing :
  forall engine oldPrefix newPrefix s r s',
    tx s = None ->
    RenameDependencyPrefix engine oldPrefix newPrefix s = (r, s') ->
    tx s' = None /\
    foreign_key_checks s' = foreign_key_checks s /\
    (is_ok r = false -> store s' = store s) /\
    (is_ok r = true ->
       exists t, store s' = with_dependencies (fun _ => t) (store s) /\
                 List.length t = List.length (dependencies (store s)) /\
                 map dep_type t = map dep_type (dependencies (store s))).
Proof.
  intros engine oldPrefix newPrefix s r s' Hidle H.
  assert (Hexits : tx s' = None /\ foreign_key_checks s' = foreign_key_checks s /\
                   (is_ok r = false -> store s' = store s)).
  { unfold RenameDependencyPrefix in H. rewrite bind_run in H. unfold wrap at 1 in H.
    destruct (BeginTx engine s) as [[u|e] s0] eqn:Hb;
      apply BeginTx_run in Hb; destruct Hb as (Hst0 & Hfk0 & Htx0 & _).
    - apply defer_Rollback in H. destruct H as (Htx & s1 & H & Hst & Hfk).
      apply prefix_statements_run in H. destruct H as [Hfk1 Hst1].
      split; [exact Htx|]. split; [congruence|].
      intros Hfail. rewrite Hst, (Hst1 Hfail). exact Hst0.
    - inversion H; subst. split; [rewrite (Htx0 eq_refl); exact Hidle|].
      split; [exact Hfk0 | intros _; exact Hst0]. }
  destruct Hexits as (Htx & Hfk & Hst).
  split; [exact Htx|]. split; [exact Hfk|]. split; [exact Hst|].
  intros Hok. destruct r as [[]|e]; [|discriminate Hok].
  apply RenameDependencyPrefix_Ok in H. eexists. split; [exact H|].
  unfold update_dep_prefix, sql_update. rewrite !length_map, !map_map. split; [reflexivity|].
  apply map_ext. intros d.
  destruct (sql_like _ (dep_issue_id d)); cbn;
    destruct (sql_like _ _); reflexivity.
Qed.

Lemma update_dep_prefix_literal oldPrefix newPrefix (t : list DependencyRow) :
  wildcard_free oldPrefix = true ->
  update_dep_prefix col_depends_on_id newPrefix oldPrefix
    (update_dep_prefix col_issue_id newPrefix oldPrefix t) =
  map (rename_dependency oldPrefix newPrefix) t.
Proof.
  intros Hfree. unfold update_dep_prefix, sql_update. rewrite map_map.
  apply map_ext. intros d.
  rewrite (sql_like_literal_prefix _ (dep_issue_id d) Hfree).
  unfold rename_dependency, replace_prefix, rename_prefix, CONCAT, SUBSTRING, LENGTH.
  rewrite Nat.add_sub.
  destruct (String.prefix oldPrefix (dep_issue_id d));
    cbn [dep_depends_on_id dep_issue_id dep_type set_dep_issue_id set_dep_depends_on_id];
    fold (CONCAT oldPrefix "%");
    rewrite (sql_like_literal_prefix _ (dep_depends_on_id d) Hfree);
    destruct (String.prefix oldPrefix (dep_depends_on_id d)); destruct d; reflexivity.
Qed.

(** X6.  With an old prefix of 7-bit characters, free of [%], [_] and
    backslash, a successful [RenameDependencyPrefix] replaces the prefix and
    only the prefix, on any connection and whatever else the engine did: an
    id that starts with the old prefix gets the new one in its place, every
    other id, the [type] column and every other relation are as they were. *)
Theorem RenameDependencyPrefix_replaces_literal_prefix :
  forall engine oldPrefix newPrefix s s',
    ascii_only oldPrefix = true ->
    wildcard_free oldPrefix = true ->
    RenameDependencyPrefix engine oldPrefix newPrefix s = (Ok tt, s') ->
    store s' =
      with_dependencies (map (rename_dependency oldPrefix newPrefix)) (store s).
Proof.
  intros engine oldPrefix newPrefix s s' _ Hfree H.
  apply RenameDependencyPrefix_Ok in H. rewrite H. unfold with_dependencies.
  rewrite update_dep_prefix_literal by exact Hfree. reflexivity.
Qed.

(** X7.  With the empty old prefix the [LIKE] pattern is [%] and matches every
    id: a successful [RenameDependencyPrefix] puts the new prefix in front
    of both ids of every dependency. *)
Theorem RenameDependencyPrefix_empty_prefix_prepends :
  forall engine newPrefix s s',
    RenameDependencyPrefix engine "" newPrefix s = (Ok tt, s') ->
    dependencies (store s') =
      map (prefixed_dependency newPrefix) (dependencies (store s)).
Proof.
  intros engine newPrefix s s' H.
  apply RenameDependencyPrefix_Ok in H. rewrite H.
  cbn [dependencies with_dependencies].
  rewrite update_dep_prefix_literal by reflexivity.
  apply map_ext. intros [a b c]. destruct a, b; reflexivity.
Qed.

Lemma replace_prefix_back oldPrefix newPrefix x :
  String.prefix newPrefix x = false ->
  replace_prefix newPrefix oldPrefix (replace_prefix oldPrefix newPrefix x) = x.
Proof.
  intros Hx. unfold replace_prefix at 2.
  destruct (String.prefix oldPrefix x) eqn:Hold.
  - destruct (prefix_split _ _ Hold) as [rest ->].
    assert (Hdrop : forall p r, string_drop (String.length p) (p ++ r)%string = r).
    { intros p r. induction p as [|c p IH]; [destruct r; reflexivity | exact IH]. }
    rewrite Hdrop. unfold replace_prefix.
    assert (Hpre : forall p r, String.prefix p (p ++ r)%string = true).
    { intros p r. induction p as [|c p IH]; [destruct r; reflexivity|].
      cbn. destruct (ascii_dec c c); [exact IH | congruence]. }
    rewrite Hpre, Hdrop. reflexivity.
  - unfold replace_prefix. rewrite Hx. reflexivity.
Qed.

(** X8.  Renaming a prefix to a new one that no id starts with, and back,
    restores the dependencies and leaves every other relation alone (both
    prefixes of 7-bit characters, free of [%], [_] and backslash). *)
Theorem RenameDependencyPrefix_there_and_back :
  forall engine engine' oldPrefix newPrefix s s1 s2,
    ascii_only oldPrefix = true -> ascii_only newPrefix = true ->
    wildcard_free oldPrefix = true ->
    wildcard_free newPrefix = true ->
    Forall (fun d => String.prefix newPrefix (dep_issue_id d) = false /\
                     String.prefix newPrefix (dep_depends_on_id d) = false)
      (dependencies (store s)) ->
    RenameDependencyPrefix engine oldPrefix newPrefix s = (Ok tt, s1) ->
    RenameDependencyPrefix engine' newPrefix oldPrefix s1 = (Ok tt, s2) ->
    store s2 = store s.
Proof.
  intros engine engine' oldPrefix newPrefix s s1 s2 _ _ Hold Hnew Hfresh H1 H2.
  apply RenameDependencyPrefix_Ok in H1. apply RenameDependencyPrefix_Ok in H2.
  rewrite H2, H1. unfold with_dependencies.
  cbn [issues dependencies events labels comments
    issue_snapshots compaction_snapshots child_counters wisps wisp_dependencies
    wisp_events wisp_labels wisp_comments].
  rewrite !update_dep_prefix_literal by assumption.
  rewrite (map_back _ _ _ _ Hfresh).
  - destruct (store s); reflexivity.
  - intros [a b c] [Ha Hb]. unfold rename_dependency. cbn in *.
    rewrite !replace_prefix_back by assumption. reflexivity.
Qed.

(** ** Peers: what is stored is what is read *)

Lemma find_upsert_peer_row name url user pwd sov now t :
  find (fun r => peer_name r =? name) (upsert_peer name url user pwd sov now t) =
  Some (match find (fun r => peer_name r =? name) t with
        | Some old => mkPeerRow (peer_name old) url (Some user) pwd sov
                        (last_sync old) (created_at old) now
        | None => mkPeerRow name url (Some user) pwd sov None now now
        end).
Proof.
  unfold upsert_peer.
  destruct (existsb (fun r => peer_name r =? name) t) eqn:Hex.
  - induction t as [|r t IH]; [discriminate|].
    cbn [existsb] in Hex. unfold sql_update. cbn [map find].
    destruct (peer_name r =? name) eqn:Hr.
    + cbn [peer_name]. rewrite Hr. reflexivity.
    + rewrite Hr. cbn [orb] in Hex. apply IH. exact Hex.
  - unfold insert_row. induction t as [|r t IH].
    + cbn. rewrite String.eqb_refl. reflexivity.
    + cbn [existsb] in Hex. apply orb_false_iff in Hex. destruct Hex as [Hr Hex].
      cbn [app find]. rewrite Hr. apply IH. exact Hex.
Qed.

Lemma find_upsert_peer_other other name url user pwd sov now t :
  other <> name ->
  find (fun r => peer_name r =? other) (upsert_peer name url user pwd sov now t) =
  find (fun r => peer_name r =? other) t.
Proof.
  intros Hne. unfold upsert_peer.
  destruct (existsb (fun r => peer_name r =? name) t).
  - unfold sql_update. induction t as [|r t IH]; [reflexivity|].
    cbn [map find]. destruct (String.eqb_spec (peer_name r) name) as [Hr|Hr].
    + cbn [peer_name]. rewrite Hr. apply String.eqb_neq in Hne.
      rewrite (String.eqb_sym name other), Hne. exact IH.
    + destruct (peer_name r =? other); [reflexivity | exact IH].
  - unfold insert_row. induction t as [|r t IH].
    + cbn. apply String.eqb_neq in Hne. rewrite (String.eqb_sym name other), Hne.
      reflexivity.
    + cbn [app find]. destruct (peer_name r =? other); [reflexivity | exact IH].
Qed.

Lemma find_delete_peer name t :
  find (fun r => peer_name r =? name) (delete_peer name t) = None.
Proof.
  unfold delete_peer. induction t as [|r t IH]; [reflexivity|].
  cbn [filter]. destruct (peer_name r =? name) eqn:Hr; cbn [negb]; [exact IH|].
  cbn [find]. rewrite Hr. exact IH.
Qed.

Lemma find_delete_peer_other other name t :
  other <> name ->
  find (fun r => peer_name r =? other) (delete_peer name t) =
  find (fun r => peer_name r =? other) t.
Proof.
  intros Hne. unfold delete_peer. induction t as [|r t IH]; [reflexivity|].
  cbn [filter find]. destruct (String.eqb_spec (peer_name r) name) as [Hr|Hr]; cbn [negb].
  - rewrite Hr. apply String.eqb_neq in Hne.
    rewrite (String.eqb_sym name other), Hne. exact IH.
  - cbn [find]. destruct (peer_name r =? other); [reflexivity | exact IH].
Qed.

Section PeerFacts.

Context {P : Primitives} {L : SealOpen P} {R : RemoteAPI}.
Variable engine : Engine.
Variable entropy : nat -> option (list byte).

Lemma GetFederationPeer_run name (s : DoltStore R) :
  engine (requests s) = None ->
  GetFederationPeer engine name s =
    (match find (fun r => peer_name r =? name) (federation_peers s) with
     | None => Err (ErrNotFound ++ ": federation peer " ++ name)%string
     | Some row => peer_of_row (credentialKey s) row
     end, next_request s).
Proof.
  intros Heng. unfold GetFederationPeer, bind, wrap, queryContext. rewrite Heng.
  destruct (find _ _) as [row|]; [|reflexivity].
  unfold peer_of_row, store_decryptPassword, ret.
  destruct (password_encrypted row) as [[|b encrypted]|]; cbn [List.length Nat.ltb Nat.leb];
    try reflexivity.
  cbn [credentialKey next_request].
  destruct (decryptPassword _ _); reflexivity.
Qed.

Lemma AddFederationPeer_Ok peer now (s s1 : DoltStore R) :
  AddFederationPeer engine entropy peer now s = (Ok tt, s1) ->
  validatePeerName (Name peer) = None /\
  engine (requests s) = None /\
  credentialKey s1 = credentialKey s /\
  exists encryptedPwd,
    federation_peers s1 =
      upsert_peer (Name peer) (RemoteURL peer) (Username peer) encryptedPwd
        (Sovereignty peer) now (federation_peers s) /\
    if Password peer =? "" then encryptedPwd = None
    else exists pwd,
      encryptPassword (credentialKey s) (entropy (reads s)) (Password peer) = Ok pwd /\
      encryptedPwd = Some pwd.
Proof.
  unfold AddFederationPeer. destruct (validatePeerName (Name peer)) eqn:Hv; [discriminate|].
  intros H. split; [reflexivity|].
  apply bind_Ok in H. destruct H as (encryptedPwd & sa & Henc & H).
  apply bind_Ok in H. destruct H as (u & sb & Hexec & H).
  apply wrap_Ok in Hexec. unfold execContext in Hexec.
  destruct (engine (requests sa)) eqn:Heng; [discriminate|]. injection Hexec as _ <-.
  assert (Hs1 : s1 = with_remotes (remotes s1)
                       (next_request
                          (with_peers (upsert_peer (Name peer) (RemoteURL peer)
                             (Username peer) encryptedPwd (Sovereignty peer) now) sa))).
  { cbn [remotes with_peers next_request] in H.
    destruct (AddRemote _ _ _) as [[e|] r];
      [destruct (Contains e "already exists"); cbn [negb] in H|];
      inversion H; subst; reflexivity. }
  assert (Hsa : (sa = s \/ sa = next_read s) /\
                if Password peer =? "" then encryptedPwd = None
                else exists pwd,
                  encryptPassword (credentialKey s) (entropy (reads s)) (Password peer) =
                    Ok pwd /\ encryptedPwd = Some pwd).
  { destruct (Password peer =? ""); cbn [negb] in Henc.
    - inversion Henc; subst. auto.
    - apply bind_Ok in Henc. destruct Henc as (pwd & sx & Hp & Hret).
      apply wrap_Ok in Hp. inversion Hret; subst.
      destruct (store_encryptPassword_run entropy (Password peer) s) as (sy & Hrun & Hsy).
      rewrite Hrun in Hp. injection Hp as Hp <-. split; [exact Hsy|].
      exists pwd. split; [exact Hp | reflexivity]. }
  destruct Hsa as [Hsa Hpwd].
  rewrite Hs1. cbn [credentialKey federation_peers with_remotes next_request with_peers].
  destruct Hsa as [-> | ->]; cbn [requests next_read] in Heng;
    (split; [exact Heng|]; split; [reflexivity|]; exists encryptedPwd;
     split; [reflexivity | exact Hpwd]).
Qed.

Lemma encryptPassword_Ok key source password pwd :
  password <> "" ->
  encryptPassword key source password = Ok pwd ->
  exists b rest, pwd = b :: rest /\ decryptPassword key pwd = Ok password.
Proof.
  intros Hne. unfold encryptPassword.
  apply String.eqb_neq in Hne. rewrite Hne.
  destruct key as [k|]; [|discriminate]. intros H.
  pose proof (decrypt_encrypt_roundtrip _ _ _ _ H) as Hround.
  apply encryptWithKey_Ok in H. destruct H as (_ & nonce & _ & Hn & ->).
  destruct nonce as [|b nonce]; [discriminate Hn|].
  exists b, (nonce ++ gcm_Seal k (b :: nonce) (list_byte_of_string password)).
  split; [reflexivity|]. unfold decryptPassword. exact Hround.
Qed.

Lemma AddFederationPeer_reads_back peer now (s s1 : DoltStore R) :
  AddFederationPeer engine entropy peer now s = (Ok tt, s1) ->
  exists row got,
    find (fun r => peer_name r =? Name peer) (federation_peers s1) = Some row /\
    peer_of_row (credentialKey s1) row = Ok got /\
    Name got = Name peer /\ RemoteURL got = RemoteURL peer /\
    Username got = Username peer /\ Password got = Password peer /\
    Sovereignty got = Sovereignty peer /\ UpdatedAt got = now /\
    match find (fun r => peer_name r =? Name peer) (federation_peers s) with
    | Some old => LastSync got = last_sync old /\ CreatedAt got = created_at old
    | None => LastSync got = None /\ CreatedAt got = now
    end.
Proof.
  intros Hadd.
  destruct (AddFederationPeer_Ok _ _ _ _ Hadd) as (Hv & _ & Hkey & pwd & Ht & Hpwd).
  rewrite Ht, find_upsert_peer_row, Hkey.
  assert (Hname : forall old,
            find (fun r => peer_name r =? Name peer) (federation_peers s) = Some old ->
            peer_name old = Name peer).
  { intros old Hf. apply find_some in Hf. destruct Hf as [_ Hf].
    apply String.eqb_eq in Hf. exact Hf. }
  destruct (Password peer =? "") eqn:Hpw.
  - subst pwd. apply String.eqb_eq in Hpw.
    destruct (find _ (federation_peers s)) as [old|] eqn:Hf;
      (eexists; eexists; split; [reflexivity|]; split; [reflexivity|]); cbn;
      repeat split; auto.
  - destruct Hpwd as (enc & Henc & ->). apply String.eqb_neq in Hpw.
    destruct (encryptPassword_Ok _ _ _ _ Hpw Henc) as (b & rest & -> & Hdec).
    destruct (find _ (federation_peers s)) as [old|] eqn:Hf;
      (eexists; eexists; split; [reflexivity|]);
      unfold peer_of_row; cbn [password_encrypted]; rewrite Hdec;
      (split; [reflexivity|]); cbn; repeat split; auto.
Qed.

(** X9.  What [AddFederationPeer] stored, [GetFederationPeer] returns: after a
    successful add, a lookup of the name that the engine carries out gives
    the URL, user name, password (decrypted to what was given) and
    sovereignty of the peer.  An update keeps the [last_sync] and
    [created_at] of the row; a new row has no [last_sync]. *)
Theorem AddFederationPeer_then_GetFederationPeer :
  forall (peer : FederationPeer) (now : nat) (s s1 : DoltStore R),
    AddFederationPeer engine entropy peer now s = (Ok tt, s1) ->
    engine (requests s1) = None ->
    exists got,
      fst (GetFederationPeer engine (Name peer) s1) = Ok got /\
      Name got = Name peer /\ RemoteURL got = RemoteURL peer /\
      Username got = Username peer /\ Password got = Password peer /\
      Sovereignty got = Sovereignty peer /\ UpdatedAt got = now /\
      match find (fun r => peer_name r =? Name peer) (federation_peers s) with
      | Some old => LastSync got = last_sync old /\ CreatedAt got = created_at old
      | None => LastSync got = None /\ CreatedAt got = now
      end.
Proof.
  intros peer now s s1 Hadd Heng.
  destruct (AddFederationPeer_reads_back _ _ _ _ Hadd) as (row & got & Hfind & Hrow & Hgot).
  exists got. split; [|exact Hgot].
  rewrite (GetFederationPeer_run _ _ Heng). cbn [fst].
  rewrite Hfind. exact Hrow.
Qed.

(** X10.  Adding or removing a peer leaves every other peer as it is: a lookup of
    another name gives after the call what it gave before. *)
Theorem other_peers_are_left_alone :
  forall (other : string) (s : DoltStore R),
    engine (requests s) = None ->
    (forall peer now s1,
       AddFederationPeer engine entropy peer now s = (Ok tt, s1) ->
       other <> Name peer -> engine (requests s1) = None ->
       fst (GetFederationPeer engine other s1) = fst (GetFederationPeer engine other s)) /\
    (forall name s1,
       RemoveFederationPeer engine name s = (Ok tt, s1) ->
       other <> name -> engine (requests s1) = None ->
       fst (GetFederationPeer engine other s1) = fst (GetFederationPeer engine other s)).
Proof.
  intros other s Heng. split.
  - intros peer now s1 Hadd Hne Heng1.
    destruct (AddFederationPeer_Ok _ _ _ _ Hadd) as (_ & _ & Hkey & pwd & Ht & _).
    rewrite (GetFederationPeer_run _ _ Heng1), (GetFederationPeer_run _ _ Heng).
    cbn [fst]. rewrite Ht, find_upsert_peer_other, Hkey by exact Hne. reflexivity.
  - intros name s1 Hrm Hne Heng1.
    unfold RemoveFederationPeer, bind, wrap, execContext in Hrm. rewrite Heng in Hrm.
    inversion Hrm; subst; clear Hrm.
    rewrite (GetFederationPeer_run _ _ Heng1), (GetFederationPeer_run _ _ Heng).
    cbn. rewrite find_delete_peer_other by exact Hne. reflexivity.
Qed.

(** X11.  After a successful [RemoveFederationPeer] the peer is gone: a lookup of
    the name that the engine carries out returns the not-found error, whether
    or not the peer was stored before. *)
Theorem RemoveFederationPeer_then_GetFederationPeer :
  forall (name : string) (s s1 : DoltStore R),
    RemoveFederationPeer engine name s = (Ok tt, s1) ->
    engine (requests s1) = None ->
    fst (GetFederationPeer engine name s1) =
      Err (ErrNotFound ++ ": federation peer " ++ name)%string.
Proof.
  intros name s s1 Hrm Heng1.
  unfold RemoveFederationPeer, bind, wrap, execContext in Hrm.
  destruct (engine (requests s)); [discriminate|].
  inversion Hrm; subst; clear Hrm.
  rewrite (GetFederationPeer_run _ _ Heng1). cbn.
  rewrite find_delete_peer. reflexivity.
Qed.

End PeerFacts.

(** ** Listing the peers *)

Lemma insert_by_name_Permutation r t : Permutation (insert_by_name r t) (r :: t).
Proof.
  induction t as [|x t IH]; [reflexivity|].
  cbn [insert_by_name]. destruct (String.ltb (peer_name x) (peer_name r)); [|reflexivity].
  rewrite IH. apply perm_swap.
Qed.

Lemma order_by_name_Permutation t : Permutation (order_by_name t) t.
Proof.
  induction t as [|r t IH]; [reflexivity|].
  cbn [order_by_name fold_right]. rewrite insert_by_name_Permutation.
  apply perm_skip. exact IH.
Qed.

Lemma not_ltb_leb a b : String.ltb a b = false -> String.leb b a = true.
Proof.
  unfold String.ltb, String.leb. rewrite (String.compare_antisym b a).
  destruct (String.compare a b); cbn; congruence.
Qed.

Lemma ltb_leb a b : String.ltb a b = true -> String.leb a b = true.
Proof.
  unfold String.ltb, String.leb. destruct (String.compare a b); congruence.
Qed.

Lemma insert_by_name_Sorted r t : Sorted by_name t -> Sorted by_name (insert_by_name r t).
Proof.
  induction 1 as [|x t Hs IH Hhd]; [repeat constructor|].
  cbn [insert_by_name]. destruct (String.ltb (peer_name x) (peer_name r)) eqn:Hlt.
  - constructor; [exact IH|].
    destruct t as [|y t]; cbn [insert_by_name].
    + constructor. apply ltb_leb. exact Hlt.
    + destruct (String.ltb (peer_name y) (peer_name r)).
      * constructor. inversion Hhd; subst. assumption.
      * constructor. apply ltb_leb. exact Hlt.
  - constructor; [constructor; assumption|].
    constructor. apply not_ltb_leb. exact Hlt.
Qed.

Lemma order_by_name_Sorted t : Sorted by_name (order_by_name t).
Proof.
  induction t as [|r t IH]; [constructor|].
  cbn [order_by_name fold_right]. apply insert_by_name_Sorted. exact IH.
Qed.

Lemma Sorted_names t :
  Sorted by_name t -> Sorted (fun a b => String.leb a b = true) (map peer_name t).
Proof.
  induction 1 as [|x t Hs IH Hhd]; [constructor|].
  cbn [map]. constructor; [exact IH|].
  destruct Hhd; constructor. assumption.
Qed.

Lemma find_unique_row (t : list PeerRow) row :
  pk_unique (map peer_name t) = true -> In row t ->
  find (fun r => peer_name r =? peer_name row) t = Some row.
Proof.
  induction t as [|x t IH]; [contradiction|].
  cbn [map]. intros Hpk Hin. apply pk_unique_cons in Hpk. destruct Hpk as [Hfresh Hpk].
  cbn [find]. destruct Hin as [->|Hin].
  - rewrite String.eqb_refl. reflexivity.
  - destruct (String.eqb_spec (peer_name x) (peer_name row)) as [E|_].
    + exfalso. apply Hfresh. rewrite E. apply in_map. exact Hin.
    + apply IH; assumption.
Qed.

Section ListingFacts.

Context {P : Primitives} {R : RemoteAPI}.
Variable engine : Engine.

Lemma scan_peer_run row (s : DoltStore R) :
  scan_peer row s = (peer_of_row (credentialKey s) row, s).
Proof.
  unfold scan_peer, peer_of_row, bind, wrap, ret, store_decryptPassword.
  destruct (password_encrypted row) as [[|b encrypted]|]; cbn [List.length Nat.ltb Nat.leb];
    try reflexivity.
  destruct (decryptPassword _ _); reflexivity.
Qed.

Lemma scan_peers_run rows (s : DoltStore R) :
  scan_peers rows s = (peers_of_rows (credentialKey s) rows, s).
Proof.
  induction rows as [|row rows IH]; [reflexivity|].
  cbn [scan_peers peers_of_rows]. unfold bind at 1. rewrite scan_peer_run.
  destruct (peer_of_row _ row); [|reflexivity].
  unfold bind at 1. rewrite IH. destruct (peers_of_rows _ rows); reflexivity.
Qed.

Lemma peers_of_rows_Ok key rows peers :
  peers_of_rows key rows = Ok peers ->
  Forall2 (fun row peer => peer_of_row key row = Ok peer) rows peers.
Proof.
  revert peers. induction rows as [|row rows IH]; intros peers H; cbn in H.
  - inversion H. constructor.
  - destruct (peer_of_row key row) as [peer|] eqn:Hrow; [|discriminate].
    destruct (peers_of_rows key rows) as [rest|]; [|discriminate].
    inversion H; subst. constructor; [exact Hrow | apply IH; reflexivity].
Qed.

Lemma peer_of_row_Name key row peer : peer_of_row key row = Ok peer -> Name peer = peer_name row.
Proof.
  unfold peer_of_row. destruct (password_encrypted row) as [[|b encrypted]|];
    try (intros H; inversion H; reflexivity).
  destruct (decryptPassword _ _); intros H; inversion H; reflexivity.
Qed.

Lemma peer_of_row_Err key row e :
  peer_of_row key row = Err e ->
  exists cause, e = Errorf "failed to decrypt password" cause.
Proof.
  unfold peer_of_row. destruct (password_encrypted row) as [[|b encrypted]|];
    try discriminate.
  destruct (decryptPassword _ _) as [|cause]; [discriminate|].
  intros H. inversion H. exists cause. reflexivity.
Qed.

Lemma peers_of_rows_Err key rows row e :
  In row rows -> peer_of_row key row = Err e ->
  exists cause, peers_of_rows key rows = Err (Errorf "failed to decrypt password" cause).
Proof.
  induction rows as [|x rows IH]; [contradiction|].
  intros Hin Hrow. cbn [peers_of_rows].
  destruct (peer_of_row key x) as [peer|e0] eqn:Hx.
  - destruct Hin as [->|Hin]; [congruence|].
    destruct (IH Hin Hrow) as [cause ->]. exists cause. reflexivity.
  - apply peer_of_row_Err in Hx. destruct Hx as [cause ->]. exists cause. reflexivity.
Qed.

Lemma ListFederationPeers_Ok (s s1 : DoltStore R) peers :
  ListFederationPeers engine s = (Ok peers, s1) ->
  engine (requests s) = None /\
  peers_of_rows (credentialKey s) (order_by_name (federation_peers s)) = Ok peers /\
  federation_peers s1 = federation_peers s /\ credentialKey s1 = credentialKey s.
Proof.
  unfold ListFederationPeers. intros H.
  apply bind_Ok in H. destruct H as (rows & sa & Hq & H).
  apply wrap_Ok in Hq. unfold queryContext in Hq.
  destruct (engine (requests s)) eqn:Heng; [discriminate|]. inversion Hq; subst; clear Hq.
  apply bind_Ok in H. destruct H as (peers' & sb & Hscan & H).
  rewrite scan_peers_run in Hscan. inversion Hscan; subst; clear Hscan.
  apply bind_Ok in H. destruct H as (u & sc & Herr & H).
  inversion H; subst; clear H.
  unfold rows_Err in Herr.
  destruct (engine (requests (next_request s))); [discriminate|].
  inversion Herr; subst; clear Herr.
  repeat split; auto.
Qed.

(** X12.  A successful [ListFederationPeers] returns every stored peer once,
    ordered by name, and each peer of the list is what [GetFederationPeer]
    returns for its name (on a store with the same rows and key, when the
    engine carries out the lookup).  The listing changes neither the rows
    nor the key. *)
Theorem ListFederationPeers_agrees_with_GetFederationPeer :
  forall (s s1 : DoltStore R) (peers : list FederationPeer),
    pk_unique (map peer_name (federation_peers s)) = true ->
    ListFederationPeers engine s = (Ok peers, s1) ->
    Permutation (map Name peers) (map peer_name (federation_peers s)) /\
    Sorted (fun a b => String.leb a b = true) (map Name peers) /\
    federation_peers s1 = federation_peers s /\ credentialKey s1 = credentialKey s /\
    (forall peer s2,
       In peer peers ->
       federation_peers s2 = federation_peers s -> credentialKey s2 = credentialKey s ->
       engine (requests s2) = None ->
       fst (GetFederationPeer engine (Name peer) s2) = Ok peer).
Proof.
  intros s s1 peers Hpk H.
  apply ListFederationPeers_Ok in H. destruct H as (_ & Hrows & Ht & Hk).
  apply peers_of_rows_Ok in Hrows.
  assert (Hnames : map Name peers = map peer_name (order_by_name (federation_peers s))).
  { induction Hrows as [|row peer rows ps Hrow _ IH]; [reflexivity|].
    cbn [map]. rewrite IH, (peer_of_row_Name _ _ _ Hrow). reflexivity. }
  split; [|split; [|split; [exact Ht|split; [exact Hk|]]]].
  - rewrite Hnames. apply Permutation_map. apply order_by_name_Permutation.
  - rewrite Hnames. apply Sorted_names, order_by_name_Sorted.
  - intros peer s2 Hin Ht2 Hk2 Heng.
    assert (Hrow : exists row, In row (order_by_name (federation_peers s)) /\
                     peer_of_row (credentialKey s) row = Ok peer).
    { clear -Hrows Hin. induction Hrows as [|row p rows ps Hrow _ IH]; [contradiction|].
      destruct Hin as [->|Hin].
      - exists row. split; [left; reflexivity | exact Hrow].
      - destruct (IH Hin) as (row' & Hin' & Hrow'). exists row'. split; [right|]; assumption. }
    destruct Hrow as (row & Hin' & Hrow).
    apply (Permutation_in _ (order_by_name_Permutation _)) in Hin'.
    rewrite (GetFederationPeer_run _ _ _ Heng). cbn [fst].
    rewrite Ht2, Hk2, (peer_of_row_Name _ _ _ Hrow).
    rewrite (find_unique_row _ _ Hpk Hin'). exact Hrow.
Qed.

(** X13.  One stored password that does not decrypt under the key of the store
    (or any stored password when the store has no key) makes the whole
    listing fail with "failed to decrypt password". *)
Theorem ListFederationPeers_fails_on_unreadable_password :
  forall (s : DoltStore R) (row : PeerRow) (encrypted : list byte) (e : string),
    engine (requests s) = None ->
    In row (federation_peers s) ->
    password_encrypted row = Some encrypted -> encrypted <> [] ->
    decryptPassword (credentialKey s) encrypted = Err e ->
    exists cause,
      fst (ListFederationPeers engine s) =
        Err (Errorf "failed to decrypt password" cause).
Proof.
  intros s row encrypted e Heng Hin Hpwd Hne Hdec.
  assert (Hrow : peer_of_row (credentialKey s) row =
                 Err (Errorf "failed to decrypt password" e)).
  { unfold peer_of_row. rewrite Hpwd. destruct encrypted as [|b rest]; [congruence|].
    rewrite Hdec. reflexivity. }
  apply (Permutation_in _ (Permutation_sym (order_by_name_Permutation _))) in Hin.
  destruct (peers_of_rows_Err _ _ _ _ Hin Hrow) as [cause Hrows].
  exists cause. unfold ListFederationPeers, bind, wrap, queryContext. rewrite Heng.
  rewrite scan_peers_run. cbn [credentialKey next_request]. rewrite Hrows. reflexivity.
Qed.

End ListingFacts.

(** ** The remote and the environment *)

Section RemoteFacts.

Context {P : Primitives} {R : RemoteAPI}.
Variable engine : Engine.
Variable entropy : nat -> option (list byte).

(** X14.  Once the name is valid, the password encrypts and the engine carries
    out the upsert, the outcome of [AddFederationPeer] is decided by
    [AddRemote]: [nil] and any error that mentions "already exists" give
    [nil], any other error is returned as "failed to add dolt remote: ...".
    Either way the row of the peer is stored. *)
Theorem AddFederationPeer_tolerates_existing_remote :
  forall (peer : FederationPeer) (now : nat) (s : DoltStore R),
    validatePeerName (Name peer) = None ->
    is_ok (encryptPassword (credentialKey s) (entropy (reads s)) (Password peer)) = true ->
    engine (requests s) = None ->
    fst (AddFederationPeer engine entropy peer now s) =
      match fst (AddRemote (Name peer) (RemoteURL peer) (remotes s)) with
      | None => Ok tt
      | Some e =>
          if Contains e "already exists" then Ok tt
          else Err (Errorf "failed to add dolt remote" e)
      end /\
    remotes (snd (AddFederationPeer engine entropy peer now s)) =
      snd (AddRemote (Name peer) (RemoteURL peer) (remotes s)) /\
    exists row,
      find (fun r => peer_name r =? Name peer)
        (federation_peers (snd (AddFederationPeer engine entropy peer now s))) = Some row /\
      remote_url row = RemoteURL peer.
Proof.
  intros peer now s Hv Henc Heng.
  assert (Hrun : exists pwd s1,
            AddFederationPeer engine entropy peer now s =
              (let out := AddRemote (Name peer) (RemoteURL peer) (remotes s) in
               match fst out with
               | None => Ok tt
               | Some e =>
                   if Contains e "already exists" then Ok tt
                   else Err (Errorf "failed to add dolt remote" e)
               end,
               with_remotes (snd (AddRemote (Name peer) (RemoteURL peer) (remotes s)))
                 (next_request
                    (with_peers (upsert_peer (Name peer) (RemoteURL peer) (Username peer)
                                   pwd (Sovereignty peer) now) s1))) /\
            federation_peers s1 = federation_peers s).
  { unfold AddFederationPeer. rewrite Hv. unfold bind, wrap, ret, execContext.
    destruct (Password peer =? ""); cbn [negb].
    - exists None, s. rewrite Heng. cbn [remotes with_peers next_request].
      split; [|reflexivity].
      destruct (AddRemote _ _ _) as [[e|] r]; cbn [fst snd];
        [destruct (Contains e "already exists")|]; reflexivity.
    - destruct (store_encryptPassword_run entropy (Password peer) s) as (s1 & -> & Hs1).
      destruct (encryptPassword _ _ _) as [pwd|]; [|discriminate Henc].
      exists (Some pwd), s1.
      assert (Hreq : requests s1 = requests s) by (destruct Hs1; subst; reflexivity).
      assert (Hrem : remotes s1 = remotes s) by (destruct Hs1; subst; reflexivity).
      rewrite Hreq, Heng. cbn [remotes with_peers next_request]. rewrite Hrem.
      split; [|destruct Hs1; subst; reflexivity].
      destruct (AddRemote _ _ _) as [[e|] r]; cbn [fst snd];
        [destruct (Contains e "already exists")|]; reflexivity. }
  destruct Hrun as (pwd & s1 & -> & Hpeers). cbn [fst snd].
  split; [reflexivity|]. split; [reflexivity|].
  cbn [federation_peers with_remotes next_request with_peers].
  rewrite find_upsert_peer_row. eexists. split; [reflexivity|].
  destruct (find _ _); reflexivity.
Qed.

Lemma Getenv_Setenv key value env :
  Contains value (String zero EmptyString) = false ->
  Getenv key (Setenv key value env) = Some value.
Proof.
  intros Hnul. unfold Setenv, Getenv. rewrite Hnul. cbn. rewrite String.eqb_refl.
  reflexivity.
Qed.

Lemma Getenv_Setenv_other key key' value env :
  key' <> key -> Getenv key (Setenv key' value env) = Getenv key env.
Proof.
  intros Hne. unfold Setenv. destruct (Contains value _); [reflexivity|].
  unfold Getenv at 1. cbn [find fst]. apply String.eqb_neq in Hne. rewrite Hne.
  apply String.eqb_neq in Hne.
  apply (Getenv_Unsetenv_other key key' env Hne).
Qed.

(** X15.  What [fn] finds in the environment and what the cleanup leaves:
    [setFederationCredentials] sets DOLT_REMOTE_USER to the user name and
    DOLT_REMOTE_PASSWORD to the password when they are not empty; a variable
    whose credential is empty is not touched and keeps the value it had;
    every other variable is untouched.  The cleanup unsets both variables,
    set by the call or not, and nothing else. *)
Theorem setFederationCredentials_environment :
  forall (username password : string) (s : DoltStore R),
    Contains username (String zero EmptyString) = false ->
    Contains password (String zero EmptyString) = false ->
    let cleanup := fst (setFederationCredentials username password s) in
    let during := environ (snd (setFederationCredentials username password s)) in
    Getenv "DOLT_REMOTE_USER" during =
      (if username =? "" then Getenv "DOLT_REMOTE_USER" (environ s) else Some username) /\
    Getenv "DOLT_REMOTE_PASSWORD" during =
      (if password =? "" then Getenv "DOLT_REMOTE_PASSWORD" (environ s)
       else Some password) /\
    (forall key, key <> "DOLT_REMOTE_USER" -> key <> "DOLT_REMOTE_PASSWORD" ->
       Getenv key during = Getenv key (environ s)) /\
    (forall s',
       Getenv "DOLT_REMOTE_USER" (environ (cleanup s')) = None /\
       Getenv "DOLT_REMOTE_PASSWORD" (environ (cleanup s')) = None /\
       forall key, key <> "DOLT_REMOTE_USER" -> key <> "DOLT_REMOTE_PASSWORD" ->
         Getenv key (environ (cleanup s')) = Getenv key (environ s')).
Proof.
  intros username password s Hu Hp. cbv zeta. unfold setFederationCredentials.
  cbn [fst snd]. split; [|split; [|split]].
  - destruct (username =? ""), (password =? ""); cbn [negb environ with_environ];
      rewrite ?Getenv_Setenv_other by discriminate;
      rewrite ?Getenv_Setenv by assumption; reflexivity.
  - destruct (username =? ""), (password =? ""); cbn [negb environ with_environ];
      rewrite ?Getenv_Setenv by assumption;
      rewrite ?Getenv_Setenv_other by discriminate; reflexivity.
  - intros key Hk1 Hk2.
    destruct (username =? ""), (password =? ""); cbn [negb environ with_environ];
      rewrite ?Getenv_Setenv_other by congruence; reflexivity.
  - intros s'. cbn [environ with_environ].
    destruct (cleanup_unsets (environ s')) as [H1 H2].
    split; [exact H1|]. split; [exact H2|].
    intros key Hk1 Hk2. rewrite !Getenv_Unsetenv_other by congruence. reflexivity.
Qed.

End RemoteFacts.

(** ** The credential key file *)

Section KeyFileFacts.

Context {P : Primitives} {L : SealOpen P} {R : RemoteAPI} {F : FileAPI}.
Variable engine : Engine.
Variable entropy : nat -> option (list byte).

Lemma reencrypt_keeps newKey toMigrate (s : DoltStore R) :
  credentialKey (snd (reencrypt engine entropy newKey toMigrate s)) = credentialKey s /\
  dbPath (snd (reencrypt engine entropy newKey toMigrate s)) = dbPath s.
Proof.
  revert s. induction toMigrate as [|e rest IH]; intros s; [split; reflexivity|].
  cbn [reencrypt]. unfold bind, wrap, store_encryptWithKey, execContext.
  destruct (encryptWithKey _ _ _) as [encrypted|err]; cbn [snd].
  - destruct (aes_key_size_ok newKey); cbn [requests next_read];
      destruct (engine (requests s)); cbn [snd]; try (split; reflexivity);
      match goal with
      | |- context [reencrypt _ _ _ _ ?x] =>
          destruct (IH x) as [-> ->]; split; reflexivity
      end.
  - destruct (aes_key_size_ok newKey); split; reflexivity.
Qed.

Lemma migrateCredentialKeys_keeps newKey (s : DoltStore R) :
  credentialKey (snd (migrateCredentialKeys engine entropy newKey s)) = credentialKey s /\
  dbPath (snd (migrateCredentialKeys engine entropy newKey s)) = dbPath s.
Proof.
  unfold migrateCredentialKeys. destruct (db_connected s); cbn [negb]; [|split; reflexivity].
  unfold queryContext. destruct (engine (requests s)); cbn [snd]; [split; reflexivity|].
  unfold bind, wrap, rows_Err. cbn [requests next_request].
  destruct (engine (S (requests s))); cbn [snd]; [split; reflexivity|].
  match goal with
  | |- context [reencrypt _ _ _ ?l ?x] =>
      destruct (reencrypt_keeps newKey l x) as [-> ->]; split; reflexivity
  end.
Qed.

Lemma stored_key_length keyPath files key :
  stored_key keyPath files = Some key -> List.length key = 32.
Proof.
  unfold stored_key. destruct (ReadFile keyPath files) as [k|]; [|discriminate].
  destruct (Nat.eqb (List.length k) 32) eqn:E; [|discriminate].
  intros H. inversion H; subst. apply Nat.eqb_eq. exact E.
Qed.

Lemma ReadFull_Ok source n bytes :
  ReadFull source n = Ok bytes -> source = Some bytes /\ List.length bytes = n.
Proof.
  unfold ReadFull. destruct source as [b|]; [|discriminate].
  destruct (Nat.eqb (List.length b) n) eqn:E; [|discriminate].
  intros H. inversion H; subst. split; [reflexivity | apply Nat.eqb_eq; exact E].
Qed.

(** The ways [initCredentialKey] returns [nil] with a [dbPath]: the key was
    loaded from the key file, or it was drawn, the migration went through
    and the key file was written. *)
Lemma initCredentialKey_Ok (h h1 : Host R F) :
  dbPath (host_store h) <> "" ->
  initCredentialKey engine entropy h = (Ok tt, h1) ->
  let s := host_store h in
  let keyPath := Join (dbPath s) credentialKeyFile in
  exists key,
    List.length key = 32 /\
    ( (stored_key keyPath (host_files h) = Some key /\
       h1 = mkHost (with_credentialKey key s) (host_files h))
    \/ (stored_key keyPath (host_files h) = None /\
        entropy (reads s) = Some key /\
        exists s1 files1,
          migrateCredentialKeys engine entropy key (next_read s) = (Ok tt, s1) /\
          MkdirAll (dbPath s) perm_0700 (host_files h) = (None, files1) /\
          WriteFile keyPath key perm_0600 files1 = (None, host_files h1) /\
          host_store h1 = with_credentialKey key s1) ).
Proof.
  intros Hpath H. cbv zeta. unfold initCredentialKey in H.
  apply String.eqb_neq in Hpath. rewrite Hpath in H.
  destruct (stored_key _ (host_files h)) as [key|] eqn:Hstored.
  - inversion H; subst. exists key. split; [eapply stored_key_length; exact Hstored|].
    left. split; reflexivity.
  - destruct (ReadFull _ 32) as [key|] eqn:Hread; [|discriminate].
    apply ReadFull_Ok in Hread. destruct Hread as [Hent Hlen].
    destruct (migrateCredentialKeys _ _ _ _) as [[[]|e] s1] eqn:Hmig; [|discriminate].
    destruct (MkdirAll _ _ _) as [[e|] files1] eqn:Hdir; [discriminate|].
    destruct (WriteFile _ _ _ _) as [[e|] files2] eqn:Hwrite; [discriminate|].
    inversion H; subst. exists key. split; [exact Hlen|]. right.
    split; [reflexivity|]. split; [exact Hent|].
    exists s1, files1. repeat split; assumption.
Qed.

Lemma initCredentialKey_key (h h1 : Host R F) :
  dbPath (host_store h) <> "" ->
  initCredentialKey engine entropy h = (Ok tt, h1) ->
  exists key, credentialKey (host_store h1) = Some key /\ List.length key = 32.
Proof.
  intros Hpath H.
  destruct (initCredentialKey_Ok _ _ Hpath H) as (key & Hlen & [[_ ->] | Hgen]).
  - exists key. split; [reflexivity | exact Hlen].
  - destruct Hgen as (_ & _ & s1 & files1 & _ & _ & _ & ->).
    exists key. split; [reflexivity | exact Hlen].
Qed.

(** X16.  [initCredentialKey] gives the store its key last.  Without a [dbPath]
    it returns [nil] and touches nothing.  When it returns an error the
    store keeps the key it had (none, on a fresh store); and an error
    raised before the directory is made leaves the files alone.  When it
    returns [nil] with a [dbPath], the store holds a key of 32 bytes. *)
Theorem initCredentialKey_sets_the_key_last :
  forall (h h1 : Host R F) (r : result unit),
    initCredentialKey engine entropy h = (r, h1) ->
    (dbPath (host_store h) = "" -> r = Ok tt /\ h1 = h) /\
    (is_ok r = false ->
       credentialKey (host_store h1) = credentialKey (host_store h) /\
       ((exists e, r = Err (Errorf "failed to generate credential encryption key" e)) \/
        (exists e, r = Err (Errorf "failed to migrate credential keys" e)) ->
        host_files h1 = host_files h)) /\
    (r = Ok tt -> dbPath (host_store h) <> "" ->
       exists key, credentialKey (host_store h1) = Some key /\ List.length key = 32).
Proof.
  intros h h1 r H. split; [|split].
  - intros Hpath. unfold initCredentialKey in H. rewrite Hpath in H.
    cbn in H. inversion H. split; reflexivity.
  - intros Hfail. unfold initCredentialKey in H.
    destruct (dbPath (host_store h) =? ""); [inversion H; subst; discriminate Hfail|].
    destruct (stored_key _ _); [inversion H; subst; discriminate Hfail|].
    destruct (ReadFull _ 32) as [key|e0].
    + pose proof (migrateCredentialKeys_keeps key (next_read (host_store h))) as [Hk _].
      destruct (migrateCredentialKeys _ _ _ _) as [[[]|e] s1]; cbn [snd] in Hk.
      * destruct (MkdirAll _ _ _) as [[e|] files1].
        -- inversion H; subst. split; [exact Hk|].
           intros [[x Hx]|[x Hx]]; inversion Hx.
        -- destruct (WriteFile _ _ _ _) as [[e|] files2];
             inversion H; subst; [|discriminate Hfail].
           split; [exact Hk|]. intros [[x Hx]|[x Hx]]; inversion Hx.
      * inversion H; subst. split; [exact Hk|]. reflexivity.
    + inversion H; subst. split; reflexivity.
  - intros -> Hpath. apply (initCredentialKey_key _ _ Hpath H).
Qed.

(** X17.  A second store opened on the same path after [initCredentialKey]
    returned [nil] loads the key of the first, when a written file reads
    back as written: it draws no random bytes, sends nothing to the engine
    and writes nothing. *)
Theorem initCredentialKey_reloads_the_same_key :
  forall {W : WriteThenRead F} (h h1 : Host R F),
    dbPath (host_store h) <> "" ->
    initCredentialKey engine entropy h = (Ok tt, h1) ->
    exists key,
      credentialKey (host_store h1) = Some key /\
      forall engine' entropy' (s2 : DoltStore R),
        dbPath s2 = dbPath (host_store h) ->
        initCredentialKey engine' entropy' (mkHost s2 (host_files h1)) =
          (Ok tt, mkHost (with_credentialKey key s2) (host_files h1)).
Proof.
  intros W h h1 Hpath H.
  destruct (initCredentialKey_Ok _ _ Hpath H) as (key & Hlen & Hcase). cbv zeta in Hcase.
  assert (Hstored : stored_key (Join (dbPath (host_store h)) credentialKeyFile)
                      (host_files h1) = Some key /\
                    credentialKey (host_store h1) = Some key).
  { destruct Hcase as [[Hstored ->] | (_ & _ & s1 & files1 & _ & _ & Hwrite & Hst)].
    - split; [exact Hstored | reflexivity].
    - split; [|rewrite Hst; reflexivity].
      unfold stored_key. rewrite (ReadFile_WriteFile _ _ _ _ _ Hwrite), Hlen. reflexivity. }
  destruct Hstored as [Hstored Hkey]. exists key. split; [exact Hkey|].
  intros engine' entropy' s2 Hsame. unfold initCredentialKey. cbn [host_store host_files].
  rewrite Hsame. apply String.eqb_neq in Hpath. rewrite Hpath, Hstored. reflexivity.
Qed.

(** X18.  After [initCredentialKey] returned [nil] with a [dbPath], the store
    encrypts every password and decrypts it back: [encryptPassword]
    succeeds whenever the random source delivers a nonce, and
    [decryptPassword] of what it returned is the password (the empty
    password travels as the empty ciphertext). *)
Theorem initCredentialKey_then_passwords_round_trip :
  forall (h h1 : Host R F) (password : string) (nonce : list byte),
    dbPath (host_store h) <> "" ->
    initCredentialKey engine entropy h = (Ok tt, h1) ->
    List.length nonce = NonceSize ->
    exists encrypted,
      encryptPassword (credentialKey (host_store h1)) (Some nonce) password = Ok encrypted /\
      decryptPassword (credentialKey (host_store h1)) encrypted = Ok password /\
      (encrypted = [] <-> password = "").
Proof.
  intros h h1 password nonce Hpath H Hn.
  destruct (initCredentialKey_key _ _ Hpath H) as (key & -> & Hlen).
  unfold encryptPassword. destruct (String.eqb_spec password "") as [->|Hne].
  - exists []. repeat split; reflexivity.
  - unfold encryptWithKey, ReadFull. rewrite (key_32_ok _ Hlen), Hn. cbn [negb Nat.eqb NonceSize].
    eexists. split; [reflexivity|]. split.
    + unfold decryptPassword.
      destruct nonce as [|b nonce]; [discriminate Hn|]. cbn [app List.length Nat.eqb].
      change (b :: nonce ++ ?x) with ((b :: nonce) ++ x).
      rewrite decryptWithKey_sealed by (auto using key_32_ok).
      rewrite gcm_Open_Seal by (auto using key_32_ok).
      rewrite string_of_list_byte_of_string. reflexivity.
    + destruct nonce; [discriminate Hn|]. split; [discriminate | congruence].
Qed.

End KeyFileFacts.

(** ** The first start migrates the stored passwords *)

Section FirstStartFacts.

Context {P : Primitives} {L : SealOpen P} {R : RemoteAPI} {F : FileAPI}.
Variable engine : Engine.
Variable entropy : nat -> option (list byte).

Lemma migrateCredentialKeys_rows newKey (s s' : DoltStore R) :
  db_connected s = true ->
  pk_unique (map peer_name (federation_peers s)) = true ->
  engine (requests s) = None ->
  migrateCredentialKeys engine entropy newKey s = (Ok tt, s') ->
  Forall2 (migrated_row newKey (dbPath s)) (federation_peers s) (federation_peers s').
Proof.
  intros Hdb Hpk Heng Hrun. unfold migrateCredentialKeys in Hrun.
  rewrite Hdb in Hrun. cbn [negb] in Hrun.
  unfold queryContext in Hrun. rewrite Heng in Hrun.
  rewrite decryptable_select in Hrun.
  apply bind_Ok in Hrun. destruct Hrun as (u & s1 & Herr & Hrun).
  apply wrap_Ok in Herr. unfold rows_Err in Herr. cbn [requests next_request] in Herr.
  destruct (engine (S (requests s))); [discriminate|]. injection Herr as _ <-.
  apply reencrypt_Ok in Hrun; [|apply entries_unique; exact Hpk].
  cbn [federation_peers next_request] in Hrun.
  eapply Forall2_impl_In; [exact Hrun|]. cbn beta.
  intros r r' Hin Hrr'. unfold migrated_row.
  assert (Hrow := entry_for_row (dbPath s) _ r Hpk Hin).
  destruct (entry_for _ r) as [e|]; rewrite Hrow; exact Hrr'.
Qed.

Lemma migrated_row_name newKey path r r' :
  migrated_row newKey path r r' -> peer_name r' = peer_name r.
Proof.
  unfold migrated_row. destruct (legacy_plaintext path r).
  - intros (nonce & _ & _ & _ & Hname & _). exact Hname.
  - intros ->. reflexivity.
Qed.

Lemma Forall2_names newKey path t t' :
  Forall2 (migrated_row newKey path) t t' -> map peer_name t' = map peer_name t.
Proof.
  induction 1 as [|r r' t t' Hr _ IH]; [reflexivity|].
  cbn [map]. rewrite IH, (migrated_row_name _ _ _ _ Hr). reflexivity.
Qed.

Lemma Forall2_In_left {A B} (Rel : A -> B -> Prop) l l' a :
  Forall2 Rel l l' -> In a l -> exists b, In b l' /\ Rel a b.
Proof.
  induction 1 as [|x y l l' Hxy _ IH]; [contradiction|].
  intros [->|Hin].
  - exists y. split; [left; reflexivity | exact Hxy].
  - destruct (IH Hin) as (b & Hb & Hab). exists b. split; [right|]; assumption.
Qed.

(** X19.  A first start keeps the stored passwords readable.  On a store with no
    key file yet, when [initCredentialKey] returns [nil] (and the engine
    carried out the query of the migration), every peer whose password the
    legacy key decrypted is returned by [GetFederationPeer] with that same
    password, now read with the new key, and with its URL and user name as
    they were. *)
Theorem initCredentialKey_keeps_legacy_passwords_readable :
  forall (h h1 : Host R F) (row : PeerRow) (password : string),
    dbPath (host_store h) <> "" ->
    db_connected (host_store h) = true ->
    pk_unique (map peer_name (federation_peers (host_store h))) = true ->
    stored_key (Join (dbPath (host_store h)) credentialKeyFile) (host_files h) = None ->
    engine (requests (host_store h)) = None ->
    initCredentialKey engine entropy h = (Ok tt, h1) ->
    In row (federation_peers (host_store h)) ->
    legacy_plaintext (dbPath (host_store h)) row = Some password ->
    engine (requests (host_store h1)) = None ->
    exists got,
      fst (GetFederationPeer engine (peer_name row) (host_store h1)) = Ok got /\
      Password got = password /\
      RemoteURL got = remote_url row /\
      Username got = match username row with Some u => u | None => "" end /\
      Sovereignty got = sovereignty row /\ LastSync got = last_sync row.
Proof.
  intros h h1 row password Hpath Hdb Hpk Hnokey Heng H Hin Hlegacy Heng1.
  destruct (initCredentialKey_Ok _ _ _ _ Hpath H) as (key & Hlen & Hcase).
  cbv zeta in Hcase.
  destruct Hcase as [[Hstored _] | (_ & _ & s1 & files1 & Hmig & _ & _ & Hst)];
    [congruence|].
  apply migrateCredentialKeys_rows in Hmig; [|exact Hdb | exact Hpk | exact Heng].
  cbn [federation_peers next_read dbPath] in Hmig.
  pose proof (Forall2_names _ _ _ _ Hmig) as Hnames.
  destruct (Forall2_In_left _ _ _ _ Hmig Hin) as (row' & Hin' & Hrow').
  unfold migrated_row in Hrow'. rewrite Hlegacy in Hrow'.
  apply reencrypted_set_password in Hrow'.
  destruct Hrow' as (nonce & Hn & -> & Hdec).
  rewrite (GetFederationPeer_run _ _ _ Heng1). cbn [fst].
  rewrite Hst. cbn [federation_peers credentialKey with_credentialKey].
  change (peer_name row) with
    (peer_name (set_password
                  (nonce ++ gcm_Seal key nonce (list_byte_of_string password)) row)).
  rewrite find_unique_row; [| rewrite Hnames; exact Hpk | exact Hin'].
  unfold peer_of_row. cbn [password_encrypted set_password].
  destruct nonce as [|b nonce]; [discriminate Hn|]. cbn [app].
  change (b :: nonce ++ ?x) with ((b :: nonce) ++ x).
  unfold decryptPassword. cbn [List.length app Nat.eqb]. 
  change (b :: nonce ++ ?x) with ((b :: nonce) ++ x).
  rewrite Hdec. eexists. split; [reflexivity|]. cbn. repeat split.
Qed.

(** X20.  The migration comes before the key is saved.  When making the
    directory or writing the key file fails after the passwords were
    migrated, [initCredentialKey] returns the error and the store takes no
    key, while the rows the legacy key decrypted are already sealed under
    the key that was drawn. *)
Theorem initCredentialKey_migrates_before_saving_the_key :
  forall (h h1 : Host R F) (e : string),
    db_connected (host_store h) = true ->
    pk_unique (map peer_name (federation_peers (host_store h))) = true ->
    engine (requests (host_store h)) = None ->
    (exists cause,
       e = Errorf "failed to create directory for credential key" cause \/
       e = Errorf "failed to write credential key file" cause) ->
    initCredentialKey engine entropy h = (Err e, h1) ->
    credentialKey (host_store h1) = credentialKey (host_store h) /\
    exists key,
      entropy (reads (host_store h)) = Some key /\ List.length key = 32 /\
      Forall2 (migrated_row key (dbPath (host_store h)))
        (federation_peers (host_store h)) (federation_peers (host_store h1)).
Proof.
  intros h h1 e Hdb Hpk Heng (cause & He) H. unfold initCredentialKey in H.
  destruct (dbPath (host_store h) =? ""); [discriminate|].
  destruct (stored_key _ _); [discriminate|].
  destruct (ReadFull _ 32) as [key|e0] eqn:Hread.
  - apply ReadFull_Ok in Hread. destruct Hread as [Hent Hlen].
    pose proof (migrateCredentialKeys_keeps engine entropy key (next_read (host_store h)))
      as [Hk _].
    destruct (migrateCredentialKeys _ _ _ _) as [[[]|e1] s1] eqn:Hmig; cbn [snd] in Hk.
    + apply migrateCredentialKeys_rows in Hmig; [|exact Hdb | exact Hpk | exact Heng].
      cbn [federation_peers next_read dbPath] in Hmig.
      destruct (MkdirAll _ _ _) as [[e2|] files1].
      * inversion H; subst. split; [exact Hk|]. exists key. repeat split; assumption.
      * destruct (WriteFile _ _ _ _) as [[e2|] files2]; [|discriminate].
        inversion H; subst. split; [exact Hk|]. exists key. repeat split; assumption.
    + inversion H; subst. destruct He as [He|He]; inversion He.
  - inversion H; subst. destruct He as [He|He]; inversion He.
Qed.

End FirstStartFacts.

(** ** Database file discovery *)

Lemma HasSuffix_nonempty s suffix : suffix <> "" -> HasSuffix s suffix = true -> s <> "".
Proof.
  intros Hne H ->. unfold HasSuffix in H. apply andb_true_iff in H. destruct H as [Hlen _].
  destruct suffix; [congruence | discriminate Hlen].
Qed.

Lemma is_candidate_true entry :
  is_candidate entry = true ->
  de_IsDir entry = false /\ HasSuffix (de_Name entry) ".db" = true /\
  Contains (de_Name entry) "backup" = false /\ de_Name entry <> "vc.db".
Proof.
  unfold is_candidate. destruct (de_IsDir entry); [discriminate|].
  destruct (HasSuffix _ _); cbn [negb]; [|discriminate].
  destruct (Contains _ _); cbn [orb]; [discriminate|].
  destruct (String.eqb_spec (de_Name entry) "vc.db"); [discriminate|].
  intros _. repeat split. assumption.
Qed.

(** X21.  [findActualDBFile] answers with a database file of the directory or
    with nothing: the answer is empty exactly when no entry passes the test
    of the loop (and when the directory cannot be read); otherwise it is the
    name of an entry that is a file, ends in [.db], does not mention
    "backup" and is not [vc.db]. *)
Theorem findActualDBFile_returns_a_database_file :
  forall (entries : list DirEntry),
    (forall e, findActualDBFile (Err e) = "") /\
    (findActualDBFile (Ok entries) = "" <-> filter is_candidate entries = []) /\
    (findActualDBFile (Ok entries) <> "" ->
       exists entry,
         In entry entries /\ de_Name entry = findActualDBFile (Ok entries) /\
         de_IsDir entry = false /\
         HasSuffix (de_Name entry) ".db" = true /\
         Contains (de_Name entry) "backup" = false /\
         de_Name entry <> "vc.db").
Proof.
  intros entries.
  assert (Hpick : filter is_candidate entries <> [] ->
            exists entry, In entry (filter is_candidate entries) /\
              de_Name entry = findActualDBFile (Ok entries)).
  { unfold findActualDBFile.
    destruct (filter is_candidate entries) as [|first rest] eqn:Hf; [congruence|].
    intros _. cbn [map].
    destruct (find _ (de_Name first :: map de_Name rest)) as [name|] eqn:Hfind.
    - apply find_some in Hfind. destruct Hfind as [Hin _].
      change (de_Name first :: map de_Name rest) with (map de_Name (first :: rest)) in Hin.
      apply in_map_iff in Hin. destruct Hin as (entry & Hname & Hin).
      exists entry. split; assumption.
    - exists first. split; [left; reflexivity | reflexivity]. }
  split; [reflexivity|]. split.
  - split.
    + intros Hempty. destruct (filter is_candidate entries) as [|first rest] eqn:Hf;
        [reflexivity|]. exfalso.
      destruct Hpick as (entry & Hin & Hname); [discriminate|].
      rewrite <- Hf in Hin. apply filter_In in Hin. destruct Hin as [_ Hc].
      apply is_candidate_true in Hc. destruct Hc as (_ & Hs & _).
      apply HasSuffix_nonempty in Hs; [|discriminate]. congruence.
    + intros Hnone. unfold findActualDBFile. rewrite Hnone. reflexivity.
  - intros Hfound.
    assert (Hsome : filter is_candidate entries <> []).
    { intros Hnone. apply Hfound. unfold findActualDBFile. rewrite Hnone. reflexivity. }
    destruct (Hpick Hsome) as (entry & Hin & Hname).
    apply filter_In in Hin. destruct Hin as [Hin Hc].
    apply is_candidate_true in Hc. exists entry. tauto.
Qed.

(** X22.  [findActualDBFile] prefers the canonical name: when the directory holds
    a file [beads.db] the answer is [beads.db], whatever else the directory
    holds and in whatever order; and when no file passes under that name the
    answer is the first that passes, in the order of the directory. *)
Theorem findActualDBFile_prefers_beads_db :
  forall (entries : list DirEntry),
    (In (mkDirEntry "beads.db" false) entries ->
       findActualDBFile (Ok entries) = "beads.db") /\
    (forall first rest,
       filter is_candidate entries = first :: rest ->
       ~ In "beads.db" (map de_Name (first :: rest)) ->
       findActualDBFile (Ok entries) = de_Name first).
Proof.
  intros entries. split.
  - intros Hin.
    assert (Hc : In (mkDirEntry "beads.db" false) (filter is_candidate entries)).
    { apply filter_In. split; [exact Hin | reflexivity]. }
    unfold findActualDBFile.
    destruct (filter is_candidate entries) as [|first rest]; [contradiction|].
    cbn [map].
    change (de_Name first :: map de_Name rest) with (map de_Name (first :: rest)).
    destruct (find _ (map de_Name (first :: rest))) as [name|] eqn:Hfind.
    + apply find_some in Hfind. destruct Hfind as [_ Hname].
      apply String.eqb_eq in Hname. exact Hname.
    + exfalso.
      assert (Hno : ("beads.db" =? "beads.db") = false).
      { apply (find_none _ _ Hfind "beads.db").
        change "beads.db" with (de_Name (mkDirEntry "beads.db" false)).
        apply in_map. exact Hc. }
      discriminate Hno.
  - intros first rest Hf Hno. unfold findActualDBFile. rewrite Hf. cbn [map].
    change (de_Name first :: map de_Name rest) with (map de_Name (first :: rest)).
    destruct (find _ (map de_Name (first :: rest))) as [name|] eqn:Hfind; [|reflexivity].
    exfalso. apply find_some in Hfind. destruct Hfind as [Hin Hname].
    apply String.eqb_eq in Hname. subst name. exact (Hno Hin).
Qed.

(** ** The time of the last sync *)

Lemma find_update_last_sync name now t :
  find (fun r => peer_name r =? name) (update_last_sync name now t) =
  match find (fun r => peer_name r =? name) t with
  | Some r => Some (mkPeerRow (peer_name r) (remote_url r) (username r)
                      (password_encrypted r) (sovereignty r) (Some now)
                      (created_at r) (peer_updated_at r))
  | None => None
  end.
Proof.
  unfold update_last_sync, sql_update. induction t as [|r t IH]; [reflexivity|].
  cbn [map find]. destruct (peer_name r =? name) eqn:Hr.
  - cbn [peer_name]. rewrite Hr. reflexivity.
  - rewrite Hr. exact IH.
Qed.

Lemma find_update_last_sync_other other name now t :
  other <> name ->
  find (fun r => peer_name r =? other) (update_last_sync name now t) =
  find (fun r => peer_name r =? other) t.
Proof.
  intros Hne. unfold update_last_sync, sql_update. induction t as [|r t IH]; [reflexivity|].
  cbn [map find]. destruct (String.eqb_spec (peer_name r) name) as [Hr|Hr].
  - cbn [peer_name]. rewrite Hr. apply String.eqb_neq in Hne.
    rewrite (String.eqb_sym name other), Hne. exact IH.
  - destruct (peer_name r =? other); [reflexivity | exact IH].
Qed.

Section LastSyncFacts.

Context {P : Primitives} {R : RemoteAPI}.
Variable engine : Engine.

(** X23.  [updatePeerLastSync] changes the time of the last sync of the named
    peer and nothing else: a lookup of the peer gives afterwards what it
    gave before with [LastSync] set to the time of the call, a lookup of
    another name gives what it gave before, and for a name that is not
    stored the call succeeds and leaves the relation as it is. *)
Theorem updatePeerLastSync_sets_only_the_sync_time :
  forall (name : string) (now : nat) (s s1 : DoltStore R),
    updatePeerLastSync engine name now s = (Ok tt, s1) ->
    engine (requests s1) = None ->
    (forall peer,
       fst (GetFederationPeer engine name s) = Ok peer ->
       fst (GetFederationPeer engine name s1) =
         Ok (mkFederationPeer (Name peer) (RemoteURL peer) (Username peer)
               (Password peer) (Sovereignty peer) (Some now)
               (CreatedAt peer) (UpdatedAt peer))) /\
    (forall other, other <> name ->
       fst (GetFederationPeer engine other s1) = fst (GetFederationPeer engine other s)) /\
    (find (fun r => peer_name r =? name) (federation_peers s) = None ->
       federation_peers s1 = federation_peers s).
Proof.
  intros name now s s1 H Heng1.
  unfold updatePeerLastSync, wrap, execContext in H.
  destruct (engine (requests s)) eqn:Heng; [discriminate|].
  inversion H; subst; clear H. split; [|split].
  - intros peer Hget.
    rewrite (GetFederationPeer_run _ _ _ Heng) in Hget.
    rewrite (GetFederationPeer_run _ _ _ Heng1). cbn [fst] in *.
    cbn [federation_peers credentialKey next_request with_peers].
    rewrite find_update_last_sync.
    destruct (find _ (federation_peers s)) as [row|]; [|discriminate].
    unfold peer_of_row in *. cbn [password_encrypted peer_name remote_url username
      sovereignty last_sync created_at peer_updated_at].
    destruct (password_encrypted row) as [[|b encrypted]|];
      try (inversion Hget; subst; reflexivity).
    destruct (decryptPassword _ _); inversion Hget; subst; reflexivity.
  - intros other Hne.
    rewrite (GetFederationPeer_run _ _ _ Heng), (GetFederationPeer_run _ _ _ Heng1).
    cbn. rewrite find_update_last_sync_other by exact Hne. reflexivity.
  - intros Hnone. cbn [federation_peers next_request with_peers].
    unfold update_last_sync. apply sql_update_no_match.
    unfold rows_matched. clear -Hnone.
    induction (federation_peers s) as [|r t IH]; [reflexivity|].
    cbn [find filter] in *. destruct (peer_name r =? name); [discriminate|].
    apply IH. exact Hnone.
Qed.

End LastSyncFacts.

(** ** The layout of a sealed password *)

(** X24.  What [encryptWithKey] returns starts with the nonce it drew, 12 bytes,
    followed by the sealed text: it is never empty, and two encryptions
    that drew different nonces return different bytes, whatever the
    passwords and keys. *)
Theorem encryptWithKey_puts_the_nonce_in_front :
  forall {P : Primitives} (source : option (list byte)) (plaintext : string)
         (key encrypted : list byte),
    encryptWithKey source plaintext key = Ok encrypted ->
    source = Some (firstn NonceSize encrypted) /\
    NonceSize <= List.length encrypted /\
    skipn NonceSize encrypted =
      gcm_Seal key (firstn NonceSize encrypted) (list_byte_of_string plaintext) /\
    (forall source' plaintext' key' encrypted',
       encryptWithKey source' plaintext' key' = Ok encrypted' ->
       source' <> source -> encrypted' <> encrypted).
Proof.
  intros P source plaintext key encrypted H.
  assert (Hshape : forall src p k enc,
            encryptWithKey src p k = Ok enc ->
            src = Some (firstn NonceSize enc) /\ NonceSize <= List.length enc /\
            skipn NonceSize enc =
              gcm_Seal k (firstn NonceSize enc) (list_byte_of_string p)).
  { intros src p k enc Henc. apply encryptWithKey_Ok in Henc.
    destruct Henc as (_ & nonce & -> & Hn & ->).
    rewrite <- Hn, firstn_app, Nat.sub_diag, firstn_all, firstn_O, app_nil_r.
    rewrite skipn_app, skipn_all, Nat.sub_diag, length_app. cbn [skipn app].
    repeat split. lia. }
  destruct (Hshape _ _ _ _ H) as (Hsrc & Hlen & Hseal).
  repeat split; try assumption.
  intros source' plaintext' key' encrypted' H' Hdiff Heq.
  destruct (Hshape _ _ _ _ H') as (Hsrc' & _ & _). congruence.
Qed.

(** ** From the stored peer to the environment of the callback *)

Section CallbackFacts.

Context {P : Primitives} {L : SealOpen P} {R : RemoteAPI}.
Variable engine : Engine.
Variable entropy : nat -> option (list byte).

(** X25.  The credentials given to [AddFederationPeer] are the ones the callback
    of [withPeerCredentials] finds: after a successful add of a peer with a
    user name and a password, [withPeerCredentials] (when the engine carries
    out the lookup) calls [fn] with the mutex held and with DOLT_REMOTE_USER
    and DOLT_REMOTE_PASSWORD set to that user name and that password, and
    returns what [fn] returns. *)
Theorem withPeerCredentials_passes_the_stored_credentials :
  forall (peer : FederationPeer) (now now' : nat) (s s1 : DoltStore R)
         (fn : DoltStore R -> outcome * DoltStore R),
    AddFederationPeer engine entropy peer now s = (Ok tt, s1) ->
    engine (requests s1) = None ->
    Username peer <> "" -> Password peer <> "" ->
    Contains (Username peer) (String zero EmptyString) = false ->
    Contains (Password peer) (String zero EmptyString) = false ->
    exists during,
      fst (withPeerCredentials engine (Name peer) fn now' s1) = fst (fn during) /\
      federationEnvMutex during = true /\
      Getenv "DOLT_REMOTE_USER" (environ during) = Some (Username peer) /\
      Getenv "DOLT_REMOTE_PASSWORD" (environ during) = Some (Password peer) /\
      federation_peers during = federation_peers s1.
Proof.
  intros peer now now' s s1 fn Hadd Heng Hu Hp Hnu Hnp.
  destruct (AddFederationPeer_reads_back engine entropy _ _ _ _ Hadd)
    as (row & got & Hfind & Hrow & _ & _ & Huser & Hpwd & _).
  assert (Hrun : GetFederationPeer engine (Name peer) s1 = (Ok got, next_request s1)).
  { rewrite (GetFederationPeer_run _ _ _ Heng), Hfind, Hrow. reflexivity. }
  unfold withPeerCredentials. rewrite Hrun, Huser, Hpwd.
  apply String.eqb_neq in Hu. apply String.eqb_neq in Hp. rewrite Hu, Hp. cbn [negb orb].
  unfold setFederationCredentials. rewrite Hu, Hp. cbn [negb].
  match goal with |- context [fn ?x] => exists x end.
  split; [destruct (fn _) as [[err|v] s2]; reflexivity|].
  split; [reflexivity|]. cbn [environ with_environ with_mutex].
  split; [|split; [|reflexivity]].
  - rewrite Getenv_Setenv_other by discriminate. apply Getenv_Setenv. exact Hnu.
  - apply Getenv_Setenv. exact Hnp.
Qed.

End CallbackFacts.

(** ** The properties at sample data *)

Lemma listed_files_write_then_read : WriteThenRead listed_files.
Proof.
  constructor. intros path data perm files files' H. cbn in *.
  inversion H; subst. cbn. rewrite String.eqb_refl. reflexivity.
Qed.

(** A rename whose [UPDATE labels] the engine refuses: nothing is
    committed and no transaction stays open. *)
Lemma UpdateIssueID_all_or_nothing_witness :
  tx (connect test_database) = None /\
  fst (UpdateIssueID (refuses [6]) "test-old1" "test-new1" test_issue "test" 1
         (connect test_database)) =
    Err "failed to update labels: driver: bad connection" /\
  tx (snd (UpdateIssueID (refuses [6]) "test-old1" "test-new1" test_issue "test" 1
             (connect test_database))) = None /\
  store (snd (UpdateIssueID (refuses [6]) "test-old1" "test-new1" test_issue "test" 1
                (connect test_database))) = test_database.
Proof.
  split; [reflexivity|]. split; [vm_compute; reflexivity|].
  destruct (UpdateIssueID_all_or_nothing (refuses [6]) "test-old1" "test-new1" test_issue
              "test" 1 (connect test_database) _ _ eq_refl (surjective_pairing _))
    as [Htx Hst].
  split; [exact Htx|]. apply Hst. vm_compute. reflexivity.
Defined.

(** X26 at a run whose commit the engine refuses, and at a run whose
    explicit re-enabling statement it refuses: the call returns the error
    with enforcement on. *)
Lemma UpdateIssueID_enforcement_at_return_witness :
  foreign_key_checks (connect test_database) = true /\
  fst (UpdateIssueID (refuses [18]) "test-old1" "test-new1" test_issue "test" 1
         (connect test_database)) = Err "driver: bad connection" /\
  foreign_key_checks
    (snd (UpdateIssueID (refuses [18]) "test-old1" "test-new1" test_issue "test" 1
            (connect test_database))) = true /\
  fst (UpdateIssueID (refuses [17]) "test-old1" "test-new1" test_issue "test" 1
         (connect test_database)) =
    Err "failed to re-enable foreign key checks: driver: bad connection" /\
  (foreign_key_checks
     (snd (UpdateIssueID (refuses [17]) "test-old1" "test-new1" test_issue "test" 1
             (connect test_database))) = false <->
   In (req_exec (SET_FOREIGN_KEY_CHECKS false), true)
     (trace_since (connect test_database)
        (snd (UpdateIssueID (refuses [17]) "test-old1" "test-new1" test_issue "test" 1
                (connect test_database)))) /\
   ~ In (req_exec (SET_FOREIGN_KEY_CHECKS true), true)
       (trace_since (connect test_database)
          (snd (UpdateIssueID (refuses [17]) "test-old1" "test-new1" test_issue "test" 1
                  (connect test_database))))).
Proof.
  split; [reflexivity|]. split; [vm_compute; reflexivity|]. split.
  - refine (proj1 (proj2 (proj2 (UpdateIssueID_enforcement_at_return (refuses [18])
              "test-old1" "test-new1" test_issue "test" 1 (connect test_database)
              _ _ eq_refl (surjective_pairing _)))) false _).
    vm_compute. auto 25.
  - split; [vm_compute; reflexivity|].
    exact (proj1 (UpdateIssueID_enforcement_at_return (refuses [17])
              "test-old1" "test-new1" test_issue "test" 1 (connect test_database)
              _ _ eq_refl (surjective_pairing _))).
Defined.

(** The rename of the rename tests: the wisp relations follow the issue. *)
Lemma UpdateIssueID_rewrites_only_references_witness :
  isActiveWisp (connect test_database) "test-old1" = false /\
  UpdateIssueID healthy "test-old1" "test-new1" test_issue "test" 1
    (connect test_database) = (Ok tt, renamed_issue_session) /\
  wisp_dependencies (store renamed_issue_session) =
    [mkDependencyRow "test-wisp-abc" "test-new1" "blocks";
     mkDependencyRow "test-new1" "test-wisp-def" "blocks"] /\
  wisps (store renamed_issue_session) = wisps test_database.
Proof.
  assert (Hw : isActiveWisp (connect test_database) "test-old1" = false) by reflexivity.
  assert (Hrun : UpdateIssueID healthy "test-old1" "test-new1" test_issue "test" 1
                   (connect test_database) = (Ok tt, renamed_issue_session))
    by (vm_compute; reflexivity).
  destruct (UpdateIssueID_rewrites_only_references healthy "test-old1" "test-new1"
              test_issue "test" 1 (connect test_database) renamed_issue_session Hw Hrun)
    as (_ & _ & _ & _ & _ & _ & _ & _ & Hwisps & Hdeps & _).
  split; [exact Hw|]. split; [exact Hrun|]. split; [exact Hdeps | exact Hwisps].
Defined.

Lemma UpdateIssueID_wisp_rewrites_only_wisp_references_witness :
  isActiveWisp (connect test_database) "test-wisp-abc" = true /\
  UpdateIssueID healthy "test-wisp-abc" "test-renamed-wisp" test_wisp "tester" 1
    (connect test_database) = (Ok tt, renamed_wisp_session) /\
  issue_side_equal (store renamed_wisp_session) test_database /\
  wisp_dependencies (store renamed_wisp_session) =
    [mkDependencyRow "test-renamed-wisp" "test-old1" "blocks";
     mkDependencyRow "test-old1" "test-wisp-def" "blocks"].
Proof.
  assert (Hw : isActiveWisp (connect test_database) "test-wisp-abc" = true) by reflexivity.
  assert (Hrun : UpdateIssueID healthy "test-wisp-abc" "test-renamed-wisp" test_wisp
                   "tester" 1 (connect test_database) = (Ok tt, renamed_wisp_session))
    by (vm_compute; reflexivity).
  destruct (UpdateIssueID_wisp_rewrites_only_wisp_references healthy "test-wisp-abc"
              "test-renamed-wisp" test_wisp "tester" 1 (connect test_database)
              renamed_wisp_session Hw Hrun)
    as (Hsame & _ & Hdeps & _).
  split; [exact Hw|]. split; [exact Hrun|]. split; [exact Hsame | exact Hdeps].
Defined.

(** [bd-a1] renamed to [bd-b2] and back. *)
Lemma UpdateIssueID_there_and_back_witness :
  fresh_id "bd-b2" single_issue /\
  UpdateIssueID healthy "bd-a1" "bd-b2" (mkIssue "bd-b2" "Task" "" "" "" "") "me" 1
    (connect single_issue) = (Ok tt, there) /\
  UpdateIssueID healthy "bd-b2" "bd-a1" (mkIssue "bd-a1" "Task" "" "" "" "") "me" 2 there =
    (Ok tt, back) /\
  events (store back) =
    [mkEventRow "bd-a1" "renamed" "me" (Some "bd-a1") (Some "bd-b2");
     mkEventRow "bd-a1" "renamed" "me" (Some "bd-b2") (Some "bd-a1")] /\
  issues (store back) = [mkIssueRow "bd-a1" "Task" "" "" "" "" "open" 2 "task" 2].
Proof.
  assert (Hfresh : fresh_id "bd-b2" single_issue).
  { unfold fresh_id, unreferenced_in_issue_tables, unreferenced_in_wisp_tables.
    cbn. repeat split; repeat constructor. discriminate. }
  assert (H1 : UpdateIssueID healthy "bd-a1" "bd-b2" (mkIssue "bd-b2" "Task" "" "" "" "")
                 "me" 1 (connect single_issue) = (Ok tt, there))
    by (vm_compute; reflexivity).
  assert (H2 : UpdateIssueID healthy "bd-b2" "bd-a1" (mkIssue "bd-a1" "Task" "" "" "" "")
                 "me" 2 there = (Ok tt, back))
    by (vm_compute; reflexivity).
  destruct (UpdateIssueID_there_and_back healthy healthy "bd-a1" "bd-b2" _ _ "me" "me" 1 2
              (connect single_issue) there back eq_refl Hfresh H1 H2)
    as (Hissues & Hevents & _).
  split; [exact Hfresh|]. split; [exact H1|]. split; [exact H2|].
  split; [exact Hevents | exact Hissues].
Defined.

(** A prefix rename whose second statement the engine refuses. *)
Lemma RenameDependencyPrefix_all_or_nothing_witness :
  tx (connect bd_dependencies) = None /\
  fst (RenameDependencyPrefix (refuses [2]) "bd-" "beads-" (connect bd_dependencies)) =
    Err "failed to update depends_on_id in dependencies: driver: bad connection" /\
  store (snd (RenameDependencyPrefix (refuses [2]) "bd-" "beads-"
                (connect bd_dependencies))) = bd_dependencies /\
  tx (snd (RenameDependencyPrefix (refuses [2]) "bd-" "beads-"
             (connect bd_dependencies))) = None.
Proof.
  split; [reflexivity|]. split; [vm_compute; reflexivity|].
  destruct (RenameDependencyPrefix_all_or_nothing (refuses [2]) "bd-" "beads-"
              (connect bd_dependencies) _ _ eq_refl (surjective_pairing _))
    as (Htx & _ & Hst & _).
  split; [apply Hst; vm_compute; reflexivity | exact Htx].
Defined.

Lemma RenameDependencyPrefix_replaces_literal_prefix_witness :
  ascii_only "bd-" = true /\ wildcard_free "bd-" = true /\
  dependencies
    (store (snd (RenameDependencyPrefix healthy "bd-" "beads-" (connect bd_dependencies)))) =
    [mkDependencyRow "beads-1" "beads-2" "blocks";
     mkDependencyRow "other-1" "beads-1" "related"].
Proof.
  split; [reflexivity|]. split; [reflexivity|].
  rewrite (RenameDependencyPrefix_replaces_literal_prefix healthy "bd-" "beads-"
             (connect bd_dependencies) _ eq_refl eq_refl
             (surjective_pairing
                (RenameDependencyPrefix healthy "bd-" "beads-" (connect bd_dependencies)))).
  reflexivity.
Defined.

Lemma RenameDependencyPrefix_empty_prefix_prepends_witness :
  dependencies
    (store (snd (RenameDependencyPrefix healthy "" "x-" (connect bd_dependencies)))) =
    [mkDependencyRow "x-bd-1" "x-bd-2" "blocks";
     mkDependencyRow "x-other-1" "x-bd-1" "related"].
Proof.
  rewrite (RenameDependencyPrefix_empty_prefix_prepends healthy "x-"
             (connect bd_dependencies) _
             (surjective_pairing
                (RenameDependencyPrefix healthy "" "x-" (connect bd_dependencies)))).
  reflexivity.
Defined.

Lemma RenameDependencyPrefix_there_and_back_witness :
  wildcard_free "bd-" = true /\ wildcard_free "beads-" = true /\
  store (snd (RenameDependencyPrefix healthy "beads-" "bd-"
                (snd (RenameDependencyPrefix healthy "bd-" "beads-"
                        (connect bd_dependencies))))) = bd_dependencies.
Proof.
  split; [reflexivity|]. split; [reflexivity|].
  apply (RenameDependencyPrefix_there_and_back healthy healthy "bd-" "beads-"
           (connect bd_dependencies)
           (snd (RenameDependencyPrefix healthy "bd-" "beads-" (connect bd_dependencies)))
           _ eq_refl eq_refl eq_refl eq_refl).
  - cbn. repeat constructor.
  - reflexivity.
  - reflexivity.
Defined.

(** [alice] is added again, with the same password under a fresh nonce: the
    lookup returns what was given and keeps the time of her last sync. *)
Lemma AddFederationPeer_then_GetFederationPeer_witness :
  AddFederationPeer (P := keyed_box) healthy steady_entropy alice 5 two_peers_store =
    (Ok tt, snd (AddFederationPeer (P := keyed_box) healthy steady_entropy alice 5
                   two_peers_store)) /\
  exists got,
    fst (GetFederationPeer (P := keyed_box) healthy "alice"
           (snd (AddFederationPeer (P := keyed_box) healthy steady_entropy alice 5
                   two_peers_store))) = Ok got /\
    Password got = "s3cret" /\ LastSync got = Some 3.
Proof.
  assert (Hadd : AddFederationPeer (P := keyed_box) healthy steady_entropy alice 5
                   two_peers_store =
                 (Ok tt, snd (AddFederationPeer (P := keyed_box) healthy steady_entropy
                                alice 5 two_peers_store)))
    by (vm_compute; reflexivity).
  split; [exact Hadd|].
  destruct (AddFederationPeer_then_GetFederationPeer (L := keyed_box_seal_open)
              healthy steady_entropy alice 5 two_peers_store _ Hadd eq_refl)
    as (got & Hget & _ & _ & _ & Hpwd & _ & _ & Hsync).
  exists got. split; [exact Hget|]. split; [exact Hpwd|].
  cbn in Hsync. apply Hsync.
Defined.

Lemma other_peers_are_left_alone_witness :
  fst (GetFederationPeer (P := keyed_box) healthy "bob"
         (snd (RemoveFederationPeer healthy "alice" two_peers_store))) =
  fst (GetFederationPeer (P := keyed_box) healthy "bob" two_peers_store).
Proof.
  refine (proj2 (other_peers_are_left_alone (P := keyed_box) healthy steady_entropy
                   "bob" two_peers_store eq_refl)
            "alice" _ _ _ eq_refl).
  - vm_compute. reflexivity.
  - discriminate.
Defined.

Lemma RemoveFederationPeer_then_GetFederationPeer_witness :
  fst (GetFederationPeer (P := keyed_box) healthy "alice"
         (snd (RemoveFederationPeer healthy "alice" two_peers_store))) =
  Err "not found: federation peer alice".
Proof.
  apply (RemoveFederationPeer_then_GetFederationPeer (P := keyed_box) healthy "alice"
           two_peers_store).
  - vm_compute. reflexivity.
  - reflexivity.
Defined.

(** The two peers are listed by name, [alice] before [bob], and the lookup
    of [bob] gives the entry of the list. *)
Lemma ListFederationPeers_agrees_with_GetFederationPeer_witness :
  pk_unique (map peer_name (federation_peers two_peers_store)) = true /\
  fst (ListFederationPeers (P := keyed_box) healthy two_peers_store) =
    Ok [alice_stored; bob_stored] /\
  fst (GetFederationPeer (P := keyed_box) healthy "bob" two_peers_store) = Ok bob_stored.
Proof.
  assert (Hpk : pk_unique (map peer_name (federation_peers two_peers_store)) = true)
    by reflexivity.
  assert (Hrun : ListFederationPeers (P := keyed_box) healthy two_peers_store =
                 (Ok [alice_stored; bob_stored],
                  snd (ListFederationPeers (P := keyed_box) healthy two_peers_store)))
    by (vm_compute; reflexivity).
  destruct (ListFederationPeers_agrees_with_GetFederationPeer (P := keyed_box) healthy
              two_peers_store _ _ Hpk Hrun) as (_ & _ & _ & _ & Hget).
  split; [exact Hpk|]. split; [rewrite Hrun; reflexivity|].
  apply (Hget bob_stored two_peers_store); auto. right. left. reflexivity.
Defined.

(** A store without key lists nothing once one peer has a password. *)
Lemma ListFederationPeers_fails_on_unreadable_password_witness :
  credentialKey unmigrated_store = None /\
  exists cause,
    fst (ListFederationPeers (P := keyed_box) healthy unmigrated_store) =
      Err (Errorf "failed to decrypt password" cause).
Proof.
  split; [reflexivity|].
  eapply (ListFederationPeers_fails_on_unreadable_password (P := keyed_box) healthy
            unmigrated_store
            (mkPeerRow "legacy" "https://example.com/a" (Some "u")
               (Some (sample_nonce ++ legacy_key ++ list_byte_of_string "old-pw"))
               "T1" None 0 0)).
  - reflexivity.
  - left. reflexivity.
  - reflexivity.
  - discriminate.
  - vm_compute. reflexivity.
Defined.

(** The remote of [alice] exists already: the peer is added all the same. *)
Lemma AddFederationPeer_tolerates_existing_remote_witness :
  fst (AddRemote (RemoteAPI := listed_remotes) "alice" "https://example.com/alice"
         (remotes two_peers_store)) = Some "remote already exists" /\
  fst (AddFederationPeer (P := keyed_box) healthy steady_entropy alice 5 two_peers_store) =
    Ok tt.
Proof.
  split; [reflexivity|].
  rewrite (proj1 (AddFederationPeer_tolerates_existing_remote (P := keyed_box) healthy
                    steady_entropy alice 5 two_peers_store eq_refl eq_refl eq_refl)).
  reflexivity.
Defined.

(** A peer with a user name and no password: [fn] finds the password an
    earlier run left in the environment. *)
Lemma setFederationCredentials_environment_witness :
  Getenv "DOLT_REMOTE_USER"
    (environ (snd (setFederationCredentials "alice" "" two_peers_store))) = Some "alice" /\
  Getenv "DOLT_REMOTE_PASSWORD"
    (environ (snd (setFederationCredentials "alice" "" two_peers_store))) = Some "stale" /\
  Getenv "DOLT_REMOTE_PASSWORD"
    (environ (fst (setFederationCredentials "alice" "" two_peers_store)
                (snd (setFederationCredentials "alice" "" two_peers_store)))) = None.
Proof.
  destruct (setFederationCredentials_environment "alice" "" two_peers_store
              eq_refl eq_refl) as (Huser & Hpwd & _ & Hclean).
  split; [exact Huser|]. split; [exact Hpwd|].
  apply (Hclean (snd (setFederationCredentials "alice" "" two_peers_store))).
Defined.

Lemma updatePeerLastSync_sets_only_the_sync_time_witness :
  fst (GetFederationPeer (P := keyed_box) healthy "alice" two_peers_store) =
    Ok alice_stored /\
  fst (GetFederationPeer (P := keyed_box) healthy "alice"
         (snd (updatePeerLastSync healthy "alice" 9 two_peers_store))) =
    Ok (mkFederationPeer "alice" "https://example.com/alice" "alice" "s3cret" "T2"
          (Some 9) 1 2).
Proof.
  assert (Hget : fst (GetFederationPeer (P := keyed_box) healthy "alice" two_peers_store) =
                 Ok alice_stored) by (vm_compute; reflexivity).
  split; [exact Hget|].
  apply (proj1 (updatePeerLastSync_sets_only_the_sync_time (P := keyed_box) healthy
                  "alice" 9 two_peers_store _ (surjective_pairing _) eq_refl)
           alice_stored Hget).
Defined.

Lemma encryptWithKey_puts_the_nonce_in_front_witness :
  encryptWithKey (P := keyed_box) (Some sample_nonce) "s3cret" sample_key =
    Ok (sample_nonce ++ sample_key ++ list_byte_of_string "s3cret") /\
  Some sample_nonce =
    Some (firstn NonceSize (sample_nonce ++ sample_key ++ list_byte_of_string "s3cret")) /\
  NonceSize <= List.length (sample_nonce ++ sample_key ++ list_byte_of_string "s3cret").
Proof.
  split; [reflexivity|].
  destruct (encryptWithKey_puts_the_nonce_in_front (P := keyed_box) (Some sample_nonce)
              "s3cret" sample_key _ eq_refl) as (Hsrc & Hlen & _).
  split; [exact Hsrc | exact Hlen].
Defined.

(** The first start of the store at [/srv/beads], a second store on the
    same files, and a start on files that cannot be written. *)
Lemma initCredentialKey_sets_the_key_last_witness :
  initCredentialKey (P := keyed_box) healthy start_entropy first_start = (Ok tt, started) /\
  credentialKey (host_store started) = Some fresh_key /\
  exists key, credentialKey (host_store started) = Some key /\ List.length key = 32.
Proof.
  assert (Hrun : initCredentialKey (P := keyed_box) healthy start_entropy first_start =
                 (Ok tt, started)) by (vm_compute; reflexivity).
  split; [exact Hrun|]. split; [vm_compute; reflexivity|].
  apply (proj2 (proj2 (initCredentialKey_sets_the_key_last (P := keyed_box) healthy
                         start_entropy first_start started (Ok tt) Hrun)) eq_refl).
  discriminate.
Defined.

Lemma initCredentialKey_reloads_the_same_key_witness :
  exists key,
    credentialKey (host_store started) = Some key /\
    initCredentialKey (P := keyed_box) (refuses [0]) (fun _ => None) second_start =
      (Ok tt, mkHost (with_credentialKey key unmigrated_store) (host_files started)).
Proof.
  assert (Hrun : initCredentialKey (P := keyed_box) healthy start_entropy first_start =
                 (Ok tt, started)) by (vm_compute; reflexivity).
  assert (Hpath : dbPath (host_store first_start) <> "") by discriminate.
  destruct (initCredentialKey_reloads_the_same_key (P := keyed_box) healthy start_entropy
              (W := listed_files_write_then_read) first_start started Hpath Hrun)
    as (key & Hkey & Hreload).
  exists key. split; [exact Hkey|].
  apply (Hreload (refuses [0]) (fun _ => None) unmigrated_store). reflexivity.
Defined.

Lemma initCredentialKey_then_passwords_round_trip_witness :
  exists encrypted,
    encryptPassword (P := keyed_box) (credentialKey (host_store started))
      (Some sample_nonce) "hunter2" = Ok encrypted /\
    decryptPassword (P := keyed_box) (credentialKey (host_store started)) encrypted =
      Ok "hunter2".
Proof.
  assert (Hrun : initCredentialKey (P := keyed_box) healthy start_entropy first_start =
                 (Ok tt, started)) by (vm_compute; reflexivity).
  assert (Hpath : dbPath (host_store first_start) <> "") by discriminate.
  destruct (initCredentialKey_then_passwords_round_trip (P := keyed_box)
              (L := keyed_box_seal_open) healthy start_entropy first_start started
              "hunter2" sample_nonce Hpath Hrun eq_refl)
    as (encrypted & Henc & Hdec & _).
  exists encrypted. split; assumption.
Defined.

Lemma initCredentialKey_keeps_legacy_passwords_readable_witness :
  exists got,
    fst (GetFederationPeer (P := keyed_box) healthy "legacy" (host_store started)) = Ok got /\
    Password got = "old-pw".
Proof.
  assert (Hrun : initCredentialKey (P := keyed_box) healthy start_entropy first_start =
                 (Ok tt, started)) by (vm_compute; reflexivity).
  assert (Hpath : dbPath (host_store first_start) <> "") by discriminate.
  destruct (initCredentialKey_keeps_legacy_passwords_readable (P := keyed_box)
              (L := keyed_box_seal_open) healthy start_entropy first_start started
              (mkPeerRow "legacy" "https://example.com/a" (Some "u")
                 (Some (sample_nonce ++ legacy_key ++ list_byte_of_string "old-pw"))
                 "T1" None 0 0)
              "old-pw" Hpath eq_refl eq_refl eq_refl eq_refl Hrun
              (or_introl eq_refl) eq_refl eq_refl)
    as (got & Hget & Hpwd & _).
  exists got. split; assumption.
Defined.

Lemma initCredentialKey_migrates_before_saving_the_key_witness :
  fst (initCredentialKey (P := keyed_box) healthy start_entropy read_only_start) =
    Err "failed to write credential key file: read-only file system" /\
  credentialKey
    (host_store (snd (initCredentialKey (P := keyed_box) healthy start_entropy
                        read_only_start))) = None /\
  exists key,
    start_entropy 0 = Some key /\ List.length key = 32 /\
    Forall2 (migrated_row (P := keyed_box) key "/srv/beads")
      (federation_peers unmigrated_store)
      (federation_peers
         (host_store (snd (initCredentialKey (P := keyed_box) healthy start_entropy
                             read_only_start)))).
Proof.
  assert (Hrun : initCredentialKey (P := keyed_box) healthy start_entropy read_only_start =
                 (Err "failed to write credential key file: read-only file system",
                  snd (initCredentialKey (P := keyed_box) healthy start_entropy
                         read_only_start)))
    by (vm_compute; reflexivity).
  split; [rewrite Hrun; reflexivity|].
  apply (initCredentialKey_migrates_before_saving_the_key (P := keyed_box)
           (L := keyed_box_seal_open) healthy start_entropy read_only_start _
           "failed to write credential key file: read-only file system"
           eq_refl eq_refl eq_refl).
  - exists "read-only file system". right. reflexivity.
  - exact Hrun.
Defined.

Lemma withPeerCredentials_passes_the_stored_credentials_witness :
  exists during,
    fst (withPeerCredentials (P := keyed_box) healthy "alice" failing_sync 9
           (snd (AddFederationPeer (P := keyed_box) healthy steady_entropy alice 5
                   two_peers_store))) = fst (failing_sync during) /\
    Getenv "DOLT_REMOTE_USER" (environ during) = Some "alice" /\
    Getenv "DOLT_REMOTE_PASSWORD" (environ during) = Some "s3cret".
Proof.
  assert (Hadd : AddFederationPeer (P := keyed_box) healthy steady_entropy alice 5
                   two_peers_store =
                 (Ok tt, snd (AddFederationPeer (P := keyed_box) healthy steady_entropy
                                alice 5 two_peers_store)))
    by (vm_compute; reflexivity).
  assert (Hu : Username alice <> "") by discriminate.
  assert (Hp : Password alice <> "") by discriminate.
  destruct (withPeerCredentials_passes_the_stored_credentials (P := keyed_box)
              (L := keyed_box_seal_open) healthy steady_entropy alice 5 9 two_peers_store
              _ failing_sync Hadd eq_refl Hu Hp eq_refl eq_refl)
    as (during & Hout & _ & Huser & Hpwd & _).
  exists during. split; [exact Hout|]. split; assumption.
Defined.

(** The cases of [TestFindActualDBFile], and a directory that holds more. *)
Example findActualDBFile_examples :
  findActualDBFile (Ok [mkDirEntry "beads.db" false]) = "beads.db" /\
  findActualDBFile (Ok [mkDirEntry "beads.db.backup" false]) = "" /\
  findActualDBFile (Ok [mkDirEntry "vc.db" false]) = "" /\
  findActualDBFile (Ok []) = "" /\
  findActualDBFile (Ok sample_directory) = "beads.db" /\
  findActualDBFile (Ok [mkDirEntry "beads-backup.db" false; mkDirEntry "archive.db" false]) =
    "archive.db".
Proof. repeat split. Qed.
